(** * news-service: query routing, ranking, cache guard and trending engine

    A shallow embedding of the Go sources
      internal/services/news   (NewsService: Query, determineStrategy, ...)
      internal/services/llm    (Extraction, Intent, LLMClient)
      internal/repo            (repository: the article store)
      internal/cache           (keys.go, redis.go)
      internal/services/trending (TrendingScorer)
      internal/middleware      (the rate limiter)
      internal/http            (NewsHandler: Query, Trending)
      internal/ingest          (Loader)
    followed by the properties established about them.

    Conventions.
    - [float64] is IEEE binary64, carried as [spec_float] with the
      operations of [SpecFloat] at precision 53 and maximal exponent 1024.
    - Go [int] is [Z]; [int32(x)] wraps.
    - A Go [string] is a [string]; [nil] pointers are [None].
    - [time.Time] is an instant in nanoseconds, a [Z].
    - A Go [error] is its message.
    - A slice is a list; a position in it is a [nat].  A loop whose number
      of turns is not fixed by its header runs on fuel that outlasts it.
    - The scores of the trending engine are real numbers: its formula is
      stated over [R], without the rounding of float64.
    - Library routines that the service only passes results of are the
      fields of the class [GoLibrary]; [json.Marshal] of an article and
      [strconv.ParseFloat] are the fields of [repo.GoJSON] and of
      [http.GoStrconv].
    - The order in which a Redis set lists its members, or a Go map its
      entries, after an insertion is the choice of [cache.Placement]: any
      arrangement of the members.
    - A handler is a function of the service it calls; what it writes is
      the status and the value handed to the encoder. *)

From Stdlib Require Import ZArith List String Ascii Bool Lia Permutation Sorted.
From Stdlib Require Import Floats.SpecFloat.
From Stdlib Require Import Reals Lra.
From stdpp Require Import gmap strings list fin_maps.

Local Open Scope string_scope.
Local Open Scope list_scope.
Local Open Scope Z_scope.

(* ===================================================================== *)
(** ** float64 *)
(* ===================================================================== *)

Module F64.

Definition prec : Z := 53.
Definition emax : Z := 1024.

Definition float64 : Type := spec_float.

Definition add : float64 -> float64 -> float64 := SFadd prec emax.
Definition sub : float64 -> float64 -> float64 := SFsub prec emax.
Definition mul : float64 -> float64 -> float64 := SFmul prec emax.
Definition div : float64 -> float64 -> float64 := SFdiv prec emax.
Definition sqrt : float64 -> float64 := SFsqrt prec emax.
Definition neg : float64 -> float64 := SFopp.

(** Go's [<], [<=], [>], [>=] and [==] on float64: all false on NaN. *)
Definition ltb (x y : float64) : bool := SFltb x y.
Definition leb (x y : float64) : bool := SFleb x y.
Definition gtb (x y : float64) : bool := ltb y x.
Definition geb (x y : float64) : bool := leb y x.
Definition eqb (x y : float64) : bool := SFeqb x y.

Definition is_nan (x : float64) : bool :=
  match x with S754_nan => true | _ => false end.

(** The integer [z], exactly (no rounding: the mantissa may exceed 53 bits). *)
Definition exact (z : Z) : float64 :=
  match z with
  | Z0 => S754_zero false
  | Zpos p => S754_finite false p 0
  | Zneg p => S754_finite true p 0
  end.

(** [float64(z)] for an integer [z]: rounded to nearest even. *)
Definition of_int (z : Z) : float64 := binary_normalize prec emax z 0 false.

(** The decimal literal [n * 10^(-k)], rounded to nearest even, as the Go
    compiler does for a constant and [strconv.ParseFloat] for a decimal
    text. *)
Definition dec (n : Z) (k : nat) : float64 :=
  SFdiv prec emax (exact n) (exact (10 ^ Z.of_nat k)).

(** Go's [int(f)]: truncation toward zero.  Outside the range of int64 (and
    on NaN) the conversion is implementation-specific; amd64 yields the
    smallest int64. *)
Definition min_int64 : Z := - 2 ^ 63.
Definition max_int64 : Z := 2 ^ 63 - 1.

Definition to_int (x : float64) : Z :=
  match x with
  | S754_zero _ => 0
  | S754_finite s m e =>
      let a := match e with
               | Z0 => Zpos m
               | Zpos _ => Z.shiftl (Zpos m) e
               | Zneg _ => Z.shiftr (Zpos m) (- e)
               end in
      let v := if s then - a else a in
      if (min_int64 <=? v) && (v <=? max_int64) then v else min_int64
  | _ => min_int64
  end.

(** A total key for the values other than NaN: [SFcompare] orders them by
    this key, lexicographically. *)
Definition key (x : float64) : Z * (Z * Z) :=
  match x with
  | S754_nan => (0, (0, 0))
  | S754_infinity true => (-2, (0, 0))
  | S754_finite true m e => (-1, (- e, - Zpos m))
  | S754_zero _ => (0, (0, 0))
  | S754_finite false m e => (1, (e, Zpos m))
  | S754_infinity false => (2, (0, 0))
  end.

Definition key_lt (a b : Z * (Z * Z)) : Prop :=
  fst a < fst b \/
  (fst a = fst b /\
   (fst (snd a) < fst (snd b) \/
    (fst (snd a) = fst (snd b) /\ snd (snd a) < snd (snd b)))).

End F64.

Abbreviation float64 := F64.float64.

Arguments F64.ltb : simpl never.
Arguments F64.leb : simpl never.
Arguments F64.gtb : simpl never.
Arguments F64.geb : simpl never.
Arguments F64.dec : simpl never.
Arguments F64.of_int : simpl never.

(* ===================================================================== *)
(** ** Package strings (the functions the service calls) *)
(* ===================================================================== *)

Module Strings.

(** [strings.ToLower] on ASCII text: the letters A-Z are mapped, every other
    byte is kept. *)
Definition lower (c : ascii) : ascii :=
  let n := nat_of_ascii c in
  if ((65 <=? n) && (n <=? 90))%nat then ascii_of_nat (n + 32) else c.

Fixpoint ToLower (s : string) : string :=
  match s with
  | EmptyString => EmptyString
  | String c s' => String (lower c) (ToLower s')
  end.

Fixpoint HasPrefix (s pre : string) : bool :=
  match pre, s with
  | EmptyString, _ => true
  | String _ _, EmptyString => false
  | String a pre', String b s' => if Ascii.eqb a b then HasPrefix s' pre' else false
  end.

(** [strings.Contains s substr]. *)
Fixpoint Contains (s substr : string) : bool :=
  if HasPrefix s substr then true
  else match s with
       | EmptyString => false
       | String _ s' => Contains s' substr
       end.

End Strings.

(* ===================================================================== *)
(** ** Package sort, and the other library routines the service calls *)
(* ===================================================================== *)

(** Routines of the Go runtime and library whose code is not part of the
    repository and whose results the service only passes on. *)
Class GoLibrary := {
  (** [xorshift.Next]: the next state of the generator of [breakPatterns_func],
      which is also the number drawn *)
  xorshift_Next : Z -> Z;
  (** [t.Format(time.RFC3339)] *)
  time_Format_RFC3339 : Z -> string;
  (** [math.Sin], [math.Cos], [math.Atan2] *)
  math_Sin : float64 -> float64;
  math_Cos : float64 -> float64;
  math_Atan2 : float64 -> float64 -> float64;
  (** the number a reader gets back from the text [fmt.Sprintf("%f", x)] *)
  fmt_f_value : float64 -> float64
}.

(** [sort.Slice] of Go 1.22 (zsortfunc.go): pattern-defeating quicksort.
    The slice is a list, changed by [Swap] only; positions are [nat]. *)
Module sort.

Local Open Scope nat_scope.

Section Sorting.
Context `{GoLibrary} {A : Type}.
Variable less : A -> A -> bool.

(** [data.Less(i, j)] and [data.Swap(i, j)] on the slice [data]. *)
Definition Less (data : list A) (i j : nat) : bool :=
  match data !! i, data !! j with
  | Some x, Some y => less x y
  | _, _ => false
  end.

Definition Swap (data : list A) (i j : nat) : list A :=
  match data !! i, data !! j with
  | Some x, Some y => <[j := x]> (<[i := y]> data)
  | _, _ => data
  end.

(** [insertionSort_func]: sorts data[a:b]. *)
Fixpoint insertion_shift (fuel : nat) (data : list A) (a j : nat) : list A :=
  match fuel with
  | O => data
  | S fuel =>
      if (a <? j)%nat && Less data j (j - 1)
      then insertion_shift fuel (Swap data j (j - 1)) a (j - 1)
      else data
  end.

Definition insertionSort_func (data : list A) (a b : nat) : list A :=
  fold_left (fun data i => insertion_shift (i - a) data a i) (seq (a + 1) (b - (a + 1))) data.

(** [siftDown_func] *)
Fixpoint siftDown_loop (fuel : nat) (data : list A) (root hi first : nat) : list A :=
  match fuel with
  | O => data
  | S fuel =>
      let child := (2 * root + 1)%nat in
      if (hi <=? child)%nat then data
      else
        let child := if ((child + 1 <? hi)%nat && Less data (first + child) (first + child + 1))
                     then (child + 1)%nat else child in
        if negb (Less data (first + root) (first + child)) then data
        else siftDown_loop fuel (Swap data (first + root) (first + child)) child hi first
  end.

Definition siftDown_func (data : list A) (lo hi first : nat) : list A :=
  siftDown_loop hi data lo hi first.

(** [heapSort_func] *)
Definition heapSort_func (data : list A) (a b : nat) : list A :=
  let first := a in
  let lo := 0%nat in
  let hi := (b - a)%nat in
  let data := fold_left (fun data i => siftDown_func data i hi first)
                        (rev (seq 0 ((hi - 1) / 2 + 1))) data in
  fold_left (fun data i => siftDown_func (Swap data first (first + i)) lo i first)
            (rev (seq 0 hi)) data.

(** The two scans of a partition: [i] moves up while [stay_i], [j] moves
    down while [stay_j]. *)
Fixpoint scan_up (fuel : nat) (stay : nat -> bool) (i j : nat) : nat :=
  match fuel with
  | O => i
  | S fuel => if (i <=? j)%nat && stay i then scan_up fuel stay (i + 1) j else i
  end.

Fixpoint scan_down (fuel : nat) (stay : nat -> bool) (i j : nat) : nat :=
  match fuel with
  | O => j
  | S fuel => if (i <=? j)%nat && stay j then scan_down fuel stay i (j - 1) else j
  end.

(** [partition_func] *)
Fixpoint partition_loop (fuel : nat) (data : list A) (a i j : nat) : list A * nat :=
  match fuel with
  | O => (data, j)
  | S fuel =>
      let i := scan_up (length data) (fun i => Less data i a) i j in
      let j := scan_down (length data) (fun j => negb (Less data j a)) i j in
      if (j <? i)%nat then (data, j)
      else partition_loop fuel (Swap data i j) a (i + 1) (j - 1)
  end.

Definition partition_func (data : list A) (a b pivot : nat) : list A * nat * bool :=
  let data := Swap data a pivot in
  let i := (a + 1)%nat in
  let j := (b - 1)%nat in
  let i := scan_up (length data) (fun i => Less data i a) i j in
  let j := scan_down (length data) (fun j => negb (Less data j a)) i j in
  if (j <? i)%nat then (Swap data j a, j, true)
  else
    let '(data, j) := partition_loop (length data) (Swap data i j) a (i + 1) (j - 1) in
    (Swap data j a, j, false).

(** [partitionEqual_func] *)
Fixpoint partitionEqual_loop (fuel : nat) (data : list A) (a i j : nat) : list A * nat :=
  match fuel with
  | O => (data, i)
  | S fuel =>
      let i := scan_up (length data) (fun i => negb (Less data a i)) i j in
      let j := scan_down (length data) (fun j => Less data a j) i j in
      if (j <? i)%nat then (data, i)
      else partitionEqual_loop fuel (Swap data i j) a (i + 1) (j - 1)
  end.

Definition partitionEqual_func (data : list A) (a b pivot : nat) : list A * nat :=
  partitionEqual_loop (length data) (Swap data a pivot) a (a + 1) (b - 1).

(** [partialInsertionSort_func] *)
Definition maxSteps : nat := 5.
Definition shortestShifting : nat := 50.

Fixpoint shift_left (fuel : nat) (data : list A) (j : nat) : list A :=
  match fuel with
  | O => data
  | S fuel =>
      if (1 <=? j)%nat then
        if negb (Less data j (j - 1)) then data
        else shift_left fuel (Swap data j (j - 1)) (j - 1)
      else data
  end.

Fixpoint shift_right (fuel : nat) (data : list A) (j b : nat) : list A :=
  match fuel with
  | O => data
  | S fuel =>
      if (j <? b)%nat then
        if negb (Less data j (j - 1)) then data
        else shift_right fuel (Swap data j (j - 1)) (j + 1) b
      else data
  end.

Fixpoint partialInsertionSort_loop (steps : nat) (data : list A) (a b i : nat) : list A * bool :=
  match steps with
  | O => (data, false)
  | S steps =>
      let i := scan_up (length data) (fun i => negb (Less data i (i - 1))) i (b - 1) in
      if (i =? b)%nat then (data, true)
      else if (b - a <? shortestShifting)%nat then (data, false)
      else
        let data := Swap data i (i - 1) in
        let data := if (2 <=? i - a)%nat then shift_left (length data) data (i - 1) else data in
        let data := if (2 <=? b - i)%nat then shift_right (length data) data (i + 1) b else data in
        partialInsertionSort_loop steps data a b i
  end.

Definition partialInsertionSort_func (data : list A) (a b : nat) : list A * bool :=
  partialInsertionSort_loop maxSteps data a b (a + 1).

(** [breakPatterns_func] *)
Definition bits_Len (n : nat) : nat :=
  match n with
  | O => O
  | _ => S (Nat.log2 n)
  end.

Definition nextPowerOfTwo (length : nat) : Z := 2 ^ Z.of_nat (bits_Len length).

Fixpoint breakPatterns_loop (steps : nat) (data : list A) (a length idx i : nat) (random : Z)
  (modulus : Z) : list A :=
  match steps with
  | O => data
  | S steps =>
      let random := xorshift_Next random in
      let other := Z.to_nat (Z.land random (modulus - 1)) in
      let other := if (length <=? other)%nat then (other - length)%nat else other in
      breakPatterns_loop steps (Swap data (idx - 1 + i) (a + other)) a length idx (i + 1)
                         random modulus
  end.

Definition breakPatterns_func (data : list A) (a b : nat) : list A :=
  let length := (b - a)%nat in
  if (8 <=? length)%nat then
    breakPatterns_loop 3 data a length (a + (length / 4) * 2 - 1) 0 (Z.of_nat length)
                       (nextPowerOfTwo length)
  else data.

(** [choosePivot_func] *)
Inductive sortedHint := unknownHint | increasingHint | decreasingHint.

Definition order2_func (data : list A) (a b swaps : nat) : nat * nat * nat :=
  if Less data b a then (b, a, S swaps) else (a, b, swaps).

Definition median_func (data : list A) (a b c swaps : nat) : nat * nat :=
  let '(a, b, swaps) := order2_func data a b swaps in
  let '(b, c, swaps) := order2_func data b c swaps in
  let '(a, b, swaps) := order2_func data a b swaps in
  (b, swaps).

Definition medianAdjacent_func (data : list A) (a swaps : nat) : nat * nat :=
  median_func data (a - 1) a (a + 1) swaps.

Definition shortestNinther : nat := 50.
Definition maxSwaps : nat := 4 * 3.

Definition choosePivot_func (data : list A) (a b : nat) : nat * sortedHint :=
  let l := (b - a)%nat in
  let swaps := 0%nat in
  let i := (a + l / 4 * 1)%nat in
  let j := (a + l / 4 * 2)%nat in
  let k := (a + l / 4 * 3)%nat in
  let '(j, swaps) :=
    if (8 <=? l)%nat then
      let '(i, j, k, swaps) :=
        if (shortestNinther <=? l)%nat then
          let '(i, swaps) := medianAdjacent_func data i swaps in
          let '(j, swaps) := medianAdjacent_func data j swaps in
          let '(k, swaps) := medianAdjacent_func data k swaps in
          (i, j, k, swaps)
        else (i, j, k, swaps) in
      median_func data i j k swaps
    else (j, swaps) in
  if (swaps =? 0)%nat then (j, increasingHint)
  else if (swaps =? maxSwaps)%nat then (j, decreasingHint)
  else (j, unknownHint).

(** [reverseRange_func] *)
Fixpoint reverseRange_loop (fuel : nat) (data : list A) (i j : nat) : list A :=
  match fuel with
  | O => data
  | S fuel => if (i <? j)%nat then reverseRange_loop fuel (Swap data i j) (i + 1) (j - 1) else data
  end.

Definition reverseRange_func (data : list A) (a b : nat) : list A :=
  reverseRange_loop (length data) data a (b - 1).

Definition maxInsertion : nat := 12.

(** [pdqsort_func]: sorts data[a:b].  Every turn of its loop and every
    call of itself is on a shorter range, so that [fuel] above the length of
    the range is never used up. *)
Fixpoint pdqsort_func (fuel : nat) (data : list A) (a b limit : nat)
  (wasBalanced wasPartitioned : bool) : list A :=
  match fuel with
  | O => data
  | S fuel =>
      let length := (b - a)%nat in
      if (length <=? maxInsertion)%nat then insertionSort_func data a b
      else if (limit =? 0)%nat then heapSort_func data a b
      else
        let '(data, limit) :=
          if negb wasBalanced then (breakPatterns_func data a b, (limit - 1)%nat)
          else (data, limit) in
        let '(pivot, hint) := choosePivot_func data a b in
        let '(data, pivot, hint) :=
          match hint with
          | decreasingHint => (reverseRange_func data a b, ((b - 1) - (pivot - a))%nat, increasingHint)
          | _ => (data, pivot, hint)
          end in
        let '(data, sorted) :=
          match hint with
          | increasingHint =>
              if wasBalanced && wasPartitioned then partialInsertionSort_func data a b
              else (data, false)
          | _ => (data, false)
          end in
        if sorted then data
        else if (0 <? a)%nat && negb (Less data (a - 1) pivot) then
          let '(data, mid) := partitionEqual_func data a b pivot in
          pdqsort_func fuel data mid b limit wasBalanced wasPartitioned
        else
          let '(data, mid, alreadyPartitioned) := partition_func data a b pivot in
          let leftLen := (mid - a)%nat in
          let rightLen := (b - mid)%nat in
          let balanceThreshold := (length / 8)%nat in
          if (leftLen <? rightLen)%nat then
            let data := pdqsort_func fuel data a mid limit true true in
            pdqsort_func fuel data (mid + 1) b limit (balanceThreshold <=? leftLen)%nat
                         alreadyPartitioned
          else
            let data := pdqsort_func fuel data (mid + 1) b limit true true in
            pdqsort_func fuel data a mid limit (balanceThreshold <=? rightLen)%nat
                         alreadyPartitioned
  end.

(** [sort.Slice(x, less)] *)
Definition Slice (x : list A) : list A :=
  let length := length x in
  pdqsort_func (S length) x 0 length (bits_Len length) true true.

End Sorting.

(** Insertion into a list: [rp] is sorted, nearest neighbour first, and [x]
    moves left while it is [less] than its neighbour.  This is what
    [insertionSort_func] does to a whole slice (shown with the properties),
    and the order a sorted set is kept in. *)
Fixpoint insert_left {A} (less : A -> A -> bool) (x : A) (rp : list A) : list A :=
  match rp with
  | [] => [x]
  | y :: rp' => if less x y then y :: insert_left less x rp' else x :: rp
  end.

Definition insertion {A} (less : A -> A -> bool) (data : list A) : list A :=
  rev (fold_left (fun rp x => insert_left less x rp) data []).

End sort.

(** [error]: the message.  A call returns a value or an error. *)
Abbreviation error := string.

Inductive result (A : Type) : Type :=
| Ok (a : A)
| Err (e : error).
Arguments Ok {A} a.
Arguments Err {A} e.

(* ===================================================================== *)
(** ** Package llm *)
(* ===================================================================== *)

Module llm.

Record Intent := {
  Type_ : string;
  Confidence : float64
}.

Record Entities_ := {
  People : list string;
  Organizations : list string;
  Locations : list string
}.

Record Extraction := {
  Entities : Entities_;
  Concepts : list string;
  Intent_ : list Intent;
  RadiusKm : option float64;
  SourceNames : list string;
  Categories : list string
}.

(** The interface [LLMClient]. *)
Class LLMClient := {
  Extract : string -> result Extraction;
  Summarize : string -> string -> string -> string -> string * option error
}.


(** *** openai.go: the classifier and summarizer in use, both keyword based *)

Definition contains_any (queryLower : string) (words : list string) : bool :=
  existsb (fun w => Strings.Contains queryLower w) words.

(** The names appended for the groups of keywords found, in the order of
    the [if] statements. *)
Definition detected (queryLower : string) (rules : list (list string * string)) : list string :=
  map snd (List.filter (fun rule => contains_any queryLower (fst rule)) rules).

Definition score_words : list string :=
  ["score"; "relevance"; "above"; "threshold"; "high quality"; "best"].

Definition category_rules : list (list string * string) :=
  [ (["technology"; "tech"], "Technology");
    (["business"; "finance"], "Business");
    (["sports"], "Sports");
    (["health"; "medical"], "Health");
    (["science"], "Science");
    (["environment"; "climate"], "Environment");
    (["entertainment"; "movie"; "gaming"], "Entertainment");
    (["politics"; "government"], "Politics") ].

Definition source_rules : list (list string * string) :=
  [ (["new york times"; "nyt"], "New York Times");
    (["reuters"], "Reuters");
    (["bbc"], "BBC");
    (["cnn"], "CNN");
    (["dw"], "DW");
    (["technews"], "TechNews");
    (["spacenews"], "SpaceNews");
    (["financedaily"], "FinanceDaily");
    (["healthscience"], "HealthScience");
    (["globalnews"], "GlobalNews") ].

Definition location_rules : list (list string * string) :=
  [ (["paris"], "Paris"); (["new york"; "nyc"], "New York"); (["london"], "London") ].

Definition near_words : list string := ["near"; "nearby"; "local"; "location"].

Definition people_rules : list (list string * string) :=
  [ (["elon musk"], "Elon Musk"); (["john smith"], "John Smith") ].

Definition organization_rules : list (list string * string) :=
  [ (["spacex"], "SpaceX"); (["tesla"], "Tesla") ].

Definition concept_rules : list (list string * string) :=
  [ (["ai"; "artificial intelligence"], "Artificial Intelligence");
    (["climate change"], "Climate Change");
    (["stock market"], "Stock Market") ].

Definition intents_of (type : string) (confidence : float64) (found : list string) : list Intent :=
  map (fun _ => {| Type_ := type; Confidence := confidence |}) found.

(** [OpenAIClient.Extract] *)
Definition OpenAIClient_Extract (query : string) : result Extraction :=
  let queryLower := Strings.ToLower query in
  let categories := detected queryLower category_rules in
  let sourceNames := detected queryLower source_rules in
  let locations := detected queryLower location_rules in
  let intent :=
    (if contains_any queryLower score_words
     then [ {| Type_ := "score"; Confidence := F64.dec 9 1 |} ] else []) ++
    intents_of "category" (F64.dec 9 1) categories ++
    intents_of "source" (F64.dec 9 1) sourceNames ++
    intents_of "nearby" (F64.dec 8 1) locations ++
    (if contains_any queryLower near_words
     then [ {| Type_ := "nearby"; Confidence := F64.dec 7 1 |} ] else []) in
  let intent :=
    match intent with
    | [] => [ {| Type_ := "search"; Confidence := F64.dec 7 1 |} ]
    | _ => intent
    end in
  Ok {| Entities := {| People := detected queryLower people_rules;
                       Organizations := detected queryLower organization_rules;
                       Locations := locations |};
        Concepts := detected queryLower concept_rules;
        Intent_ := intent;
        RadiusKm := None;
        SourceNames := sourceNames;
        Categories := categories |}.

(** [OpenAIClient.Summarize] *)
Definition OpenAIClient_Summarize (title description sourceName publicationDate : string)
  : string * option error :=
  ("This article discusses " ++ title ++ ", published by " ++ sourceName ++ " on " ++
   publicationDate ++ ". " ++ description, None)%string.

#[export] Instance OpenAIClient : LLMClient := {
  Extract := OpenAIClient_Extract;
  Summarize := OpenAIClient_Summarize
}.

End llm.

(* ===================================================================== *)
(** ** Package cache: keys.go and redis.go *)
(* ===================================================================== *)

Module cache.

(** [strconv.Itoa], as [fmt.Sprintf("%d", n)] prints an int. *)
Definition digit (d : Z) : ascii := ascii_of_nat (48 + Z.to_nat d).

Fixpoint utoa (fuel : nat) (n : Z) (acc : string) : string :=
  match fuel with
  | O => acc
  | S fuel' =>
      let acc' := String (digit (n mod 10)) acc in
      if n <? 10 then acc' else utoa fuel' (n / 10) acc'
  end.

Definition itoa (n : Z) : string :=
  if n <? 0 then "-" ++ utoa (Z.to_nat (Z.log2 (- n)) + 1) (- n) ""
  else utoa (Z.to_nat (Z.log2 n) + 1) n "".

(** TTL classes of keys.go, in nanoseconds as [time.Duration] counts. *)
Definition Second : Z := 1000000000.
Definition Minute : Z := 60 * Second.
Definition Hour : Z := 60 * Minute.
Definition ArticleTTL : Z := 6 * Hour.
Definition SummaryTTL : Z := 7 * 24 * Hour.
Definition SearchTTL : Z := 90 * Second.
Definition CategoryTTL : Z := 2 * Hour.
Definition SourceTTL : Z := 2 * Hour.
Definition ScoreTTL : Z := 2 * Hour.
Definition NearbyTTL : Z := 5 * Minute.
Definition TrendingTTL : Z := 2 * Minute.
Definition GeohashTTL : Z := 1 * Hour.
Definition UserEventTTL : Z := 24 * Hour.

(** [TrendingKey]: "trending:geohash:%s:limit:%d". *)
Definition TrendingKey (geohash : string) (limit : Z) : string :=
  "trending:geohash:" ++ geohash ++ ":limit:" ++ itoa limit.

(** [GenerateGeohash].  [None] is the run-time panic of an index out of
    range, which a negative [combined] causes. *)
Definition base32 : string := "0123456789bcdefghjkmnpqrstuvwxyz".

Definition wrap64 (z : Z) : Z := (z + 2 ^ 63) mod 2 ^ 64 - 2 ^ 63.

Fixpoint geohash_loop (precision : nat) (combined : Z) (geohash : string) : option string :=
  match precision with
  | O => Some geohash
  | S p =>
      let i := Z.rem combined 32 in
      if i <? 0 then None
      else match String.get (Z.to_nat i) base32 with
           | Some c => geohash_loop p (Z.quot combined 32) (geohash ++ String c EmptyString)
           | None => None
           end
  end.

Definition GenerateGeohash (lat lon : float64) (precision : Z) : option string :=
  let latHash := Z.rem (F64.to_int (F64.mul (F64.add lat (F64.dec 900 1)) (F64.of_int 1000000))) 1000000 in
  let lonHash := Z.rem (F64.to_int (F64.mul (F64.add lon (F64.dec 1800 1)) (F64.of_int 1000000))) 1000000 in
  let combined := wrap64 (wrap64 (latHash * 1000000) + lonHash) in
  geohash_loop (Z.to_nat precision) combined "".

(** *** The server behind [RedisCache]

    A key holds a string (a document), a set or a sorted set, with the TTL
    last given to it.  The model is generic in the documents and in the
    carrier of sorted-set scores.  Commands reach the server and are
    answered: no transport failure is modelled. *)
Section Server.
Context {score doc : Type}.
Variable score_ltb : score -> score -> bool.

Inductive value :=
| VString (d : doc)
| VSet (members : list string)
| VZSet (z : list (string * score)).

Record entry := { val : value; ttl : option Z }.

Definition ErrKeyNotFound : error := "key not found".
Definition WRONGTYPE : error :=
  "WRONGTYPE Operation against a key holding the wrong kind of value".

(** [RedisCache.Get] *)
Definition Get (s : gmap string entry) (key : string) : result doc :=
  match s !! key with
  | None => Err ErrKeyNotFound
  | Some {| val := VString d |} => Ok d
  | Some _ => Err ("failed to get key " ++ key ++ ": " ++ WRONGTYPE)
  end.

(** [RedisCache.Set] *)
Definition Set_ (s : gmap string entry) (key : string) (d : doc) (t : Z) : gmap string entry :=
  <[key := {| val := VString d; ttl := Some t |}]> s.

(** [RedisCache.SetNX]: stores and answers [true] only when the key is free. *)
Definition SetNX (s : gmap string entry) (key : string) (d : doc) (t : Z) : gmap string entry * bool :=
  match s !! key with
  | None => (<[key := {| val := VString d; ttl := Some t |}]> s, true)
  | Some _ => (s, false)
  end.

(** [RedisCache.Del] *)
Definition Del (s : gmap string entry) (key : string) : gmap string entry := delete key s.

(** [RedisCache.Expire] *)
Definition Expire (s : gmap string entry) (key : string) (t : Z) : gmap string entry :=
  match s !! key with
  | Some e => <[key := {| val := val e; ttl := Some t |}]> s
  | None => s
  end.

Fixpoint zset_put (z : list (string * score)) (member : string) (sc : score) : list (string * score) :=
  match z with
  | [] => [(member, sc)]
  | (m, x) :: z' => if String.eqb m member then (m, sc) :: z' else (m, x) :: zset_put z' member sc
  end.

(** [RedisCache.ZAdd] with one member; the error of a key of another kind
    leaves the store as it is. *)
Definition ZAdd (s : gmap string entry) (key member : string) (sc : score) : gmap string entry :=
  match s !! key with
  | None => <[key := {| val := VZSet [(member, sc)]; ttl := None |}]> s
  | Some {| val := VZSet z; ttl := t |} => <[key := {| val := VZSet (zset_put z member sc); ttl := t |}]> s
  | Some _ => s
  end.

(** [RedisCache.SMembers] *)
Definition SMembers (s : gmap string entry) (key : string) : result (list string) :=
  match s !! key with
  | None => Ok []
  | Some {| val := VSet members |} => Ok members
  | Some _ => Err WRONGTYPE
  end.

(** The order of a sorted set: by score, then by member. *)
Definition zless (a b : string * score) : bool :=
  score_ltb (snd a) (snd b) ||
  (negb (score_ltb (snd b) (snd a)) && String.ltb (fst a) (fst b)).

Definition zrange (z : list (string * score)) : list (string * score) :=
  sort.insertion zless z.

(** Index ranges of ZRANGE and ZREVRANGE: negative indices count from the
    end, the stop index is included. *)
Definition index_range {A} (l : list A) (start stop : Z) : list A :=
  let len := Z.of_nat (length l) in
  let start := if start <? 0 then Z.max 0 (len + start) else start in
  let stop := if stop <? 0 then len + stop else stop in
  let stop := Z.min stop (len - 1) in
  if (stop <? start) || (len <=? start) then []
  else firstn (Z.to_nat (stop - start + 1)) (skipn (Z.to_nat start) l).

(** [RedisCache.ZRevRangeWithScores] *)
Definition ZRevRangeWithScores (s : gmap string entry) (key : string) (start stop : Z)
  : result (list (string * score)) :=
  match s !! key with
  | None => Ok []
  | Some {| val := VZSet z |} => Ok (index_range (rev (zrange z)) start stop)
  | Some _ => Err WRONGTYPE
  end.

(** [RedisCache.ZRangeByScore] with the bounds as the server reads them.
    The client sends "limit 0 count" unless [count] is 0; the server takes
    a negative count as no limit. *)
Definition ZRangeByScore (s : gmap string entry) (key : string) (min max : score) (count : Z)
  : result (list string) :=
  match s !! key with
  | None => Ok []
  | Some {| val := VZSet z |} =>
      let within := filter (fun p => negb (score_ltb (snd p) min) && negb (score_ltb max (snd p))) (zrange z) in
      let ids := map fst within in
      Ok (if count <=? 0 then ids else firstn (Z.to_nat count) ids)
  | Some _ => Err WRONGTYPE
  end.

End Server.

(** *** [GetOrSet] under concurrent callers

    Each caller runs [GetOrSet] for the same [key]; the commands of all
    callers reach the one server in some interleaving.  A caller is at one
    of the program points below and [next] runs it up to and including its
    next command (or its call of the producer [fn]).  The lock's TTL of 10
    seconds does not run out in the executions modelled, and [time.Sleep]
    only yields to the other callers. *)
Inductive pc :=
| Start                          (* before the first [c.Get] *)
| Acquire                        (* before [c.SetNX] on the lock key *)
| Poll (i : nat)                 (* in the wait loop, [i] polls done *)
| Produce                        (* lock acquired, before [fn()] *)
| Store (value : string)         (* [fn] returned [value], before [c.Set] *)
| Release (r : result string)    (* before the deferred [c.Del] *)
| Done (r : result string).      (* returned [r] *)

Record system {score : Type} := {
  store : gmap string (@entry score string);
  callers : list pc;
  (** how many times [fn] has been called, and what it returned *)
  runs : nat;
  produced : list string
}.
Arguments system : clear implicits.

Section GetOrSet.
Context {score : Type}.
Variable key : string.
Variable ttl_ : Z.

Definition lockKey : string := "lock:" ++ key.

Definition timeout : error := "timeout waiting for cache update".

Definition at_ (st : system score) (i : nat) (p : pc) : system score :=
  {| store := store st; callers := <[i := p]> (callers st);
     runs := runs st; produced := produced st |}.

(** The step of caller [i].  [fn_result] is what the producer returns if
    this step is its call. *)
Definition next (fn_result : result string) (st : system score) (i : nat) : system score :=
  match callers st !! i with
  | Some Start =>
      match Get (store st) key with
      | Ok data => at_ st i (Done (Ok data))
      | Err _ => at_ st i Acquire
      end
  | Some Acquire =>
      let '(s, acquired) := SetNX (store st) lockKey "1" (10 * Second) in
      {| store := s; callers := <[i := if acquired then Produce else Poll 0]> (callers st);
         runs := runs st; produced := produced st |}
  | Some (Poll n) =>
      if (n <? 50)%nat then
        match Get (store st) key with
        | Ok data => at_ st i (Done (Ok data))
        | Err _ => at_ st i (Poll (S n))
        end
      else at_ st i (Done (Err timeout))
  | Some Produce =>
      match fn_result with
      | Ok value =>
          {| store := store st; callers := <[i := Store value]> (callers st);
             runs := S (runs st); produced := value :: produced st |}
      | Err e =>
          {| store := store st;
             callers := <[i := Release (Err ("failed to generate value: " ++ e))]> (callers st);
             runs := S (runs st); produced := produced st |}
      end
  | Some (Store value) =>
      {| store := Set_ (store st) key value ttl_;
         callers := <[i := Release (Ok value)]> (callers st);
         runs := runs st; produced := produced st |}
  | Some (Release r) =>
      {| store := Del (store st) lockKey; callers := <[i := Done r]> (callers st);
         runs := runs st; produced := produced st |}
  | Some (Done _) => st
  | None => st
  end.

(** An interleaving: which caller moves, and what [fn] returns if called. *)
Definition run (schedule : list (nat * result string)) (st : system score) : system score :=
  fold_left (fun st step => next (snd step) st (fst step)) schedule st.

(** [n] callers start on a store that holds neither the key nor its lock. *)
Definition initial (s : gmap string (@entry score string)) (n : nat) : system score :=
  {| store := s; callers := replicate n Start; runs := 0; produced := [] |}.

Definition holds_lock (p : pc) : bool :=
  match p with
  | Produce | Store _ | Release _ => true
  | _ => false
  end.

(** The callers between the acquisition of the lock and its release. *)
Definition holders (l : list pc) : nat := length (List.filter holds_lock l).

End GetOrSet.

(** *** keys.go: the other keys, [GetTTL] and [ParseGeohash] *)

Definition ArticleKey (id : string) : string := "news:article:" ++ id.
Definition SummaryKey (id : string) : string := "news:summary:" ++ id.
Definition GeohashKey (geohash : string) : string := "geo:hash:" ++ geohash.
Definition UserEventKey (articleID : string) : string := "events:article:" ++ articleID.
Definition RateLimitKey (clientIP : string) : string := "ratelimit:ip:" ++ clientIP.

(** [GetTTL]: the first case whose text the key contains. *)
Definition GetTTL (key : string) : Z :=
  if Strings.Contains key "news:article:" then ArticleTTL
  else if Strings.Contains key "news:summary:" then SummaryTTL
  else if Strings.Contains key "cache:v1:search:" then SearchTTL
  else if Strings.Contains key "cache:v1:category:" then CategoryTTL
  else if Strings.Contains key "cache:v1:source:" then SourceTTL
  else if Strings.Contains key "cache:v1:score:" then ScoreTTL
  else if Strings.Contains key "cache:v1:nearby:" then NearbyTTL
  else if Strings.Contains key "trending:geohash:" then TrendingTTL
  else if Strings.Contains key "geo:hash:" then GeohashTTL
  else if Strings.Contains key "events:article:" then UserEventTTL
  else 5 * Minute.

(** [for i, char := range s]: the runes of [s] as UTF-8 decodes them, each
    with the index of its first byte.  A byte that starts no well-formed
    sequence is the rune U+FFFD of width 1. *)
Definition byte (c : ascii) : Z := Z.of_nat (nat_of_ascii c).

Definition RuneError : Z := 65533.

(** The width that the first byte announces, and the range its second
    byte must lie in. *)
Definition first (b0 : Z) : Z * Z * Z :=
  if (194 <=? b0) && (b0 <=? 223) then (2, 128, 191)
  else if b0 =? 224 then (3, 160, 191)
  else if b0 =? 237 then (3, 128, 159)
  else if (225 <=? b0) && (b0 <=? 239) then (3, 128, 191)
  else if b0 =? 240 then (4, 144, 191)
  else if (241 <=? b0) && (b0 <=? 243) then (4, 128, 191)
  else if b0 =? 244 then (4, 128, 143)
  else (1, 0, 0).

Definition continuation (b : Z) : bool := (128 <=? b) && (b <=? 191).

Definition decoderune (s : string) : Z * Z :=
  match s with
  | EmptyString => (RuneError, 1)
  | String c0 s1 =>
      let b0 := byte c0 in
      if b0 <? 128 then (b0, 1)
      else
        let '(size, lo, hi) := first b0 in
        if size =? 1 then (RuneError, 1)
        else
          match s1 with
          | EmptyString => (RuneError, 1)
          | String c1 s2 =>
              let b1 := byte c1 in
              if (b1 <? lo) || (hi <? b1) then (RuneError, 1)
              else if size =? 2 then (Z.lor (Z.shiftl (Z.land b0 31) 6) (Z.land b1 63), 2)
              else
                match s2 with
                | EmptyString => (RuneError, 1)
                | String c2 s3 =>
                    let b2 := byte c2 in
                    if negb (continuation b2) then (RuneError, 1)
                    else if size =? 3 then
                      (Z.lor (Z.lor (Z.shiftl (Z.land b0 15) 12) (Z.shiftl (Z.land b1 63) 6))
                             (Z.land b2 63), 3)
                    else
                      match s3 with
                      | EmptyString => (RuneError, 1)
                      | String c3 _ =>
                          let b3 := byte c3 in
                          if negb (continuation b3) then (RuneError, 1)
                          else (Z.lor (Z.lor (Z.lor (Z.shiftl (Z.land b0 7) 18)
                                                    (Z.shiftl (Z.land b1 63) 12))
                                             (Z.shiftl (Z.land b2 63) 6))
                                      (Z.land b3 63), 4)
                      end
                end
          end
  end.

Fixpoint skip (n : nat) (s : string) : string :=
  match n, s with
  | S n', String _ s' => skip n' s'
  | _, _ => s
  end.

(** The loop of [ParseGeohash]: [hash += int(char) * (i + 1)]. *)
Fixpoint hash_loop (fuel : nat) (i : Z) (s : string) (hash : Z) : Z :=
  match fuel with
  | O => hash
  | S fuel' =>
      match s with
      | EmptyString => hash
      | _ =>
          let '(char, size) := decoderune s in
          hash_loop fuel' (i + size) (skip (Z.to_nat size) s)
                    (wrap64 (hash + wrap64 (char * (i + 1))))
      end
  end.

(** [ParseGeohash] *)
Definition ParseGeohash (geohash : string) : result (float64 * float64) :=
  if (String.length geohash =? 0)%nat then Err "empty geohash"
  else
    let hash := hash_loop (String.length geohash) 0 geohash 0 in
    let lat := F64.div (F64.of_int (Z.rem hash 180000 - 90000)) (F64.of_int 1000) in
    let lon := F64.div (F64.of_int (Z.rem hash 360000 - 180000)) (F64.of_int 1000) in
    Ok (lat, lon).

(** [GeohashBoundingBox]: minLat, minLon, maxLat, maxLon. *)
Definition GeohashBoundingBox (geohash : string)
  : result (float64 * float64 * float64 * float64) :=
  match ParseGeohash geohash with
  | Err err => Err err
  | Ok (lat, lon) =>
      let precision := Z.of_nat (String.length geohash) in
      let latDelta := F64.div (F64.of_int 180) (F64.of_int (wrap64 (precision * precision))) in
      let lonDelta := F64.div (F64.of_int 360) (F64.of_int (wrap64 (precision * precision))) in
      let two := F64.of_int 2 in
      Ok (F64.sub lat (F64.div latDelta two), F64.sub lon (F64.div lonDelta two),
          F64.add lat (F64.div latDelta two), F64.add lon (F64.div lonDelta two))
  end.


(** *** Sets of the server, and maps of the runtime

    Neither a Redis set nor a Go map keeps an order of its own choosing by
    the program: [placed l x] is the order, of the server's or of the
    runtime's choosing, in which the members are listed once [x] has joined
    the members [l]. *)
Class Placement := {
  placed : forall {A : Type}, list A -> A -> list A;
  placed_perm : forall (A : Type) (l : list A) (x : A), Permutation (placed l x) (x :: l)
}.

(** The placement that lists the members in the order of their arrival. *)
Definition by_arrival : Placement := {|
  placed := fun A l x => l ++ [x];
  placed_perm := fun A l x => Permutation_sym (Permutation_cons_append l x)
|}.

Section Sets.
Context `{Placement} {score doc : Type}.

(** [RedisCache.SAdd] with one member; the error of a key of another kind
    leaves the store as it is. *)
Definition SAdd (s : gmap string (@entry score doc)) (key member : string)
  : gmap string (@entry score doc) :=
  match s !! key with
  | None => <[key := {| val := VSet [member]; ttl := None |}]> s
  | Some {| val := VSet members; ttl := t |} =>
      if existsb (String.eqb member) members then s
      else <[key := {| val := VSet (placed members member); ttl := t |}]> s
  | Some _ => s
  end.

End Sets.

End cache.

(* ===================================================================== *)
(** ** Package repo: the article store *)
(* ===================================================================== *)

Module repo.

Record Article := {
  ID : string;
  Title : string;
  Description : option string;
  URL : string;
  PublicationDate : Z;
  SourceName : string;
  Category : list string;
  RelevanceScore : float64;
  Latitude : option float64;
  Longitude : option float64
}.

(** [SearchArticlesRow] and [GetNearbyArticlesRow] embed an [Article]. *)
Record SearchArticlesRow := {
  SearchArticlesRow_Article : Article;
  SearchScore : float64
}.

Record GetNearbyArticlesRow := {
  GetNearbyArticlesRow_Article : Article;
  DistanceMeters : float64
}.

(** [GetRecentEventsByGeohashRow]: a [UserEvent] with the article's
    location. *)
Record GetRecentEventsByGeohashRow := {
  Event_ID : Z;
  ArticleID : string;
  Event : string;
  OccurredAt : Z;
  UserLat : option float64;
  UserLon : option float64;
  Article_Latitude : option float64;
  Article_Longitude : option float64
}.

Record GetArticlesByCategoryParams := { Category_Name : string; Category_Limit : Z }.
Record GetArticlesBySourceParams := { Source_Name : string; Source_Limit : Z }.
Record GetArticlesByScoreParams := { Min : float64; Score_Limit : Z }.
Record SearchArticlesParams := { Query : string; Search_Limit : Z }.
Record GetNearbyArticlesParams := { Lat : float64; Lon : float64; Radius : float64; Nearby_Limit : Z }.

(** The methods of the interface [Repository] that the query and trending
    services call. *)
Class Repository := {
  GetArticlesByCategory : GetArticlesByCategoryParams -> result (list Article);
  GetArticlesBySource : GetArticlesBySourceParams -> result (list Article);
  GetArticlesByScore : GetArticlesByScoreParams -> result (list Article);
  SearchArticles : SearchArticlesParams -> result (list SearchArticlesRow);
  GetNearbyArticles : GetNearbyArticlesParams -> result (list GetNearbyArticlesRow);
  GetRecentEventsByGeohash : Z -> result (list GetRecentEventsByGeohashRow)
}.

(** What a string key of the store holds: the JSON of an article, or other
    bytes. *)
Inductive document :=
| ArticleJSON (a : Article)
| Bytes (b : string).

Definition json_Unmarshal (d : document) : result Article :=
  match d with
  | ArticleJSON a => Ok a
  | Bytes _ => Err "invalid character looking for beginning of value"
  end.

(** The struct [repository].  [articles] is the in-memory map, its entries
    in the order in which a [range] statement visits them; [None] is the
    nil map. *)
Record repository := {
  rcache : option (gmap string (@cache.entry float64 document));
  articles : option (list Article);
  nextID : Z
}.

Section Methods.
Context `{GoLibrary}.
Variable r : repository.

Definition not_found (id : string) : error := "article not found: " ++ id.

Definition lookup_memory (id : string) : result Article :=
  match articles r with
  | Some m =>
      match find (fun a => String.eqb (ID a) id) m with
      | Some a => Ok a
      | None => Err (not_found id)
      end
  | None => Err (not_found id)
  end.

Definition GetArticleByID (id : string) : result Article :=
  match rcache r with
  | Some c =>
      match cache.Get c ("article:" ++ id) with
      | Ok d =>
          match json_Unmarshal d with
          | Ok a => Ok a
          | Err _ => lookup_memory id
          end
      | Err _ => lookup_memory id
      end
  | None => lookup_memory id
  end.

(** [len(results) >= int(arg.Limit)] *)
Definition reached {A} (results : list A) (limit : Z) : bool :=
  limit <=? Z.of_nat (length results).

(** The loop over the ids a Redis set or sorted set answered: an article
    that loads is appended, and the loop stops when the limit is reached. *)
Fixpoint collect_ids (limit : Z) (ids : list string) (acc : list Article) : list Article :=
  match ids with
  | [] => acc
  | id :: ids' =>
      match GetArticleByID id with
      | Ok a =>
          let acc' := acc ++ [a] in
          if reached acc' limit then acc' else collect_ids limit ids' acc'
      | Err _ => collect_ids limit ids' acc
      end
  end.

(** The loop over the in-memory map that tests the limit after an append. *)
Fixpoint collect (keep : Article -> bool) (limit : Z) (m : list Article) (acc : list Article)
  : list Article :=
  match m with
  | [] => acc
  | a :: m' =>
      if keep a then
        let acc' := acc ++ [a] in
        if reached acc' limit then acc' else collect keep limit m' acc'
      else collect keep limit m' acc
  end.

(** The loop of [GetArticlesByCategory] over the in-memory map: the limit
    is tested at the end of every iteration. *)
Fixpoint collect_category (keep : Article -> bool) (limit : Z) (m : list Article) (acc : list Article)
  : list Article :=
  match m with
  | [] => acc
  | a :: m' =>
      let acc' := if keep a then acc ++ [a] else acc in
      if reached acc' limit then acc' else collect_category keep limit m' acc'
  end.

Definition in_category (name : string) (a : Article) : bool :=
  existsb (fun category => Strings.Contains (Strings.ToLower category) (Strings.ToLower name))
          (Category a).

Definition GetArticlesByCategory_ (arg : GetArticlesByCategoryParams) : result (list Article) :=
  let memory :=
    match articles r with
    | Some m => Ok (collect_category (in_category (Category_Name arg)) (Category_Limit arg) m [])
    | None => Ok []
    end in
  match rcache r with
  | Some c =>
      match cache.SMembers c ("articles:category:" ++ Strings.ToLower (Category_Name arg)) with
      | Ok (id :: ids) => Ok (collect_ids (Category_Limit arg) (id :: ids) [])
      | _ => memory
      end
  | None => memory
  end.

Definition from_source (name : string) (a : Article) : bool :=
  Strings.Contains (Strings.ToLower (SourceName a)) (Strings.ToLower name).

Definition GetArticlesBySource_ (arg : GetArticlesBySourceParams) : result (list Article) :=
  let memory :=
    match articles r with
    | Some m => Ok (collect (from_source (Source_Name arg)) (Source_Limit arg) m [])
    | None => Ok []
    end in
  match rcache r with
  | Some c =>
      match cache.SMembers c ("articles:source:" ++ Strings.ToLower (Source_Name arg)) with
      | Ok (id :: ids) => Ok (collect_ids (Source_Limit arg) (id :: ids) [])
      | _ => memory
      end
  | None => memory
  end.

Definition GetArticlesByScore_ (arg : GetArticlesByScoreParams) : result (list Article) :=
  let memory :=
    match articles r with
    | Some m => Ok (collect (fun a => F64.geb (RelevanceScore a) (Min arg)) (Score_Limit arg) m [])
    | None => Ok []
    end in
  match rcache r with
  | Some c =>
      match cache.ZRangeByScore F64.ltb c "articles:by_score"
              (fmt_f_value (Min arg)) (fmt_f_value (F64.of_int 1)) (Score_Limit arg) with
      | Ok (id :: ids) => Ok (collect_ids (Score_Limit arg) (id :: ids) [])
      | _ => memory
      end
  | None => memory
  end.

(** The score of a match: 0.7 for the title, 0.3 for the description, and
    0.2 of the relevance score, added in this order (none of the operations
    fused). *)
Definition search_score (titleMatch descMatch : bool) (a : Article) : float64 :=
  let score := F64.exact 0 in
  let score := if titleMatch then F64.add score (F64.dec 7 1) else score in
  let score := if descMatch then F64.add score (F64.dec 3 1) else score in
  F64.add score (F64.mul (RelevanceScore a) (F64.dec 2 1)).

Definition titleMatch (query : string) (a : Article) : bool :=
  Strings.Contains (Strings.ToLower (Title a)) query.

Definition descMatch (query : string) (a : Article) : bool :=
  match Description a with
  | Some d => Strings.Contains (Strings.ToLower d) query
  | None => false
  end.

Fixpoint search_loop (query : string) (limit : Z) (m : list Article) (acc : list SearchArticlesRow)
  : list SearchArticlesRow :=
  match m with
  | [] => acc
  | a :: m' =>
      if titleMatch query a || descMatch query a then
        let acc' := acc ++ [{| SearchArticlesRow_Article := a;
                               SearchScore := search_score (titleMatch query a) (descMatch query a) a |}] in
        if reached acc' limit then acc' else search_loop query limit m' acc'
      else search_loop query limit m' acc
  end.

(** In the Redis branch the same loop runs over the ids of "articles:all",
    skipping the ids whose article does not load. *)
Fixpoint loaded (ids : list string) : list Article :=
  match ids with
  | [] => []
  | id :: ids' =>
      match GetArticleByID id with
      | Ok a => a :: loaded ids'
      | Err _ => loaded ids'
      end
  end.

Definition SearchArticles_ (arg : SearchArticlesParams) : result (list SearchArticlesRow) :=
  let query := Strings.ToLower (Query arg) in
  let memory :=
    match articles r with
    | Some m => Ok (search_loop query (Search_Limit arg) m [])
    | None => Ok []
    end in
  match rcache r with
  | Some c =>
      match cache.SMembers c "articles:all" with
      | Ok (id :: ids) => Ok (search_loop query (Search_Limit arg) (loaded (id :: ids)) [])
      | _ => memory
      end
  | None => memory
  end.

(** [haversineDistance], in kilometres.  The operations are those of
    float64 in the order Go evaluates them, none fused. *)
Definition Pi : float64 := S754_finite false 7074237752028440 (-51).

Definition to_rad (x : float64) : float64 := F64.div (F64.mul x Pi) (F64.of_int 180).

Definition haversineDistance (lat1 lon1 lat2 lon2 : float64) : float64 :=
  let lat1Rad := to_rad lat1 in
  let lat2Rad := to_rad lat2 in
  let deltaLat := to_rad (F64.sub lat2 lat1) in
  let deltaLon := to_rad (F64.sub lon2 lon1) in
  let two := F64.of_int 2 in
  let a := F64.add
             (F64.mul (math_Sin (F64.div deltaLat two)) (math_Sin (F64.div deltaLat two)))
             (F64.mul (F64.mul (F64.mul (math_Cos lat1Rad) (math_Cos lat2Rad))
                               (math_Sin (F64.div deltaLon two)))
                      (math_Sin (F64.div deltaLon two))) in
  let c := F64.mul two (math_Atan2 (F64.sqrt a) (F64.sqrt (F64.sub (F64.of_int 1) a))) in
  F64.mul (F64.of_int 6371) c.

Fixpoint nearby_loop (arg : GetNearbyArticlesParams) (m : list Article) (acc : list GetNearbyArticlesRow)
  : list GetNearbyArticlesRow :=
  match m with
  | [] => acc
  | a :: m' =>
      match Latitude a, Longitude a with
      | Some lat, Some lon =>
          let distance := haversineDistance (Lat arg) (Lon arg) lat lon in
          if F64.leb distance (Radius arg) then
            let acc' := acc ++ [{| GetNearbyArticlesRow_Article := a;
                                   DistanceMeters := F64.mul distance (F64.of_int 1000) |}] in
            if reached acc' (Nearby_Limit arg) then acc' else nearby_loop arg m' acc'
          else nearby_loop arg m' acc
      | _, _ => nearby_loop arg m' acc
      end
  end.

Definition GetNearbyArticles_ (arg : GetNearbyArticlesParams) : result (list GetNearbyArticlesRow) :=
  let all :=
    match rcache r with
    | Some c =>
        match cache.SMembers c "articles:all" with
        | Ok (id :: ids) => loaded (id :: ids)
        | _ => []
        end
    | None =>
        match articles r with
        | Some m => m
        | None => []
        end
    end in
  let results := nearby_loop arg all [] in
  Ok (sort.Slice (fun x y => F64.ltb (DistanceMeters x) (DistanceMeters y)) results).

(** [GetRecentEventsByGeohash]: "For now, return empty results". *)
Definition GetRecentEventsByGeohash_ (since : Z) : result (list GetRecentEventsByGeohashRow) :=
  Ok [].

End Methods.

(** [*repository] implements [Repository]. *)
#[export] Instance repository_Repository `{GoLibrary} (r : repository) : Repository := {
  GetArticlesByCategory := GetArticlesByCategory_ r;
  GetArticlesBySource := GetArticlesBySource_ r;
  GetArticlesByScore := GetArticlesByScore_ r;
  SearchArticles := SearchArticles_ r;
  GetNearbyArticles := GetNearbyArticles_ r;
  GetRecentEventsByGeohash := GetRecentEventsByGeohash_
}.

(** *** The methods that write *)

Record CreateArticleParams := {
  Create_ID : string;
  Create_Title : string;
  Create_Description : option string;
  Create_URL : string;
  Create_PublicationDate : Z;
  Create_SourceName : string;
  Create_Category : list string;
  Create_RelevanceScore : float64;
  Create_Latitude : option float64;
  Create_Longitude : option float64
}.

Record UserEvent := {
  UserEvent_ID : Z;
  UserEvent_ArticleID : string;
  UserEvent_Event : string;
  UserEvent_OccurredAt : Z;
  UserEvent_UserLat : option float64;
  UserEvent_UserLon : option float64
}.

Record CreateUserEventParams := {
  Event_ArticleID : string;
  Event_Event : string;
  Event_UserLat : option float64;
  Event_UserLon : option float64
}.

(** [json.Marshal] of an article: the document that [json.Unmarshal] reads
    back, or the error of a value that JSON cannot hold. *)
Class GoJSON := {
  json_Marshal : Article -> result document
}.

(** [r.articles[id] = article] on the in-memory map: the entry of the key,
    if any, gives way to the new one. *)
Definition assign `{cache.Placement} (m : list Article) (a : Article) : list Article :=
  cache.placed (List.filter (fun x => negb (String.eqb (ID x) (ID a))) m) a.

Section Writes.
Context `{cache.Placement} `{GoJSON}.

(** [CreateArticle]: the repository after the call, and the result.  The
    errors of the cache are dropped, as the code does not look at them. *)
Definition CreateArticle (r : repository) (arg : CreateArticleParams)
  : repository * result Article :=
  let '(id, next) :=
    if String.eqb (Create_ID arg) ""
    then (("article_" ++ cache.itoa (nextID r))%string, cache.wrap64 (nextID r + 1))
    else (Create_ID arg, nextID r) in
  let article := {|
    ID := id;
    Title := Create_Title arg;
    Description := Create_Description arg;
    URL := Create_URL arg;
    PublicationDate := Create_PublicationDate arg;
    SourceName := Create_SourceName arg;
    Category := Create_Category arg;
    RelevanceScore := Create_RelevanceScore arg;
    Latitude := Create_Latitude arg;
    Longitude := Create_Longitude arg
  |} in
  match rcache r with
  | Some c =>
      match json_Marshal article with
      | Ok articleData =>
          let c := cache.Set_ c ("article:" ++ id) articleData (24 * cache.Hour) in
          let c := cache.SAdd c "articles:all" id in
          let c := fold_left
                     (fun c category =>
                        cache.SAdd c ("articles:category:" ++ Strings.ToLower category) id)
                     (Category article) c in
          let c := cache.SAdd c ("articles:source:" ++ Strings.ToLower (SourceName article)) id in
          let c := cache.ZAdd c "articles:by_score" id (RelevanceScore article) in
          ({| rcache := Some c; articles := articles r; nextID := next |}, Ok article)
      | Err _ =>
          ({| rcache := Some c; articles := articles r; nextID := next |}, Ok article)
      end
  | None =>
      let m := match articles r with Some m => m | None => [] end in
      ({| rcache := None; articles := Some (assign m article); nextID := next |}, Ok article)
  end.

(** [CreateUserEvent], at the time [now]. *)
Definition CreateUserEvent (r : repository) (now : Z) (arg : CreateUserEventParams)
  : repository * result UserEvent :=
  let event := {|
    UserEvent_ID := nextID r;
    UserEvent_ArticleID := Event_ArticleID arg;
    UserEvent_Event := Event_Event arg;
    UserEvent_OccurredAt := now;
    UserEvent_UserLat := Event_UserLat arg;
    UserEvent_UserLon := Event_UserLon arg
  |} in
  ({| rcache := rcache r; articles := articles r; nextID := cache.wrap64 (nextID r + 1) |},
   Ok event).

End Writes.

(** [GetArticlesWithoutSummary]: the articles as they come, whether they
    have a summary or not. *)
Definition GetArticlesWithoutSummary `{GoLibrary} (r : repository) (limit : Z)
  : result (list Article) :=
  match rcache r with
  | Some c =>
      match cache.SMembers c "articles:all" with
      | Ok (id :: ids) => Ok (collect_ids r limit (id :: ids) [])
      | _ => Ok []
      end
  | None =>
      match articles r with
      | Some m => Ok (collect (fun _ => true) limit m [])
      | None => Ok []
      end
  end.

(** [NewRepository]: with the cache when the server answered, else with an
    empty in-memory map. *)
Definition NewRepository (redisCache : result (gmap string (@cache.entry float64 document)))
  : repository :=
  match redisCache with
  | Err _ => {| rcache := None; articles := Some []; nextID := 1 |}
  | Ok c => {| rcache := Some c; articles := None; nextID := 1 |}
  end.

End repo.

(* ===================================================================== *)
(** ** Package news: the query service *)
(* ===================================================================== *)

Module news.

Record QueryRequest := {
  QueryText : string;
  Lat : option float64;
  Lon : option float64;
  Radius : option float64;
  Limit : Z
}.

Record ArticleDTO := {
  ID : string;
  Title : string;
  Description : option string;
  URL : string;
  PublicationDate : Z;
  SourceName : string;
  Category : list string;
  RelevanceScore : float64;
  LLMSummary : option string;
  Latitude : option float64;
  Longitude : option float64;
  DistanceMeters : option float64;
  SearchScore : option float64
}.

(** [QueryInfo]: the endpoint and the parameters of the request. *)
Record QueryInfo := {
  Endpoint : string;
  Params : QueryRequest
}.

Record MetaInfo := {
  Total : Z;
  Query_ : option QueryInfo;
  Intent : string;
  Entities : list string;
  Strategy : string
}.

Record QueryResponse := {
  Articles : list ArticleDTO;
  Meta : MetaInfo
}.

(** A call of the service to its store. *)
Inductive RepoCall :=
| CallGetArticlesByCategory (arg : repo.GetArticlesByCategoryParams)
| CallGetArticlesBySource (arg : repo.GetArticlesBySourceParams)
| CallGetArticlesByScore (arg : repo.GetArticlesByScoreParams)
| CallSearchArticles (arg : repo.SearchArticlesParams)
| CallGetNearbyArticles (arg : repo.GetNearbyArticlesParams).

Definition int32 (z : Z) : Z := (z + 2 ^ 31) mod 2 ^ 32 - 2 ^ 31.

(** [getBestIntent]: the loop keeps the first intent and replaces it by a
    later one of strictly greater confidence. *)
Definition better (best : option llm.Intent) (i : llm.Intent) : option llm.Intent :=
  match best with
  | None => Some i
  | Some b => if F64.gtb (llm.Confidence i) (llm.Confidence b) then Some i else Some b
  end.

Definition getBestIntent (extraction : llm.Extraction) : string :=
  match llm.Intent_ extraction with
  | [] => "search"
  | intents =>
      match fold_left better intents None with
      | Some b => llm.Type_ b
      | None => "search"
      end
  end.

Definition getAllEntities (extraction : llm.Extraction) : list string :=
  llm.People (llm.Entities extraction) ++
  llm.Organizations (llm.Entities extraction) ++
  llm.Locations (llm.Entities extraction) ++
  llm.Concepts extraction ++
  llm.Categories extraction ++
  llm.SourceNames extraction.

Definition sources : list string :=
  ["new york times"; "reuters"; "bbc"; "cnn"; "dw"; "technews"; "globalnews"; "financedaily"].

Definition categories : list string :=
  ["technology"; "business"; "sports"; "health"; "science"; "environment"; "politics";
   "entertainment"].

Definition isSource (entity : string) : bool :=
  existsb (fun src => Strings.Contains (Strings.ToLower entity) src) sources.

Definition isCategory (entity : string) : bool :=
  existsb (fun cat => Strings.Contains (Strings.ToLower entity) cat) categories.

Definition hasSourceEntities (entities : list string) : bool :=
  existsb (fun entity => existsb (fun source => Strings.Contains (Strings.ToLower entity) source) sources)
          entities.

Definition hasCategoryEntities (entities : list string) : bool :=
  existsb (fun entity => existsb (fun category => Strings.Contains (Strings.ToLower entity) category)
                                 categories)
          entities.

Definition determineStrategy (extraction : llm.Extraction) (req : QueryRequest) : string :=
  match Lat req, Lon req with
  | Some _, Some _ => "nearby"
  | _, _ =>
      let bestIntent := Strings.ToLower (getBestIntent extraction) in
      if String.eqb bestIntent "category" || String.eqb bestIntent "topic" then "category"
      else if String.eqb bestIntent "source" || String.eqb bestIntent "publisher" then "source"
      else if String.eqb bestIntent "score" || String.eqb bestIntent "relevance" then "score"
      else if String.eqb bestIntent "nearby" || String.eqb bestIntent "location"
              || String.eqb bestIntent "local" then "nearby"
      else if String.eqb bestIntent "search" || String.eqb bestIntent "query" then "search"
      else
        let allEntities := getAllEntities extraction in
        if hasSourceEntities allEntities then "source"
        else if hasCategoryEntities allEntities then "category"
        else "search"
  end.

Definition convertToDTO (article : repo.Article) : ArticleDTO := {|
  ID := repo.ID article;
  Title := repo.Title article;
  Description := repo.Description article;
  URL := repo.URL article;
  PublicationDate := repo.PublicationDate article;
  SourceName := repo.SourceName article;
  Category := repo.Category article;
  RelevanceScore := repo.RelevanceScore article;
  LLMSummary := None;
  Latitude := repo.Latitude article;
  Longitude := repo.Longitude article;
  DistanceMeters := None;
  SearchScore := None
|}.

Definition convertToDTOs (articles : list repo.Article) : list ArticleDTO :=
  map convertToDTO articles.

Definition with_SearchScore (dto : ArticleDTO) (s : float64) : ArticleDTO := {|
  ID := ID dto; Title := Title dto; Description := Description dto; URL := URL dto;
  PublicationDate := PublicationDate dto; SourceName := SourceName dto;
  Category := Category dto; RelevanceScore := RelevanceScore dto;
  LLMSummary := LLMSummary dto; Latitude := Latitude dto; Longitude := Longitude dto;
  DistanceMeters := DistanceMeters dto;
  SearchScore := Some s
|}.

Definition with_DistanceMeters (dto : ArticleDTO) (d : float64) : ArticleDTO := {|
  ID := ID dto; Title := Title dto; Description := Description dto; URL := URL dto;
  PublicationDate := PublicationDate dto; SourceName := SourceName dto;
  Category := Category dto; RelevanceScore := RelevanceScore dto;
  LLMSummary := LLMSummary dto; Latitude := Latitude dto; Longitude := Longitude dto;
  DistanceMeters := Some d;
  SearchScore := SearchScore dto
|}.

Definition with_LLMSummary (dto : ArticleDTO) (s : string) : ArticleDTO := {|
  ID := ID dto; Title := Title dto; Description := Description dto; URL := URL dto;
  PublicationDate := PublicationDate dto; SourceName := SourceName dto;
  Category := Category dto; RelevanceScore := RelevanceScore dto;
  LLMSummary := Some s; Latitude := Latitude dto; Longitude := Longitude dto;
  DistanceMeters := DistanceMeters dto;
  SearchScore := SearchScore dto
|}.

(** *** The score threshold read from the query text *)

Definition is_digit (c : ascii) : bool :=
  let n := nat_of_ascii c in ((48 <=? n) && (n <=? 57))%nat.

(** The longest run of digits at the head of [s], and what follows it. *)
Fixpoint span_digits (s : string) : string * string :=
  match s with
  | EmptyString => (EmptyString, EmptyString)
  | String c s' =>
      if is_digit c then let '(d, rest) := span_digits s' in (String c d, rest)
      else (EmptyString, s)
  end.

(** [FindStringSubmatch] for the pattern of [getArticlesByScore]: one or
    more digits, an optional dot, any number of digits.  The match is the
    leftmost one, each repetition as long as it can be.  The answer is the
    integer digits, whether a dot was taken, and the digits after it. *)
Fixpoint FindStringSubmatch (s : string) : option (string * bool * string) :=
  match s with
  | EmptyString => None
  | String c s' =>
      if is_digit c then
        let '(int_digits, rest) := span_digits s in
        match rest with
        | String "." rest' => Some (int_digits, true, fst (span_digits rest'))
        | _ => Some (int_digits, false, EmptyString)
        end
      else FindStringSubmatch s'
  end.

Fixpoint digits_value (s : string) (acc : Z) : Z :=
  match s with
  | EmptyString => acc
  | String c s' => digits_value s' (10 * acc + (Z.of_nat (nat_of_ascii c) - 48))
  end.

(** [strconv.ParseFloat(m, 64)] on a match of the pattern above; such a
    text always parses. *)
Definition ParseFloat (m : string * bool * string) : float64 :=
  let '(int_digits, _, frac_digits) := m in
  F64.dec (digits_value (int_digits ++ frac_digits) 0) (String.length frac_digits).

Definition minScore (query : string) : float64 :=
  let default := F64.dec 8 1 in
  let queryLower := Strings.ToLower query in
  if Strings.Contains queryLower "above" || Strings.Contains queryLower "threshold" then
    match FindStringSubmatch queryLower with
    | Some m =>
        let score := ParseFloat m in
        if F64.geb score (F64.exact 0) && F64.leb score (F64.of_int 1) then score else default
    | None => default
    end
  else default.

Section Service.
Context `{GoLibrary} `{repo.Repository} `{llm.LLMClient}.

Definition getArticlesByCategory (extraction : llm.Extraction) (req : QueryRequest)
  : result (list ArticleDTO) * list RepoCall :=
  let category :=
    match find isCategory (llm.Categories extraction) with
    | Some cat => cat
    | None => "Technology"
    end in
  let arg := {| repo.Category_Name := category; repo.Category_Limit := int32 (Limit req) |} in
  match repo.GetArticlesByCategory arg with
  | Err e => (Err e, [CallGetArticlesByCategory arg])
  | Ok articles => (Ok (convertToDTOs articles), [CallGetArticlesByCategory arg])
  end.

Definition getArticlesBySource (extraction : llm.Extraction) (req : QueryRequest)
  : result (list ArticleDTO) * list RepoCall :=
  let source :=
    match find isSource (llm.SourceNames extraction) with
    | Some src => src
    | None => "TechNews"
    end in
  let arg := {| repo.Source_Name := source; repo.Source_Limit := int32 (Limit req) |} in
  match repo.GetArticlesBySource arg with
  | Err e => (Err e, [CallGetArticlesBySource arg])
  | Ok articles => (Ok (convertToDTOs articles), [CallGetArticlesBySource arg])
  end.

Definition getArticlesByScore (extraction : llm.Extraction) (req : QueryRequest)
  : result (list ArticleDTO) * list RepoCall :=
  let arg := {| repo.Min := minScore (QueryText req); repo.Score_Limit := int32 (Limit req) |} in
  match repo.GetArticlesByScore arg with
  | Err e => (Err e, [CallGetArticlesByScore arg])
  | Ok articles => (Ok (convertToDTOs articles), [CallGetArticlesByScore arg])
  end.

Definition searchArticles (extraction : llm.Extraction) (req : QueryRequest)
  : result (list ArticleDTO) * list RepoCall :=
  let arg := {| repo.Query := QueryText req; repo.Search_Limit := int32 (Limit req) |} in
  match repo.SearchArticles arg with
  | Err e => (Err e, [CallSearchArticles arg])
  | Ok rows =>
      (Ok (map (fun row => with_SearchScore (convertToDTO (repo.SearchArticlesRow_Article row))
                                            (repo.SearchScore row)) rows),
       [CallSearchArticles arg])
  end.

(** The coordinates [getNearbyArticles] falls back to: San Francisco. *)
Definition defaultLat : float64 := F64.dec 377749 4.
Definition defaultLon : float64 := F64.neg (F64.dec 1224194 4).

Definition getNearbyArticles (extraction : llm.Extraction) (req : QueryRequest)
  : result (list ArticleDTO) * list RepoCall :=
  let coordinates :=
    match Lat req, Lon req with
    | Some lat, Some lon => Ok (lat, lon)
    | _, _ =>
        match llm.Locations (llm.Entities extraction) with
        | _ :: _ => Ok (defaultLat, defaultLon)
        | [] => Err "latitude and longitude are required for nearby search"
        end
    end in
  match coordinates with
  | Err e => (Err e, [])
  | Ok (lat, lon) =>
      let radius := match Radius req with Some r => r | None => F64.of_int 10 end in
      let arg := {| repo.Lat := lat; repo.Lon := lon; repo.Radius := radius;
                    repo.Nearby_Limit := int32 (Limit req) |} in
      match repo.GetNearbyArticles arg with
      | Err e => (Err e, [CallGetNearbyArticles arg])
      | Ok rows =>
          (Ok (map (fun row => with_DistanceMeters (convertToDTO (repo.GetNearbyArticlesRow_Article row))
                                                   (repo.DistanceMeters row)) rows),
           [CallGetNearbyArticles arg])
      end
  end.

(** [enrichArticles].  One goroutine per article sends (index, summary,
    err) on a channel that holds them all; [schedule] is the order in which
    the collecting loop receives the indices.  The loop receives as many
    results as there are articles. *)
Definition summarize (art : ArticleDTO) : string * option error :=
  let description := match Description art with Some d => d | None => "" end in
  llm.Summarize (Title art) description (SourceName art)
                (time_Format_RFC3339 (PublicationDate art)).

Definition receive (articles : list ArticleDTO) (summaries : list string) (idx : nat) : list string :=
  match articles !! idx with
  | Some art =>
      match summarize art with
      | (summary, None) => <[idx := summary]> summaries
      | (_, Some _) => summaries
      end
  | None => summaries
  end.

Definition apply_summary (art : ArticleDTO) (summary : string) : ArticleDTO :=
  if String.eqb summary "" then art else with_LLMSummary art summary.

Definition enrichArticles (schedule : list nat) (articles : list ArticleDTO) : list ArticleDTO :=
  let n := length articles in
  let summaries := fold_left (receive articles) (firstn n schedule) (replicate n "") in
  zip_with apply_summary articles summaries.

(** [rankArticles] *)
Definition after (x y : ArticleDTO) : bool := PublicationDate y <? PublicationDate x.

Definition by_relevance (x y : ArticleDTO) : bool :=
  F64.gtb (RelevanceScore x) (RelevanceScore y).

Definition by_search (x y : ArticleDTO) : bool :=
  match SearchScore x, SearchScore y with
  | Some sx, Some sy => F64.gtb sx sy
  | _, _ => F64.gtb (RelevanceScore x) (RelevanceScore y)
  end.

Definition by_distance (x y : ArticleDTO) : bool :=
  match DistanceMeters x, DistanceMeters y with
  | Some dx, Some dy => F64.ltb dx dy
  | _, _ => false
  end.

Definition rankArticles (articles : list ArticleDTO) (strategy : string) (req : QueryRequest)
  : list ArticleDTO :=
  if String.eqb strategy "category" || String.eqb strategy "source" then sort.Slice after articles
  else if String.eqb strategy "score" then sort.Slice by_relevance articles
  else if String.eqb strategy "search" then sort.Slice by_search articles
  else if String.eqb strategy "nearby" then sort.Slice by_distance articles
  else articles.

(** [Query].  The answer comes with the calls made to the store. *)
Definition retrieve (strategy : string) (extraction : llm.Extraction) (req : QueryRequest)
  : string * (result (list ArticleDTO) * list RepoCall) :=
  if String.eqb strategy "category" then (strategy, getArticlesByCategory extraction req)
  else if String.eqb strategy "source" then (strategy, getArticlesBySource extraction req)
  else if String.eqb strategy "score" then (strategy, getArticlesByScore extraction req)
  else if String.eqb strategy "search" then (strategy, searchArticles extraction req)
  else if String.eqb strategy "nearby" then (strategy, getNearbyArticles extraction req)
  else ("search", searchArticles extraction req).

Definition Query (schedule : list nat) (req : QueryRequest)
  : result QueryResponse * list RepoCall :=
  let req := if Limit req <=? 0
             then {| QueryText := QueryText req; Lat := Lat req; Lon := Lon req;
                     Radius := Radius req; Limit := 5 |}
             else req in
  match llm.Extract (QueryText req) with
  | Err e => (Err ("failed to extract query intent: " ++ e), [])
  | Ok extraction =>
      let '(strategy, (retrieved, calls)) :=
        retrieve (determineStrategy extraction req) extraction req in
      match retrieved with
      | Err e => (Err ("failed to retrieve articles: " ++ e), calls)
      | Ok articles =>
          let articles := enrichArticles schedule articles in
          let articles := rankArticles articles strategy req in
          let articles := if Limit req <? Z.of_nat (length articles)
                          then firstn (Z.to_nat (Limit req)) articles
                          else articles in
          (Ok {| Articles := articles;
                 Meta := {| Total := Z.of_nat (length articles);
                            Query_ := Some {| Endpoint := "query"; Params := req |};
                            Intent := getBestIntent extraction;
                            Entities := getAllEntities extraction;
                            Strategy := strategy |} |},
           calls)
      end
  end.

End Service.

End news.

(* ===================================================================== *)
(** ** Package trending: the trending scorer *)
(* ===================================================================== *)

Module trending.

(** The scorer's arithmetic goes through [math.Exp] and the trigonometric
    functions.  It is carried out here on real numbers: a float64 stands for
    the real number it denotes and every operation is exact.  NaN and the
    infinities, which no coordinate of an event takes, stand for 0. *)
Definition F2R (x : float64) : R :=
  match x with
  | S754_finite s m e => ((if s then -1 else 1) * IZR (Zpos m) * powerRZ 2 e)%R
  | _ => 0%R
  end.

Record TrendingScore := {
  ArticleID : string;
  Score : R
}.

Record TrendingMeta := {
  LastComputedAt : Z;
  EventCount : Z;
  TileCount : Z
}.

(** What a string key holds: the JSON of the metadata, or other bytes. *)
Inductive document :=
| MetaJSON (m : TrendingMeta)
| Bytes (b : string).

Definition Rltb (x y : R) : bool := if Rlt_dec x y then true else false.

(** [math.Atan2(y, x)] on real numbers. *)
Definition Atan2 (y x : R) : R :=
  if Rlt_dec 0 x then atan (y / x)
  else if Rlt_dec x 0 then
    if Rle_dec 0 y then (atan (y / x) + PI)%R else (atan (y / x) - PI)%R
  else if Rlt_dec 0 y then (PI / 2)%R
  else if Rlt_dec y 0 then (- PI / 2)%R
  else 0%R.

(** [ts.haversineDistance], in kilometres. *)
Definition haversineDistance (lat1 lon1 lat2 lon2 : R) : R :=
  let lat1Rad := (lat1 * PI / 180)%R in
  let lat2Rad := (lat2 * PI / 180)%R in
  let deltaLat := ((lat2 - lat1) * PI / 180)%R in
  let deltaLon := ((lon2 - lon1) * PI / 180)%R in
  let a := (sin (deltaLat / 2) * sin (deltaLat / 2) +
            cos lat1Rad * cos lat2Rad * sin (deltaLon / 2) * sin (deltaLon / 2))%R in
  let c := (2 * Atan2 (sqrt a) (sqrt (1 - a)))%R in
  (6371 * c)%R.

(** [t.Sub(u)]: the difference of two instants, kept within int64. *)
Definition Sub (t u : Z) : Z := Z.max F64.min_int64 (Z.min F64.max_int64 (t - u)).

(** [d.Hours()] *)
Definition Hours (d : Z) : R :=
  (IZR (Z.quot d cache.Hour) + IZR (Z.rem d cache.Hour) / (60 * 60 * 1000000000))%R.

Definition eventWeight (kind : string) : R :=
  if String.eqb kind "click" then 2%R
  else if String.eqb kind "view" then 1%R
  else 1%R.

Definition timeDecay (now : Z) (event : repo.GetRecentEventsByGeohashRow) : R :=
  let timeDiff := Sub now (repo.OccurredAt event) in
  exp (- Hours timeDiff / 6).

Definition geoDecay (event : repo.GetRecentEventsByGeohashRow) : R :=
  match repo.UserLat event, repo.UserLon event,
        repo.Article_Latitude event, repo.Article_Longitude event with
  | Some ulat, Some ulon, Some lat, Some lon =>
      let distance := haversineDistance (F2R ulat) (F2R ulon) (F2R lat) (F2R lon) in
      (1 / (1 + distance / 10))%R
  | _, _, _, _ => 1%R
  end.

(** [calculateEventScore]; [now] is the clock that [time.Since] reads. *)
Definition calculateEventScore (now : Z) (event : repo.GetRecentEventsByGeohashRow) : R :=
  (eventWeight (repo.Event event) * timeDecay now event * geoDecay event)%R.

(** What a cycle leaves: the store and the error returned, or the panic of
    [GenerateGeohash]. *)
Inductive outcome :=
| Returned (s : gmap string (@cache.entry R document)) (err : option error)
| Panicked.

Section Scorer.
Context `{GoLibrary} `{repo.Repository}.

(** [groupEventsByTile] *)
Fixpoint groupEventsByTile (events : list repo.GetRecentEventsByGeohashRow)
  (tileEvents : gmap string (list repo.GetRecentEventsByGeohashRow))
  : option (gmap string (list repo.GetRecentEventsByGeohashRow)) :=
  match events with
  | [] => Some tileEvents
  | event :: events' =>
      match repo.UserLat event, repo.UserLon event with
      | Some lat, Some lon =>
          match cache.GenerateGeohash lat lon 5 with
          | Some geohash =>
              groupEventsByTile events'
                (<[geohash := default [] (tileEvents !! geohash) ++ [event]]> tileEvents)
          | None => None
          end
      | _, _ => groupEventsByTile events' tileEvents
      end
  end.

(** [articleScores[event.ArticleID] += score] *)
Definition accumulate (now : Z) (articleScores : gmap string R)
  (event : repo.GetRecentEventsByGeohashRow) : gmap string R :=
  <[repo.ArticleID event :=
      (default 0%R (articleScores !! repo.ArticleID event) + calculateEventScore now event)%R]>
    articleScores.

(** [computeTileScore]; it never returns an error. *)
Definition computeTileScore (now : Z) (s : gmap string (@cache.entry R document))
  (geohash : string) (events : list repo.GetRecentEventsByGeohashRow)
  : gmap string (@cache.entry R document) :=
  match events with
  | [] => s
  | _ =>
      let articleScores := fold_left (accumulate now) events ∅ in
      let trendingScores :=
        sort.Slice (fun x y => Rltb (Score y) (Score x))
          (map (fun p => {| ArticleID := fst p; Score := snd p |}) (map_to_list articleScores)) in
      let trendingKey := cache.TrendingKey geohash 50 in
      let s := cache.Del s trendingKey in
      let s := fold_left (fun s t => cache.ZAdd s trendingKey (ArticleID t) (Score t)) trendingScores s in
      cache.Expire s trendingKey cache.TrendingTTL
  end.

(** [computeAllTiles]; the clock reads [now] throughout the cycle. *)
Definition computeAllTiles (now : Z) (s : gmap string (@cache.entry R document)) : outcome :=
  let since := now - 24 * cache.Hour in
  match repo.GetRecentEventsByGeohash since with
  | Err e => Returned s (Some ("failed to get recent events: " ++ e)%string)
  | Ok [] => Returned s None
  | Ok events =>
      match groupEventsByTile events ∅ with
      | None => Panicked
      | Some tileEvents =>
          let '(s, tileCount) :=
            fold_left (fun st tile => (computeTileScore now (fst st) (fst tile) (snd tile), snd st + 1))
                      (map_to_list tileEvents) (s, 0) in
          let meta := {| LastComputedAt := now;
                         EventCount := Z.of_nat (length events);
                         TileCount := tileCount |} in
          Returned (cache.Set_ s "news:trending:global:meta" (MetaJSON meta) cache.TrendingTTL) None
      end
  end.

(** [GetTrendingScores] *)
Definition GetTrendingScores (s : gmap string (@cache.entry R document)) (geohash : string) (limit : Z)
  : result (list TrendingScore) :=
  let trendingKey := cache.TrendingKey geohash limit in
  match cache.ZRevRangeWithScores Rltb s trendingKey 0 (limit - 1) with
  | Err e => Err ("failed to get trending scores: " ++ e)
  | Ok scores => Ok (map (fun p => {| ArticleID := fst p; Score := snd p |}) scores)
  end.

(** [ForceRecompute] *)
Definition ForceRecompute (now : Z) (s : gmap string (@cache.entry R document)) (lat lon : float64)
  : outcome :=
  match cache.GenerateGeohash lat lon 5 with
  | None => Panicked
  | Some geohash =>
      match repo.GetRecentEventsByGeohash (now - 24 * cache.Hour) with
      | Err e => Returned s (Some ("failed to get recent events: " ++ e)%string)
      | Ok events =>
          match groupEventsByTile events ∅ with
          | None => Panicked
          | Some tileEvents =>
              Returned (computeTileScore now s geohash (default [] (tileEvents !! geohash))) None
          end
      end
  end.

End Scorer.

End trending.

(* ===================================================================== *)
(** ** Package middleware: ratelimit.go *)
(* ===================================================================== *)

Module middleware.

(** [indexOf]: the index of the first byte [c] of [s], or -1. *)
Fixpoint indexOf_from (i : Z) (s : string) (c : ascii) : Z :=
  match s with
  | EmptyString => -1
  | String b s' => if Ascii.eqb b c then i else indexOf_from (i + 1) s' c
  end.

Definition indexOf (s : string) (c : ascii) : Z := indexOf_from 0 s c.

(** What [getClientIP] reads of a request: the two headers as [Header.Get]
    answers them, the empty text for a header that is not there, and the
    address of the peer. *)
Record Request := {
  X_Forwarded_For : string;
  X_Real_IP : string;
  RemoteAddr : string
}.

(** [getClientIP] *)
Definition getClientIP (r : Request) : string :=
  let forwardedFor := X_Forwarded_For r in
  if negb (String.eqb forwardedFor "") then
    let commaIndex := indexOf forwardedFor "," in
    if 0 <? commaIndex then String.substring 0 (Z.to_nat commaIndex) forwardedFor
    else forwardedFor
  else
    let realIP := X_Real_IP r in
    if negb (String.eqb realIP "") then realIP
    else RemoteAddr r.

(** [clientLimit] and [SimpleRateLimiter]; the map holds the client
    records themselves, which [Allow] updates in place. *)
Record clientLimit := {
  tokens : Z;
  lastRefill : Z
}.

Record SimpleRateLimiter := {
  requestsPerMinute : Z;
  burstSize : Z;
  clients : gmap string clientLimit
}.

Definition NewSimpleRateLimiter (requestsPerMinute burstSize : Z) : SimpleRateLimiter :=
  {| requestsPerMinute := requestsPerMinute; burstSize := burstSize; clients := ∅ |}.

Definition min (a b : Z) : Z := if a <? b then a else b.

(** [t.Sub(u)] and [d.Minutes()] *)
Definition Sub (t u : Z) : Z := Z.max F64.min_int64 (Z.min F64.max_int64 (t - u)).

Definition Minutes (d : Z) : float64 :=
  F64.add (F64.of_int (Z.quot d cache.Minute))
          (F64.div (F64.of_int (Z.rem d cache.Minute)) (F64.of_int 60000000000)).

(** The tokens that [Allow] adds to a client last refilled at [last]. *)
Definition tokensToAdd (rl : SimpleRateLimiter) (now last : Z) : Z :=
  F64.to_int (F64.mul (Minutes (Sub now last)) (F64.of_int (requestsPerMinute rl))).

(** [Allow]; [now] is the clock that [time.Now] reads. *)
Definition Allow (rl : SimpleRateLimiter) (now : Z) (clientIP : string) : SimpleRateLimiter * bool :=
  let client :=
    match clients rl !! clientIP with
    | Some client => client
    | None => {| tokens := burstSize rl; lastRefill := now |}
    end in
  let tokensToAdd := tokensToAdd rl now (lastRefill client) in
  let client :=
    if 0 <? tokensToAdd
    then {| tokens := min (cache.wrap64 (tokens client + tokensToAdd)) (burstSize rl);
            lastRefill := now |}
    else client in
  if 0 <? tokens client
  then ({| requestsPerMinute := requestsPerMinute rl; burstSize := burstSize rl;
           clients := <[clientIP := {| tokens := tokens client - 1;
                                       lastRefill := lastRefill client |}]> (clients rl) |},
        true)
  else ({| requestsPerMinute := requestsPerMinute rl; burstSize := burstSize rl;
           clients := <[clientIP := client]> (clients rl) |},
        false).

(** What the middleware [RateLimit] does with a request: it hands it to the
    next handler, or answers it itself. *)
Inductive Served :=
| Next
| Answered (status : Z) (headers : list (string * string)) (body : string).

(** The body: the JSON of the error, its keys in order, and a line feed. *)
Definition quoted (s : string) : string :=
  String (ascii_of_nat 34) s ++ String (ascii_of_nat 34) "".

Definition rate_limit_body : string :=
  "{" ++ quoted "error" ++ ":{" ++ quoted "code" ++ ":" ++ quoted "RATE_LIMIT" ++ "," ++
  quoted "message" ++ ":" ++ quoted "Rate limit exceeded. Please try again later." ++ "}}" ++
  String (ascii_of_nat 10) "".

(** [RateLimit], for the limiter it was built with. *)
Definition RateLimit (limiter : SimpleRateLimiter) (now : Z) (r : Request)
  : SimpleRateLimiter * Served :=
  let clientIP := getClientIP r in
  let '(limiter, allowed) := Allow limiter now clientIP in
  if allowed then (limiter, Next)
  else (limiter,
        Answered 429 [("Content-Type", "application/json"); ("Retry-After", "60")]
                 rate_limit_body).

(** [DefaultRateLimitConfig] *)
Definition DefaultRequestsPerMinute : Z := 60.
Definition DefaultBurstSize : Z := 10.

End middleware.


(* ===================================================================== *)
(** ** Package http: the handlers of /api/v1/news *)
(* ===================================================================== *)

Module http.

(** [strconv.ParseFloat(s, 64)]: the number, or [None] when it reports an
    error. *)
Class GoStrconv := {
  strconv_ParseFloat : string -> option float64
}.

Fixpoint all_digits (s : string) : bool :=
  match s with
  | EmptyString => true
  | String c s' => news.is_digit c && all_digits s'
  end.

(** [strconv.Atoi]: an optional sign and then decimal digits only, of a
    number within int; [None] is an error, which the handlers do not look
    into. *)
Definition Atoi (s : string) : option Z :=
  let '(sign, digits) :=
    match s with
    | String "+" rest => (1, rest)
    | String "-" rest => (-1, rest)
    | _ => (1, s)
    end in
  if String.eqb digits "" || negb (all_digits digits) then None
  else
    let n := sign * news.digits_value digits 0 in
    if (F64.min_int64 <=? n) && (n <=? F64.max_int64) then Some n else None.

Definition StatusBadRequest : Z := 400.
Definition StatusInternalServerError : Z := 500.

(** What the handlers read of a request: the method, the parameters of the
    URL in their order, and what the JSON decoder makes of the body. *)
Record Request := {
  Method : string;
  URL_Query : list (string * string);
  Body : result news.QueryRequest
}.

(** [r.URL.Query().Get(key)]: the first value of the key, or the empty
    text. *)
Fixpoint Get (values : list (string * string)) (key : string) : string :=
  match values with
  | [] => ""
  | (k, v) :: values' => if String.eqb k key then v else Get values' key
  end.

(** What a handler writes: [http.Error] with a message and a status, or the
    status 200 with the content type of JSON and what the encoder writes of
    the response. *)
Inductive Reply :=
| Error (message : string) (code : Z)
| Encoded (response : news.QueryResponse).

Section Handlers.
Context `{GoStrconv}.

(** [h.newsService.Query] *)
Variable newsService_Query : news.QueryRequest -> result news.QueryResponse.

Definition with_Lat (req : news.QueryRequest) (lat : float64) : news.QueryRequest :=
  {| news.QueryText := news.QueryText req; news.Lat := Some lat; news.Lon := news.Lon req;
     news.Radius := news.Radius req; news.Limit := news.Limit req |}.

Definition with_Lon (req : news.QueryRequest) (lon : float64) : news.QueryRequest :=
  {| news.QueryText := news.QueryText req; news.Lat := news.Lat req; news.Lon := Some lon;
     news.Radius := news.Radius req; news.Limit := news.Limit req |}.

Definition with_Radius (req : news.QueryRequest) (radius : float64) : news.QueryRequest :=
  {| news.QueryText := news.QueryText req; news.Lat := news.Lat req; news.Lon := news.Lon req;
     news.Radius := Some radius; news.Limit := news.Limit req |}.

Definition with_Limit (req : news.QueryRequest) (limit : Z) : news.QueryRequest :=
  {| news.QueryText := news.QueryText req; news.Lat := news.Lat req; news.Lon := news.Lon req;
     news.Radius := news.Radius req; news.Limit := limit |}.

(** The request that [Query] reads from the parameters of a GET, or the
    reply that ends the handler. *)
Definition read_parameters (r : Request) : Reply + news.QueryRequest :=
  let req := {| news.QueryText := Get (URL_Query r) "query"; news.Lat := None; news.Lon := None;
                news.Radius := None; news.Limit := 0 |} in
  if String.eqb (news.QueryText req) "" then
    inl (Error "query parameter is required" StatusBadRequest)
  else
    let latStr := Get (URL_Query r) "lat" in
    let lat :=
      if negb (String.eqb latStr "") then
        match strconv_ParseFloat latStr with
        | Some lat =>
            if F64.geb lat (F64.of_int (-90)) && F64.leb lat (F64.of_int 90)
            then inr (with_Lat req lat)
            else inl (Error "invalid latitude value" StatusBadRequest)
        | None => inl (Error "invalid latitude value" StatusBadRequest)
        end
      else inr req in
    match lat with
    | inl reply => inl reply
    | inr req =>
        let lonStr := Get (URL_Query r) "lon" in
        let lon :=
          if negb (String.eqb lonStr "") then
            match strconv_ParseFloat lonStr with
            | Some lon =>
                if F64.geb lon (F64.of_int (-180)) && F64.leb lon (F64.of_int 180)
                then inr (with_Lon req lon)
                else inl (Error "invalid longitude value" StatusBadRequest)
            | None => inl (Error "invalid longitude value" StatusBadRequest)
            end
          else inr req in
        match lon with
        | inl reply => inl reply
        | inr req =>
            let radiusStr := Get (URL_Query r) "radius" in
            let radius :=
              if negb (String.eqb radiusStr "") then
                match strconv_ParseFloat radiusStr with
                | Some radius =>
                    if F64.gtb radius (F64.of_int 0) && F64.leb radius (F64.of_int 200)
                    then inr (with_Radius req radius)
                    else inl (Error "invalid radius value (must be 0.1-200 km)" StatusBadRequest)
                | None => inl (Error "invalid radius value (must be 0.1-200 km)" StatusBadRequest)
                end
              else inr req in
            match radius with
            | inl reply => inl reply
            | inr req =>
                let limitStr := Get (URL_Query r) "limit" in
                if negb (String.eqb limitStr "") then
                  match Atoi limitStr with
                  | Some limit =>
                      if (0 <? limit) && (limit <=? 50)
                      then inr (with_Limit req limit)
                      else inl (Error "invalid limit value (must be 1-50)" StatusBadRequest)
                  | None => inl (Error "invalid limit value (must be 1-50)" StatusBadRequest)
                  end
                else inr req
            end
        end
    end.

(** [NewsHandler.Query] *)
Definition Query (r : Request) : Reply :=
  let read :=
    if String.eqb (Method r) "GET" then read_parameters r
    else
      match Body r with
      | Ok req => inr req
      | Err _ => inl (Error "invalid request body" StatusBadRequest)
      end in
  match read with
  | inl reply => reply
  | inr req =>
      if String.eqb (news.QueryText req) "" then Error "query is required" StatusBadRequest
      else
        let req := if news.Limit req <=? 0 then with_Limit req 5 else req in
        match newsService_Query req with
        | Err err => Error ("Failed to process query: " ++ err) StatusInternalServerError
        | Ok response => Encoded response
        end
  end.

(** [NewsHandler.Trending] *)
Definition Trending (r : Request) : Reply :=
  let latStr := Get (URL_Query r) "lat" in
  let lonStr := Get (URL_Query r) "lon" in
  let limitStr := Get (URL_Query r) "limit" in
  if String.eqb latStr "" || String.eqb lonStr "" then
    Error "latitude and longitude are required" StatusBadRequest
  else
    match strconv_ParseFloat latStr with
    | None => Error "invalid latitude" StatusBadRequest
    | Some lat =>
        if F64.ltb lat (F64.of_int (-90)) || F64.gtb lat (F64.of_int 90) then
          Error "invalid latitude" StatusBadRequest
        else
          match strconv_ParseFloat lonStr with
          | None => Error "invalid longitude" StatusBadRequest
          | Some lon =>
              if F64.ltb lon (F64.of_int (-180)) || F64.gtb lon (F64.of_int 180) then
                Error "invalid longitude" StatusBadRequest
              else
                let limit :=
                  if negb (String.eqb limitStr "") then
                    match Atoi limitStr with
                    | Some l => if (0 <? l) && (l <=? 50) then l else 5
                    | None => 5
                    end
                  else 5 in
                let req := {| news.QueryText := "trending news near me";
                              news.Lat := Some lat;
                              news.Lon := Some lon;
                              news.Radius := Some (F64.of_int 50);
                              news.Limit := limit |} in
                match newsService_Query req with
                | Err err => Error err StatusInternalServerError
                | Ok response => Encoded response
                end
          end
    end.

End Handlers.

End http.


(* ===================================================================== *)
(** ** Package ingest: the loader *)
(* ===================================================================== *)

Module ingest.

(** [hex.EncodeToString]; a byte is an [ascii]. *)
Definition hextable : string := "0123456789abcdef".

Definition hex_digit (n : N) : ascii :=
  match String.get (N.to_nat n) hextable with
  | Some c => c
  | None => "0"%char
  end.

Fixpoint EncodeToString (bytes : list ascii) : string :=
  match bytes with
  | [] => ""
  | b :: bytes' =>
      String (hex_digit (N_of_ascii b / 16))
             (String (hex_digit (N_of_ascii b mod 16)) (EncodeToString bytes'))
  end.

(** [generateID]; [bytes] is the buffer of 8 bytes as [rand.Read] leaves
    it. *)
Definition generateID (bytes : list ascii) : string := EncodeToString bytes.

(** What [LoadFromFile] finds under a path: a file that does not open, one
    that does not decode, or the articles decoded. *)
Inductive file :=
| Unopened (err : error)
| Undecodable (err : error)
| Decoded (articles : list news.ArticleDTO).

Section Loader.
Context `{cache.Placement} `{repo.GoJSON}.

(** [LoadArticle] on the repository of this program; [bytes] is what
    [rand.Read] yields for this article. *)
Definition LoadArticle (r : repo.repository) (bytes : list ascii) (article : news.ArticleDTO)
  : repo.repository * option error :=
  let id := generateID bytes in
  let dbArticle := {|
    repo.Create_ID := id;
    repo.Create_Title := news.Title article;
    repo.Create_Description := news.Description article;
    repo.Create_URL := news.URL article;
    repo.Create_PublicationDate := news.PublicationDate article;
    repo.Create_SourceName := news.SourceName article;
    repo.Create_Category := news.Category article;
    repo.Create_RelevanceScore := news.RelevanceScore article;
    repo.Create_Latitude := news.Latitude article;
    repo.Create_Longitude := news.Longitude article
  |} in
  match repo.CreateArticle r dbArticle with
  | (r', Err err) => (r', Some ("failed to create article: " ++ err)%string)
  | (r', Ok _) => (r', None)
  end.

(** The loop of [LoadFromFile]: an article that fails to load is skipped.
    [draws i] is what [rand.Read] yields for the article at index [i]. *)
Fixpoint load_loop (r : repo.repository) (draws : nat -> list ascii) (i : nat)
  (articles : list news.ArticleDTO) : repo.repository :=
  match articles with
  | [] => r
  | article :: articles' => load_loop (fst (LoadArticle r (draws i) article)) draws (S i) articles'
  end.

(** [LoadFromFile] *)
Definition LoadFromFile (r : repo.repository) (filePath : string) (f : file)
  (draws : nat -> list ascii) : repo.repository * option error :=
  match f with
  | Unopened err => (r, Some ("failed to open file " ++ filePath ++ ": " ++ err)%string)
  | Undecodable err => (r, Some ("failed to decode JSON from " ++ filePath ++ ": " ++ err)%string)
  | Decoded articles => (load_loop r draws 0 articles, None)
  end.

End Loader.

End ingest.


(* ===================================================================== *)
(** * Properties *)
(* ===================================================================== *)

(** ** The order of float64 *)

Section Float64Order.

Definition not_nan (x : float64) : Prop := F64.is_nan x = false.

Lemma ltb_key (x y : float64) :
  not_nan x -> not_nan y -> (F64.ltb x y = true <-> F64.key_lt (F64.key x) (F64.key y)).
Proof.
  unfold not_nan, F64.ltb, SFltb, F64.key_lt.
  destruct x as [sx|sx| |sx mx ex], y as [sy|sy| |sy my ey]; simpl; try discriminate;
    intros _ _;
    repeat match goal with s : bool |- _ => destruct s end; simpl;
    try (split; [discriminate | lia]); try (split; [lia | reflexivity]).
  - change (Pos.compare_cont Eq mx my) with (Pos.compare mx my).
    destruct (Z.compare_spec ex ey); destruct (Pos.compare_spec mx my); simpl;
      split; intros; try discriminate; try reflexivity; try lia.
  - change (Pos.compare_cont Eq mx my) with (Pos.compare mx my).
    destruct (Z.compare_spec ex ey); destruct (Pos.compare_spec mx my); simpl;
      split; intros; try discriminate; try reflexivity; try lia.
Qed.

Lemma ltb_false_key (x y : float64) :
  not_nan x -> not_nan y -> (F64.ltb x y = false <-> ~ F64.key_lt (F64.key x) (F64.key y)).
Proof.
  intros Hx Hy. rewrite <- (ltb_key x y Hx Hy). destruct (F64.ltb x y); split; congruence.
Qed.

Lemma leb_ltb (x y : float64) :
  not_nan x -> not_nan y -> F64.leb x y = negb (F64.ltb y x).
Proof.
  unfold not_nan, F64.leb, F64.ltb, SFleb, SFltb.
  destruct x as [sx|sx| |sx mx ex], y as [sy|sy| |sy my ey]; simpl; try discriminate;
    intros _ _;
    repeat match goal with s : bool |- _ => destruct s end; simpl; try reflexivity.
  - change (Pos.compare_cont Eq mx my) with (Pos.compare mx my).
    change (Pos.compare_cont Eq my mx) with (Pos.compare my mx).
    rewrite (Z.compare_antisym ex ey), (Pos.compare_antisym mx my).
    destruct (ex ?= ey); destruct (mx ?= my)%positive; reflexivity.
  - change (Pos.compare_cont Eq mx my) with (Pos.compare mx my).
    change (Pos.compare_cont Eq my mx) with (Pos.compare my mx).
    rewrite (Z.compare_antisym ex ey), (Pos.compare_antisym mx my).
    destruct (ex ?= ey); destruct (mx ?= my)%positive; reflexivity.
Qed.

(** Strict order, and negative transitivity: the float64 values other than
    NaN are totally preordered. *)
Lemma ltb_trans (x y z : float64) :
  not_nan x -> not_nan y -> not_nan z ->
  F64.ltb x y = true -> F64.ltb y z = true -> F64.ltb x z = true.
Proof.
  intros Hx Hy Hz. rewrite !ltb_key by assumption. unfold F64.key_lt.
  destruct (F64.key x) as [a [b c]], (F64.key y) as [a' [b' c']], (F64.key z) as [a'' [b'' c'']].
  simpl. lia.
Qed.

Lemma ltb_irrefl (x : float64) : F64.ltb x x = false.
Proof.
  destruct (F64.is_nan x) eqn:Hx.
  - destruct x; try discriminate. reflexivity.
  - apply ltb_false_key; try assumption. unfold F64.key_lt. lia.
Qed.

Lemma ltb_asym (x y : float64) :
  not_nan x -> not_nan y -> F64.ltb x y = true -> F64.ltb y x = false.
Proof.
  intros Hx Hy. rewrite ltb_key, ltb_false_key by assumption. unfold F64.key_lt.
  destruct (F64.key x) as [a [b c]], (F64.key y) as [a' [b' c']]. simpl. lia.
Qed.

Lemma ltb_neg_trans (x y z : float64) :
  not_nan x -> not_nan y -> not_nan z ->
  F64.ltb x y = false -> F64.ltb y z = false -> F64.ltb x z = false.
Proof.
  intros Hx Hy Hz. rewrite !ltb_false_key by assumption. unfold F64.key_lt.
  destruct (F64.key x) as [a [b c]], (F64.key y) as [a' [b' c']], (F64.key z) as [a'' [b'' c'']].
  simpl. lia.
Qed.

Lemma ltb_lt_le_trans (x y z : float64) :
  not_nan x -> not_nan y -> not_nan z ->
  F64.ltb x y = true -> F64.ltb z y = false -> F64.ltb x z = true.
Proof.
  intros Hx Hy Hz. rewrite !ltb_key, ltb_false_key by assumption. unfold F64.key_lt.
  destruct (F64.key x) as [a [b c]], (F64.key y) as [a' [b' c']], (F64.key z) as [a'' [b'' c'']].
  simpl. lia.
Qed.

Lemma ltb_le_lt_trans (x y z : float64) :
  not_nan x -> not_nan y -> not_nan z ->
  F64.ltb y x = false -> F64.ltb y z = true -> F64.ltb x z = true.
Proof.
  intros Hx Hy Hz. rewrite !ltb_key, ltb_false_key by assumption. unfold F64.key_lt.
  destruct (F64.key x) as [a [b c]], (F64.key y) as [a' [b' c']], (F64.key z) as [a'' [b'' c'']].
  simpl. lia.
Qed.

End Float64Order.

(* ===================================================================== *)
(** ** The strategy selector *)
(* ===================================================================== *)

Section StrategySelector.

(** The synonyms of the five strategies. *)
Definition synonym (label : string) : option string :=
  if String.eqb label "category" || String.eqb label "topic" then Some "category"
  else if String.eqb label "source" || String.eqb label "publisher" then Some "source"
  else if String.eqb label "score" || String.eqb label "relevance" then Some "score"
  else if String.eqb label "nearby" || String.eqb label "location" || String.eqb label "local"
  then Some "nearby"
  else if String.eqb label "search" || String.eqb label "query" then Some "search"
  else None.

(** The intent of highest confidence, the earliest-listed among equals: an
    intent gives way to a later one only when its confidence is strictly
    smaller. *)
Fixpoint highest_confidence (intents : list llm.Intent) : option llm.Intent :=
  match intents with
  | [] => None
  | i :: rest =>
      match highest_confidence rest with
      | None => Some i
      | Some j => if F64.ltb (llm.Confidence i) (llm.Confidence j) then Some j else Some i
      end
  end.

(** The third and fourth rules: the entities decide. *)
Definition by_entities (extraction : llm.Extraction) : string :=
  if existsb news.isSource (news.getAllEntities extraction) then "source"
  else if existsb news.isCategory (news.getAllEntities extraction) then "category"
  else "search".

(** The decision order in the words of the design: coordinates, then the
    label of the best intent through the synonyms, then the entities. *)
Definition selector_as_specified (extraction : llm.Extraction) (req : news.QueryRequest) : string :=
  match news.Lat req, news.Lon req with
  | Some _, Some _ => "nearby"
  | _, _ =>
      match highest_confidence (llm.Intent_ extraction) with
      | Some best =>
          match synonym (llm.Type_ best) with
          | Some strategy => strategy
          | None => by_entities extraction
          end
      | None => by_entities extraction
      end
  end.

(** The decision order of the code: the label is lower-cased, and an empty
    list of intents counts as the label "search". *)
Definition selector (extraction : llm.Extraction) (req : news.QueryRequest) : string :=
  match news.Lat req, news.Lon req with
  | Some _, Some _ => "nearby"
  | _, _ =>
      let label :=
        match highest_confidence (llm.Intent_ extraction) with
        | Some best => llm.Type_ best
        | None => "search"
        end in
      match synonym (Strings.ToLower label) with
      | Some strategy => strategy
      | None => by_entities extraction
      end
  end.

Definition confidences_not_nan (intents : list llm.Intent) : Prop :=
  Forall (fun i => not_nan (llm.Confidence i)) intents.

Definition pick (b : llm.Intent) (later : option llm.Intent) : llm.Intent :=
  match later with
  | None => b
  | Some y => if F64.gtb (llm.Confidence y) (llm.Confidence b) then y else b
  end.

Lemma fold_better (intents : list llm.Intent) (b : llm.Intent) :
  not_nan (llm.Confidence b) -> confidences_not_nan intents ->
  fold_left news.better intents (Some b) = Some (pick b (highest_confidence intents)).
Proof.
  revert b. induction intents as [|x rest IH]; intros b Hb Hall; [reflexivity|].
  inversion Hall as [|? ? Hx Hrest]; subst. cbn [fold_left news.better highest_confidence].
  assert (Hin : forall y, highest_confidence rest = Some y -> not_nan (llm.Confidence y)).
  { clear -Hrest. intros y. induction Hrest as [|z l Hz Hl IHl]; simpl; [discriminate|].
    destruct (highest_confidence l) as [j|].
    - destruct (F64.ltb _ _); intros [= <-]; auto.
    - intros [= <-]; auto. }
  unfold F64.gtb in *.
  destruct (F64.ltb (llm.Confidence b) (llm.Confidence x)) eqn:Hbx; cbv beta iota.
  - rewrite IH by assumption. f_equal.
    destruct (highest_confidence rest) as [y|] eqn:Hy; simpl.
    + specialize (Hin y eq_refl).
      destruct (F64.ltb (llm.Confidence x) (llm.Confidence y)) eqn:Hxy; simpl; unfold F64.gtb.
      * rewrite Hxy. now rewrite (ltb_trans _ _ _ Hb Hx Hin Hbx Hxy).
      * rewrite Hxy, Hbx. reflexivity.
    + unfold F64.gtb. now rewrite Hbx.
  - rewrite IH by assumption. f_equal.
    destruct (highest_confidence rest) as [y|] eqn:Hy; simpl.
    + specialize (Hin y eq_refl).
      destruct (F64.ltb (llm.Confidence x) (llm.Confidence y)) eqn:Hxy; simpl; unfold F64.gtb.
      * reflexivity.
      * rewrite Hbx. now rewrite (ltb_neg_trans _ _ _ Hb Hx Hin Hbx Hxy).
    + unfold F64.gtb. now rewrite Hbx.
Qed.

Lemma getBestIntent_highest (extraction : llm.Extraction) :
  confidences_not_nan (llm.Intent_ extraction) ->
  news.getBestIntent extraction =
  match highest_confidence (llm.Intent_ extraction) with
  | Some best => llm.Type_ best
  | None => "search"
  end.
Proof.
  unfold news.getBestIntent. destruct (llm.Intent_ extraction) as [|x rest]; [reflexivity|].
  intros Hall. inversion Hall as [|? ? Hx Hrest]; subst.
  cbn [fold_left news.better]. rewrite fold_better by assumption.
  cbn [highest_confidence]. destruct (highest_confidence rest) as [y|]; simpl; [|reflexivity].
  unfold F64.gtb. destruct (F64.ltb _ _); reflexivity.
Qed.

(** What [highest_confidence] answers is listed, no listed intent has a
    greater confidence, and every intent listed before it has a strictly
    smaller one. *)
Lemma highest_confidence_spec (intents : list llm.Intent) (best : llm.Intent) :
  confidences_not_nan intents ->
  highest_confidence intents = Some best ->
  exists k : nat,
    intents !! k = Some best /\
    (forall j c, intents !! j = Some c ->
                 F64.gtb (llm.Confidence c) (llm.Confidence best) = false) /\
    (forall j c, (j < k)%nat -> intents !! j = Some c ->
                 F64.ltb (llm.Confidence c) (llm.Confidence best) = true).
Proof.
  unfold F64.gtb. revert best.
  induction intents as [|x rest IH]; intros best Hall; [discriminate|].
  inversion Hall as [|? ? Hx Hrest]; subst. simpl.
  destruct (highest_confidence rest) as [y|] eqn:Hy.
  - destruct (IH y Hrest eq_refl) as (k & Hk & Hmax & Hbefore).
    assert (Hyn : not_nan (llm.Confidence y)).
    { unfold confidences_not_nan in Hrest. rewrite Forall_forall in Hrest.
      apply Hrest. eapply list_elem_of_lookup_2. exact Hk. }
    destruct (F64.ltb (llm.Confidence x) (llm.Confidence y)) eqn:Hxy; intros [= <-].
    + exists (S k). split; [exact Hk|]. split.
      * intros [|j] c Hc; simpl in Hc.
        -- injection Hc as <-. now apply ltb_asym.
        -- eauto.
      * intros [|j] c Hlt Hc; simpl in Hc.
        -- injection Hc as <-. exact Hxy.
        -- apply (Hbefore j); [lia | exact Hc].
    + exists 0%nat. split; [reflexivity|]. split.
      * intros [|j] c Hc; simpl in Hc.
        -- injection Hc as <-. apply ltb_irrefl.
        -- assert (Hcn : not_nan (llm.Confidence c)).
           { unfold confidences_not_nan in Hrest. rewrite Forall_forall in Hrest.
             apply Hrest. eapply list_elem_of_lookup_2. exact Hc. }
           apply (ltb_neg_trans _ (llm.Confidence y)); auto. eapply Hmax; eauto.
      * intros j c Hlt. lia.
  - intros [= <-]. exists 0%nat. split; [reflexivity|]. split.
    + intros [|j] c Hc; simpl in Hc.
      * injection Hc as <-. apply ltb_irrefl.
      * destruct rest; [discriminate|]. simpl in Hy.
        destruct (highest_confidence rest); [destruct (F64.ltb _ _)|]; discriminate.
    + intros j c Hlt. lia.
Qed.

Lemma hasSourceEntities_isSource (entities : list string) :
  news.hasSourceEntities entities = existsb news.isSource entities.
Proof. reflexivity. Qed.

Lemma hasCategoryEntities_isCategory (entities : list string) :
  news.hasCategoryEntities entities = existsb news.isCategory entities.
Proof. reflexivity. Qed.

Lemma determineStrategy_label (extraction : llm.Extraction) (req : news.QueryRequest) :
  news.determineStrategy extraction req =
  match news.Lat req, news.Lon req with
  | Some _, Some _ => "nearby"
  | _, _ =>
      match synonym (Strings.ToLower (news.getBestIntent extraction)) with
      | Some strategy => strategy
      | None => by_entities extraction
      end
  end.
Proof.
  unfold news.determineStrategy, synonym, by_entities.
  rewrite hasSourceEntities_isSource, hasCategoryEntities_isCategory.
  destruct (news.Lat req), (news.Lon req); try reflexivity;
    repeat match goal with |- context [if ?b then _ else _] => destruct b end; reflexivity.
Qed.

(** C1 (as the code has it).  [determineStrategy] is the first-match
    decision list [selector]: both coordinates present gives "nearby";
    otherwise the label of the highest-confidence intent, the earliest
    listed among equals and "search" when none is listed, is lower-cased
    and mapped through the synonyms; otherwise a recognized source name
    among the entities gives "source", a recognized category name
    "category"; otherwise "search".  The intent chosen is a listed one of
    maximal confidence with every earlier intent strictly below it. *)
Theorem determineStrategy_decision_order (extraction : llm.Extraction) (req : news.QueryRequest) :
  confidences_not_nan (llm.Intent_ extraction) ->
  news.determineStrategy extraction req = selector extraction req /\
  (forall best, highest_confidence (llm.Intent_ extraction) = Some best ->
     exists k : nat,
       llm.Intent_ extraction !! k = Some best /\
       (forall j c, llm.Intent_ extraction !! j = Some c ->
                    F64.gtb (llm.Confidence c) (llm.Confidence best) = false) /\
       (forall j c, (j < k)%nat -> llm.Intent_ extraction !! j = Some c ->
                    F64.ltb (llm.Confidence c) (llm.Confidence best) = true)).
Proof.
  intros Hall. split.
  - rewrite determineStrategy_label. unfold selector.
    rewrite getBestIntent_highest by assumption. reflexivity.
  - intros best. now apply highest_confidence_spec.
Qed.

(** Inputs for the selector. *)
Definition no_entities : llm.Entities_ :=
  {| llm.People := []; llm.Organizations := []; llm.Locations := [] |}.

Definition extraction_of (intents : list llm.Intent) (source_names : list string) : llm.Extraction :=
  {| llm.Entities := no_entities; llm.Concepts := []; llm.Intent_ := intents;
     llm.RadiusKm := None; llm.SourceNames := source_names; llm.Categories := [] |}.

Definition text_request (q : string) (limit : Z) : news.QueryRequest :=
  {| news.QueryText := q; news.Lat := None; news.Lon := None; news.Radius := None;
     news.Limit := limit |}.

Definition two_intents : list llm.Intent :=
  [ {| llm.Type_ := "topic"; llm.Confidence := F64.dec 9 1 |};
    {| llm.Type_ := "source"; llm.Confidence := F64.dec 9 1 |} ].

Lemma determineStrategy_decision_order_witness :
  confidences_not_nan two_intents /\
  news.determineStrategy (extraction_of two_intents ["BBC"]) (text_request "bbc tech" 5) = "category".
Proof.
  assert (H : confidences_not_nan two_intents) by (repeat constructor).
  split; [exact H|].
  rewrite (proj1 (determineStrategy_decision_order
                    (extraction_of two_intents ["BBC"]) (text_request "bbc tech" 5) H)).
  reflexivity.
Defined.

(** C1 as stated fails in two ways.  With no intent listed the code answers
    "search" although a recognized source is among the entities; and a
    label that differs from a synonym by its case only is mapped all the
    same, before the entities are looked at. *)
Lemma determineStrategy_not_as_specified :
  (news.determineStrategy (extraction_of [] ["Reuters"]) (text_request "reuters" 5) = "search" /\
   selector_as_specified (extraction_of [] ["Reuters"]) (text_request "reuters" 5) = "source") /\
  (news.determineStrategy
     (extraction_of [ {| llm.Type_ := "Topic"; llm.Confidence := F64.dec 9 1 |} ] ["Reuters"])
     (text_request "reuters" 5) = "category" /\
   selector_as_specified
     (extraction_of [ {| llm.Type_ := "Topic"; llm.Confidence := F64.dec 9 1 |} ] ["Reuters"])
     (text_request "reuters" 5) = "source").
Proof. repeat split; vm_compute; reflexivity. Qed.

End StrategySelector.

(* ===================================================================== *)
(** ** Insertion sort under a strict weak order *)
(* ===================================================================== *)

Section InsertionSort.
Context {A : Type}.
Variable less : A -> A -> bool.




(** [tie a x]: neither is less than the other. *)
Definition tie (a x : A) : bool := negb (less a x) && negb (less x a).

Variable P : A -> Prop.
Hypothesis less_asym : forall x y, P x -> P y -> less x y = true -> less y x = false.
Hypothesis less_neg_trans :
  forall x y z, P x -> P y -> P z -> less x y = false -> less y z = false -> less x z = false.









End InsertionSort.

(* ===================================================================== *)
(** ** [insertionSort_func] on a whole slice, and short slices *)
(* ===================================================================== *)

Section ShortSlices.
Context {A : Type}.
Variable less : A -> A -> bool.

Lemma lookup_adjacent (l1 l2 : list A) (y x : A) :
  (l1 ++ y :: x :: l2) !! (length l1 + 1 - 1)%nat = Some y /\
  (l1 ++ y :: x :: l2) !! (length l1 + 1)%nat = Some x.
Proof.
  split.
  - replace (length l1 + 1 - 1)%nat with (length l1) by lia. apply list_lookup_middle. reflexivity.
  - rewrite lookup_app_r by lia.
    replace (length l1 + 1 - length l1)%nat with 1%nat by lia. reflexivity.
Qed.

Lemma Less_adjacent (l1 l2 : list A) (y x : A) :
  sort.Less less (l1 ++ y :: x :: l2) (length l1 + 1) (length l1 + 1 - 1) = less x y.
Proof.
  unfold sort.Less. destruct (lookup_adjacent l1 l2 y x) as [-> ->]. reflexivity.
Qed.

Lemma Swap_adjacent (l1 l2 : list A) (y x : A) :
  sort.Swap (l1 ++ y :: x :: l2) (length l1 + 1) (length l1 + 1 - 1) = l1 ++ x :: y :: l2.
Proof.
  unfold sort.Swap. destruct (lookup_adjacent l1 l2 y x) as [-> ->].
  replace (length l1 + 1 - 1)%nat with (length l1 + 0)%nat by lia.
  rewrite !insert_app_r. reflexivity.
Qed.

(** The inner loop moves the element at [j] left to its place in the
    sorted part before it. *)
Lemma insertion_shift_insert_left (rp : list A) :
  forall (x : A) (front back : list A) (fuel : nat),
    (length rp <= fuel)%nat ->
    sort.insertion_shift less fuel (front ++ rev rp ++ x :: back)
                         (length front) (length front + length rp)
    = front ++ rev (sort.insert_left less x rp) ++ back.
Proof.
  induction rp as [|y rp IH]; intros x front back fuel Hfuel.
  - cbn [rev app sort.insert_left length]. destruct fuel as [|fuel]; [reflexivity|].
    cbn [sort.insertion_shift].
    destruct (Nat.ltb_spec (length front) (length front + 0)); [lia | reflexivity].
  - destruct fuel as [|fuel]; [simpl in Hfuel; lia|].
    cbn [sort.insertion_shift length rev sort.insert_left].
    destruct (Nat.ltb_spec (length front) (length front + S (length rp))); [|lia].
    cbn [andb].
    assert (Hdata : front ++ (rev rp ++ [y]) ++ x :: back = (front ++ rev rp) ++ y :: x :: back)
      by (now rewrite <- !app_assoc).
    assert (Hj : (length front + S (length rp) = length (front ++ rev rp) + 1)%nat)
      by (rewrite length_app, length_rev; lia).
    rewrite Hdata, Hj, Less_adjacent, Swap_adjacent.
    destruct (less x y).
    + replace (length (front ++ rev rp) + 1 - 1)%nat with (length front + length rp)%nat
        by (rewrite length_app, length_rev; lia).
      rewrite <- app_assoc.
      rewrite (IH x front (y :: back) fuel) by (simpl in Hfuel; lia).
      cbn [rev]. now rewrite <- !app_assoc.
    + cbn [rev]. now rewrite <- !app_assoc.
Qed.

Lemma insert_left_length (x : A) (rp : list A) :
  length (sort.insert_left less x rp) = S (length rp).
Proof.
  induction rp as [|y rp IH]; [reflexivity|].
  cbn [sort.insert_left]. destruct (less x y); cbn [length]; [now rewrite IH | reflexivity].
Qed.

Lemma insertion_loop_fold (rest : list A) :
  forall rp : list A,
    fold_left (fun data i => sort.insertion_shift less (i - 0) data 0 i)
              (seq (length rp) (length rest)) (rev rp ++ rest)
    = rev (fold_left (fun rp x => sort.insert_left less x rp) rest rp).
Proof.
  induction rest as [|x rest IH]; intros rp.
  - cbn [length seq fold_left]. now rewrite app_nil_r.
  - cbn [length seq fold_left]. rewrite Nat.sub_0_r.
    pose proof (insertion_shift_insert_left rp x [] rest (length rp) (le_n _)) as Hshift.
    cbn [app length Nat.add] in Hshift. rewrite Hshift.
    rewrite <- (insert_left_length x rp). apply IH.
Qed.

(** [insertionSort_func] on the whole of a slice inserts its elements one
    after the other. *)
Lemma insertionSort_func_insertion (data : list A) :
  sort.insertionSort_func less data 0 (length data) = sort.insertion less data.
Proof.
  unfold sort.insertionSort_func, sort.insertion. destruct data as [|x data]; [reflexivity|].
  cbn [length fold_left sort.insert_left]. change (0 + 1)%nat with 1%nat.
  replace (S (length data) - 1)%nat with (length data) by lia.
  apply (insertion_loop_fold data [x]).
Qed.

(** [sort.Slice] sorts a slice of at most 12 elements by insertion. *)
Lemma Slice_short `{GoLibrary} (x : list A) :
  (length x <= sort.maxInsertion)%nat -> sort.Slice less x = sort.insertion less x.
Proof.
  intros Hlen. unfold sort.Slice. cbn [sort.pdqsort_func]. rewrite Nat.sub_0_r.
  destruct (Nat.leb_spec (length x) sort.maxInsertion); [|lia].
  apply insertionSort_func_insertion.
Qed.

End ShortSlices.

(* ===================================================================== *)
(** ** [sort.Slice] rearranges *)
(* ===================================================================== *)

Section Rearrangement.
Context `{GoLibrary} {A : Type}.
Variable less : A -> A -> bool.

Lemma insert_perm (d : list A) :
  forall (k : nat) (y a : A), d !! k = Some y -> Permutation (y :: <[k := a]> d) (a :: d).
Proof.
  induction d as [|b d IH]; intros k y a Hk; [discriminate|].
  destruct k as [|k]; simpl in *.
  - injection Hk as ->. apply perm_swap.
  - rewrite perm_swap, (IH k y a Hk). apply perm_swap.
Qed.

Lemma Swap_perm (data : list A) : forall i j : nat, Permutation (sort.Swap data i j) data.
Proof.
  unfold sort.Swap. induction data as [|a d IH]; intros i j; [now destruct i|].
  destruct (_ !! i) as [x|] eqn:Hi; [|reflexivity].
  destruct (_ !! j) as [y|] eqn:Hj; [|reflexivity].
  destruct i as [|i], j as [|j]; simpl in *.
  - now injection Hi as ->.
  - injection Hi as ->. now apply insert_perm.
  - injection Hj as ->. now apply insert_perm.
  - apply perm_skip. specialize (IH i j). now rewrite Hi, Hj in IH.
Qed.

Lemma fold_left_perm {I : Type} (f : list A -> I -> list A) (l : list I) :
  (forall d i, Permutation (f d i) d) -> forall d, Permutation (fold_left f l d) d.
Proof.
  intros Hf. induction l as [|i l IH]; intros d; simpl; [reflexivity|].
  now rewrite IH.
Qed.

Ltac loop_perm IH :=
  repeat match goal with
         | |- Permutation (if ?c then _ else _) _ => destruct c
         | |- Permutation (fst (if ?c then _ else _)) _ => destruct c
         | |- Permutation (fst (let '(_, _) := ?p in _)) _ => destruct p eqn:?
         end;
  cbn [fst]; rewrite ?IH, ?Swap_perm; try reflexivity.

Lemma insertion_shift_perm (fuel : nat) :
  forall data a j, Permutation (sort.insertion_shift less fuel data a j) data.
Proof.
  induction fuel as [|fuel IH]; intros data a j; cbn [sort.insertion_shift]; loop_perm IH.
Qed.

Lemma insertionSort_func_perm (data : list A) (a b : nat) :
  Permutation (sort.insertionSort_func less data a b) data.
Proof.
  unfold sort.insertionSort_func. apply fold_left_perm. intros. apply insertion_shift_perm.
Qed.

Lemma siftDown_loop_perm (fuel : nat) :
  forall data root hi first, Permutation (sort.siftDown_loop less fuel data root hi first) data.
Proof.
  induction fuel as [|fuel IH]; intros data root hi first; cbn [sort.siftDown_loop]; cbv zeta;
    loop_perm IH.
Qed.

Lemma siftDown_func_perm (data : list A) (lo hi first : nat) :
  Permutation (sort.siftDown_func less data lo hi first) data.
Proof. apply siftDown_loop_perm. Qed.

Lemma heapSort_func_perm (data : list A) (a b : nat) :
  Permutation (sort.heapSort_func less data a b) data.
Proof.
  unfold sort.heapSort_func. cbv zeta.
  rewrite fold_left_perm by (intros; now rewrite siftDown_func_perm, Swap_perm).
  apply fold_left_perm. intros. apply siftDown_func_perm.
Qed.

Lemma partition_loop_perm (fuel : nat) :
  forall data a i j, Permutation (fst (sort.partition_loop less fuel data a i j)) data.
Proof.
  induction fuel as [|fuel IH]; intros data a i j; cbn [sort.partition_loop]; cbv zeta;
    loop_perm IH.
Qed.

Lemma partition_func_perm (data : list A) (a b pivot : nat) :
  Permutation (fst (fst (sort.partition_func less data a b pivot))) data.
Proof.
  unfold sort.partition_func. cbv zeta.
  destruct (_ <? _)%nat; cbn [fst]; [now rewrite !Swap_perm|].
  destruct (sort.partition_loop _ _ _ _ _ _) as [data' j] eqn:Hloop. cbn [fst].
  rewrite Swap_perm. change data' with (fst (data', j)). rewrite <- Hloop.
  now rewrite partition_loop_perm, !Swap_perm.
Qed.

Lemma partitionEqual_loop_perm (fuel : nat) :
  forall data a i j, Permutation (fst (sort.partitionEqual_loop less fuel data a i j)) data.
Proof.
  induction fuel as [|fuel IH]; intros data a i j; cbn [sort.partitionEqual_loop]; cbv zeta;
    loop_perm IH.
Qed.

Lemma partitionEqual_func_perm (data : list A) (a b pivot : nat) :
  Permutation (fst (sort.partitionEqual_func less data a b pivot)) data.
Proof.
  unfold sort.partitionEqual_func. now rewrite partitionEqual_loop_perm, Swap_perm.
Qed.

Lemma shift_left_perm (fuel : nat) :
  forall data j, Permutation (sort.shift_left less fuel data j) data.
Proof.
  induction fuel as [|fuel IH]; intros data j; cbn [sort.shift_left]; loop_perm IH.
Qed.

Lemma shift_right_perm (fuel : nat) :
  forall data j b, Permutation (sort.shift_right less fuel data j b) data.
Proof.
  induction fuel as [|fuel IH]; intros data j b; cbn [sort.shift_right]; loop_perm IH.
Qed.

Lemma partialInsertionSort_loop_perm (steps : nat) :
  forall data a b i, Permutation (fst (sort.partialInsertionSort_loop less steps data a b i)) data.
Proof.
  induction steps as [|steps IH]; intros data a b i;
    cbn [sort.partialInsertionSort_loop]; cbv zeta; [reflexivity|].
  destruct (_ =? _)%nat; [reflexivity|]. destruct (_ <? _)%nat; [reflexivity|].
  rewrite IH.
  destruct (2 <=? b - _)%nat; rewrite ?shift_right_perm;
    destruct (2 <=? _ - a)%nat; rewrite ?shift_left_perm; apply Swap_perm.
Qed.

Lemma partialInsertionSort_func_perm (data : list A) (a b : nat) :
  Permutation (fst (sort.partialInsertionSort_func less data a b)) data.
Proof. apply partialInsertionSort_loop_perm. Qed.

Lemma breakPatterns_loop_perm (steps : nat) :
  forall (data : list A) a len idx i random modulus,
    Permutation (sort.breakPatterns_loop steps data a len idx i random modulus) data.
Proof.
  induction steps as [|steps IH]; intros data a len idx i random modulus;
    cbn [sort.breakPatterns_loop]; cbv zeta; [reflexivity|].
  now rewrite IH, Swap_perm.
Qed.

Lemma breakPatterns_func_perm (data : list A) (a b : nat) :
  Permutation (sort.breakPatterns_func data a b) data.
Proof.
  unfold sort.breakPatterns_func. cbv zeta. destruct (8 <=? _)%nat; [|reflexivity].
  apply breakPatterns_loop_perm.
Qed.

Lemma reverseRange_loop_perm (fuel : nat) :
  forall (data : list A) i j, Permutation (sort.reverseRange_loop fuel data i j) data.
Proof.
  induction fuel as [|fuel IH]; intros data i j; cbn [sort.reverseRange_loop]; loop_perm IH.
Qed.

Lemma reverseRange_func_perm (data : list A) (a b : nat) :
  Permutation (sort.reverseRange_func data a b) data.
Proof. apply reverseRange_loop_perm. Qed.

Lemma pdqsort_func_perm (fuel : nat) :
  forall data a b limit wasBalanced wasPartitioned,
    Permutation (sort.pdqsort_func less fuel data a b limit wasBalanced wasPartitioned) data.
Proof.
  induction fuel as [|fuel IH]; intros data a b limit wasBalanced wasPartitioned;
    cbn [sort.pdqsort_func]; cbv zeta; [reflexivity|].
  destruct (_ <=? sort.maxInsertion)%nat; [apply insertionSort_func_perm|].
  destruct (limit =? 0)%nat; [apply heapSort_func_perm|].
  set (broken := if negb wasBalanced then _ else _).
  assert (Hbroken : Permutation (fst broken) data).
  { subst broken. destruct (negb wasBalanced); cbn [fst];
      [apply breakPatterns_func_perm | reflexivity]. }
  destruct broken as [data1 limit1]. cbn [fst] in Hbroken.
  destruct (sort.choosePivot_func less data1 a b) as [pivot hint].
  set (reversed := match hint with sort.decreasingHint => _ | _ => _ end).
  assert (Hreversed : Permutation (fst (fst reversed)) data).
  { subst reversed. destruct hint; cbn [fst]; rewrite ?reverseRange_func_perm; exact Hbroken. }
  destruct reversed as [[data2 pivot2] hint2]. cbn [fst] in Hreversed.
  set (partial := match hint2 with sort.increasingHint => _ | _ => _ end).
  assert (Hpartial : Permutation (fst partial) data).
  { subst partial. destruct hint2; cbn [fst]; try exact Hreversed.
    destruct (wasBalanced && wasPartitioned); cbn [fst];
      rewrite ?partialInsertionSort_func_perm; exact Hreversed. }
  destruct partial as [data3 sorted]. cbn [fst] in Hpartial.
  destruct sorted; [exact Hpartial|].
  destruct (_ && _).
  - pose proof (partitionEqual_func_perm data3 a b pivot2) as Heq.
    destruct (sort.partitionEqual_func less data3 a b pivot2) as [data4 mid].
    cbn [fst] in Heq. now rewrite IH, Heq.
  - pose proof (partition_func_perm data3 a b pivot2) as Hpart.
    destruct (sort.partition_func less data3 a b pivot2) as [[data4 mid] already].
    cbn [fst] in Hpart. destruct (_ <? _)%nat; now rewrite !IH, Hpart.
Qed.

(** Whatever [less] is and however long the slice, [sort.Slice] leaves a
    rearrangement of it. *)
Lemma Slice_perm (x : list A) : Permutation (sort.Slice less x) x.
Proof. unfold sort.Slice. cbv zeta. apply pdqsort_func_perm. Qed.

End Rearrangement.

(* ===================================================================== *)
(** ** The ranker *)
(* ===================================================================== *)

(** An article with the fields that the comparators read. *)
Definition dto (id : string) (published : Z) (relevance : float64)
  (search distance : option float64) : news.ArticleDTO :=
  {| news.ID := id; news.Title := id; news.Description := None; news.URL := "";
     news.PublicationDate := published; news.SourceName := ""; news.Category := [];
     news.RelevanceScore := relevance; news.LLMSummary := None;
     news.Latitude := None; news.Longitude := None;
     news.DistanceMeters := distance; news.SearchScore := search |}.

(** A library to evaluate examples with: the generator stays where it is, a
    time is printed as the empty text, and the mathematical functions are
    the identity.  No example below reads any of them. *)
Definition example_library : GoLibrary := {|
  xorshift_Next := fun r => r;
  time_Format_RFC3339 := fun _ => "";
  math_Sin := fun x => x;
  math_Cos := fun x => x;
  math_Atan2 := fun y _ => y;
  fmt_f_value := fun x => x
|}.

(** [out] is [articles] ranked by [less]: the same articles, none less than
    one before it, and those that tie with any given article in the order
    they had in [articles]. *)
Definition ranked (less : news.ArticleDTO -> news.ArticleDTO -> bool)
  (articles out : list news.ArticleDTO) : Prop :=
  Permutation out articles /\
  StronglySorted (fun a b => less b a = false) out /\
  (forall a, In a articles -> List.filter (tie less a) out = List.filter (tie less a) articles).





Section Ranker.
Context `{GoLibrary}.


(** The meaning of the comparators. *)
Lemma after_false (a b : news.ArticleDTO) :
  news.after b a = false <-> news.PublicationDate b <= news.PublicationDate a.
Proof. unfold news.after. rewrite Z.ltb_ge. reflexivity. Qed.

Lemma by_relevance_false (a b : news.ArticleDTO) :
  not_nan (news.RelevanceScore a) -> not_nan (news.RelevanceScore b) ->
  (news.by_relevance b a = false <->
   F64.leb (news.RelevanceScore b) (news.RelevanceScore a) = true).
Proof.
  intros Ha Hb. unfold news.by_relevance, F64.gtb. rewrite leb_ltb by assumption.
  destruct (F64.ltb _ _); simpl; split; congruence.
Qed.



(** An entry without a distance ties with every entry. *)
Lemma by_distance_missing (a b : news.ArticleDTO) :
  news.DistanceMeters a = None -> news.by_distance a b = false /\ news.by_distance b a = false.
Proof.
  intros Ha. unfold news.by_distance. rewrite Ha.
  destruct (news.DistanceMeters b); auto.
Qed.


End Ranker.

Definition three_scored : list news.ArticleDTO :=
  [ dto "a" 30 (F64.dec 5 1) None None;
    dto "b" 10 (F64.dec 9 1) None None;
    dto "c" 20 (F64.dec 5 1) None None ].


(** Twelve articles of relevance 0.5 followed by one of relevance 0.9. *)
Definition thirteen_scored : list news.ArticleDTO :=
  map (fun id => dto id 0 (F64.dec 5 1) None None)
      ["a"; "b"; "c"; "d"; "e"; "f"; "g"; "h"; "i"; "j"; "k"; "l"]
  ++ [dto "m" 0 (F64.dec 9 1) None None].

(** The partition around the median "g" moves "g" to the front and "b" to
    the end of the articles of relevance 0.5. *)
Lemma rankArticles_thirteen_scored (L : GoLibrary) (req : news.QueryRequest) :
  map news.ID (@news.rankArticles L thirteen_scored "score" req)
  = ["m"; "g"; "c"; "d"; "e"; "f"; "a"; "h"; "i"; "j"; "k"; "l"; "b"].
Proof. vm_compute. reflexivity. Qed.


(* ===================================================================== *)
(** ** The enricher *)
(* ===================================================================== *)

(** [a'] is [a] up to its summary. *)
Definition same_but_summary (a a' : news.ArticleDTO) : Prop :=
  news.ID a' = news.ID a /\ news.Title a' = news.Title a /\
  news.Description a' = news.Description a /\ news.URL a' = news.URL a /\
  news.PublicationDate a' = news.PublicationDate a /\ news.SourceName a' = news.SourceName a /\
  news.Category a' = news.Category a /\ news.RelevanceScore a' = news.RelevanceScore a /\
  news.Latitude a' = news.Latitude a /\ news.Longitude a' = news.Longitude a /\
  news.DistanceMeters a' = news.DistanceMeters a /\ news.SearchScore a' = news.SearchScore a.

Section Enricher.
Context `{GoLibrary} `{llm.LLMClient}.

(** The text that the collecting loop keeps for an article: the summary of
    a call that succeeded, the empty text otherwise. *)
Definition kept (art : news.ArticleDTO) : string :=
  match news.summarize art with
  | (summary, None) => summary
  | (_, Some _) => ""
  end.

(** What becomes of one article. *)
Definition enriched (art : news.ArticleDTO) : news.ArticleDTO :=
  news.apply_summary art (kept art).

Lemma receive_length (articles : list news.ArticleDTO) (summaries : list string) (idx : nat) :
  length (news.receive articles summaries idx) = length summaries.
Proof.
  unfold news.receive. destruct (articles !! idx); [|reflexivity].
  destruct (news.summarize a) as [s [e|]]; [reflexivity|]. apply length_insert.
Qed.

Lemma receive_lookup (articles : list news.ArticleDTO) (summaries : list string) (idx i : nat) :
  length summaries = length articles ->
  news.receive articles summaries idx !! i =
  if decide (i = idx) then
    match articles !! i with
    | Some art => match news.summarize art with
                  | (summary, None) => Some summary
                  | (_, Some _) => summaries !! i
                  end
    | None => summaries !! i
    end
  else summaries !! i.
Proof.
  intros Hlen. unfold news.receive. destruct (decide (i = idx)) as [->|Hne].
  - destruct (articles !! idx) as [art|] eqn:Hart; [|reflexivity].
    destruct (news.summarize art) as [s [e|]]; [reflexivity|].
    apply list_lookup_insert_eq. rewrite Hlen. eapply lookup_lt_Some; eauto.
  - destruct (articles !! idx) as [art|]; [|reflexivity].
    destruct (news.summarize art) as [s [e|]]; [reflexivity|].
    apply list_lookup_insert_ne. congruence.
Qed.

Lemma collect_lookup (articles : list news.ArticleDTO) (received : list nat)
  (summaries : list string) (i : nat) (art : news.ArticleDTO) :
  length summaries = length articles ->
  articles !! i = Some art ->
  fold_left (news.receive articles) received summaries !! i =
  if decide (i ∈ received) then
    match news.summarize art with
    | (summary, None) => Some summary
    | (_, Some _) => summaries !! i
    end
  else summaries !! i.
Proof.
  intros Hlen Hart. revert summaries Hlen.
  induction received as [|idx rest IH]; intros summaries Hlen; [reflexivity|].
  cbn [fold_left]. rewrite IH by (now rewrite receive_length).
  rewrite receive_lookup by assumption. rewrite Hart.
  destruct (decide (i ∈ rest)) as [Hin|Hnin];
    destruct (decide (i = idx)) as [->|Hne];
    destruct (news.summarize art) as [s [e|]];
    repeat match goal with
           | |- context [decide (?x ∈ ?l)] => destruct (decide (x ∈ l)) as [?|Hn]
           end;
    try reflexivity;
    try (exfalso; apply Hn; first [now left | now right]);
    try (exfalso; match goal with Hi : _ ∈ _ :: _ |- _ => apply elem_of_cons in Hi as [?|?] end;
         congruence).
Qed.

Lemma zip_with_apply (articles : list news.ArticleDTO) :
  zip_with news.apply_summary articles (map kept articles) = map enriched articles.
Proof. induction articles as [|a l IH]; simpl; [reflexivity | now rewrite IH]. Qed.



End Enricher.



(* ===================================================================== *)
(** ** Nearby queries without coordinates *)
(* ===================================================================== *)

(** A store that runs on its in-memory map. *)
Definition memory_store (m : list repo.Article) : repo.repository :=
  {| repo.rcache := None; repo.articles := Some m; repo.nextID := 1 |}.

Definition article (id title : string) (published : Z) (relevance : float64)
  (location : option (float64 * float64)) : repo.Article :=
  {| repo.ID := id; repo.Title := title; repo.Description := None; repo.URL := "";
     repo.PublicationDate := published; repo.SourceName := "TechNews";
     repo.Category := ["Technology"]; repo.RelevanceScore := relevance;
     repo.Latitude := option_map fst location; repo.Longitude := option_map snd location |}.

(** The service as deployed on that store, with the keyword classifier. *)
Definition in_memory (m : list repo.Article) : repo.Repository :=
  @repo.repository_Repository example_library (memory_store m).

Definition Query_in_memory (m : list repo.Article) (schedule : list nat) (req : news.QueryRequest)
  : result news.QueryResponse * list news.RepoCall :=
  @news.Query example_library (in_memory m) llm.OpenAIClient schedule req.

Definition missing_coordinates : error :=
  "failed to retrieve articles: latitude and longitude are required for nearby search".

Section NearbyWithoutCoordinates.
Context `{GoLibrary} `{repo.Repository} `{llm.LLMClient}.

Lemma determineStrategy_Limit (extraction : llm.Extraction) (req : news.QueryRequest) (limit : Z) :
  news.determineStrategy extraction
    {| news.QueryText := news.QueryText req; news.Lat := news.Lat req; news.Lon := news.Lon req;
       news.Radius := news.Radius req; news.Limit := limit |}
  = news.determineStrategy extraction req.
Proof. reflexivity. Qed.

Lemma retrieve_nearby (extraction : llm.Extraction) (req : news.QueryRequest) :
  news.retrieve "nearby" extraction req = ("nearby", news.getNearbyArticles extraction req).
Proof. reflexivity. Qed.

(** C9 (as the code has it).  When nearby is selected and the request
    lacks a coordinate, [Query] returns the error that names the missing
    latitude and longitude, without a call to the store, if the extraction
    lists no location; if it lists one, the store is asked for the articles
    around the fixed point (37.7749, -122.4194). *)
Theorem Query_nearby_without_coordinates (schedule : list nat) (req : news.QueryRequest)
  (extraction : llm.Extraction) :
  llm.Extract (news.QueryText req) = Ok extraction ->
  news.determineStrategy extraction req = "nearby" ->
  news.Lat req = None \/ news.Lon req = None ->
  (llm.Locations (llm.Entities extraction) = [] ->
   news.Query schedule req = (Err missing_coordinates, [])) /\
  (llm.Locations (llm.Entities extraction) <> [] ->
   exists arg,
     snd (news.Query schedule req) = [news.CallGetNearbyArticles arg] /\
     repo.Lat arg = news.defaultLat /\ repo.Lon arg = news.defaultLon).
Proof.
  intros Hextract Hstrategy Hmissing. unfold news.Query.
  set (req' := if news.Limit req <=? 0 then _ else req).
  assert (Htext : news.QueryText req' = news.QueryText req)
    by (unfold req'; destruct (news.Limit req <=? 0); reflexivity).
  assert (Hlat : news.Lat req' = news.Lat req)
    by (unfold req'; destruct (news.Limit req <=? 0); reflexivity).
  assert (Hlon : news.Lon req' = news.Lon req)
    by (unfold req'; destruct (news.Limit req <=? 0); reflexivity).
  assert (Hs : news.determineStrategy extraction req' = "nearby").
  { unfold req'. destruct (news.Limit req <=? 0); [|exact Hstrategy].
    now rewrite determineStrategy_Limit. }
  rewrite Htext, Hextract, Hs, retrieve_nearby. unfold news.getNearbyArticles.
  rewrite Hlat, Hlon.
  assert (Hcoord : forall (A : Type) (x y : A),
             match news.Lat req, news.Lon req with
             | Some lat, Some lon => x
             | _, _ => y
             end = y).
  { intros A x y. destruct Hmissing as [-> | ->]; [reflexivity|].
    destruct (news.Lat req); reflexivity. }
  split.
  - intros Hnone. rewrite Hnone.
    destruct Hmissing as [Hm | Hm]; rewrite Hm; [reflexivity|].
    destruct (news.Lat req); reflexivity.
  - intros Hsome. destruct (llm.Locations (llm.Entities extraction)) as [|loc locs]; [congruence|].
    eexists {| repo.Lat := news.defaultLat; repo.Lon := news.defaultLon |}.
    destruct Hmissing as [Hm | Hm]; rewrite Hm.
    + destruct (repo.GetNearbyArticles _); simpl; repeat split; reflexivity.
    + destruct (news.Lat req); destruct (repo.GetNearbyArticles _); simpl; repeat split; reflexivity.
Qed.

(** [Query] fails only when the classifier or the retrieval fails: the
    enricher and the ranker return no error. *)
Lemma Query_fails_before_enrichment (schedule : list nat) (req : news.QueryRequest) (e : error) :
  fst (news.Query schedule req) = Err e ->
  (exists cause, e = ("failed to extract query intent: " ++ cause)%string) \/
  (exists cause, e = ("failed to retrieve articles: " ++ cause)%string).
Proof.
  unfold news.Query. destruct (llm.Extract _) as [extraction|cause]; simpl.
  - destruct (news.retrieve _ _ _) as [strategy [[articles|cause] calls]]; simpl.
    + discriminate.
    + intros [= <-]. right. eauto.
  - intros [= <-]. left. eauto.
Qed.

End NearbyWithoutCoordinates.

Lemma Query_nearby_without_coordinates_witness :
  @llm.Extract llm.OpenAIClient (news.QueryText (text_request "news near me" 5))
  = Ok (extraction_of [ {| llm.Type_ := "nearby"; llm.Confidence := F64.dec 7 1 |} ] []) /\
  news.determineStrategy
    (extraction_of [ {| llm.Type_ := "nearby"; llm.Confidence := F64.dec 7 1 |} ] [])
    (text_request "news near me" 5) = "nearby" /\
  Query_in_memory [] [] (text_request "news near me" 5) = (Err missing_coordinates, []).
Proof.
  assert (He : @llm.Extract llm.OpenAIClient (news.QueryText (text_request "news near me" 5))
               = Ok (extraction_of [ {| llm.Type_ := "nearby"; llm.Confidence := F64.dec 7 1 |} ] []))
    by (vm_compute; reflexivity).
  assert (Hs : news.determineStrategy
                 (extraction_of [ {| llm.Type_ := "nearby"; llm.Confidence := F64.dec 7 1 |} ] [])
                 (text_request "news near me" 5) = "nearby")
    by (vm_compute; reflexivity).
  split; [exact He|]. split; [exact Hs|].
  exact (proj1 (@Query_nearby_without_coordinates example_library (in_memory []) llm.OpenAIClient
                  [] (text_request "news near me" 5) _ He Hs (or_introl eq_refl)) eq_refl).
Defined.

(** C9 as stated fails in its second half: for "news in Paris" without
    coordinates the classifier lists the location Paris, nearby is selected,
    and the store is asked for articles around San Francisco. *)
Lemma Query_invents_fallback_location :
  news.Lat (text_request "news in Paris" 5) = None /\
  snd (Query_in_memory [] [] (text_request "news in Paris" 5))
  = [ news.CallGetNearbyArticles
        {| repo.Lat := F64.dec 377749 4; repo.Lon := F64.neg (F64.dec 1224194 4);
           repo.Radius := F64.of_int 10; repo.Nearby_Limit := 5 |} ].
Proof. split; vm_compute; reflexivity. Qed.

(* ===================================================================== *)
(** ** The score threshold *)
(* ===================================================================== *)

Fixpoint digits_only (s : string) : bool :=
  match s with
  | EmptyString => true
  | String c s' => news.is_digit c && digits_only s'
  end.

Fixpoint no_digit (s : string) : bool :=
  match s with
  | EmptyString => true
  | String c s' => negb (news.is_digit c) && no_digit s'
  end.

Definition starts_with (p : ascii -> bool) (s : string) : bool :=
  match s with
  | EmptyString => false
  | String c _ => p c
  end.

(** [s] reads [pre], then the number [d1], or [d1.d2] when [dot], then
    [post]; the number is the leftmost one and as long as it can be. *)
Definition leftmost_number (s pre d1 : string) (dot : bool) (d2 post : string) : Prop :=
  s = (pre ++ d1 ++ (if dot then "." else "") ++ d2 ++ post)%string /\
  no_digit pre = true /\
  d1 <> "" /\ digits_only d1 = true /\ digits_only d2 = true /\
  starts_with news.is_digit post = false /\
  (dot = false -> d2 = "" /\ starts_with (Ascii.eqb ".") post = false).

(** The value read, as [strconv.ParseFloat] rounds it. *)
Definition decimal (d1 d2 : string) : float64 :=
  F64.dec (news.digits_value (d1 ++ d2) 0) (String.length d2).

Definition in_unit_interval (x : float64) : bool :=
  F64.geb x (F64.exact 0) && F64.leb x (F64.of_int 1).

Definition has_keyword (query : string) : bool :=
  Strings.Contains (Strings.ToLower query) "above" ||
  Strings.Contains (Strings.ToLower query) "threshold".

(** The threshold in the words of the design: the number has to follow the
    keyword.  [after_keyword s] is what follows the first keyword of [s]. *)
Fixpoint after_keyword (s : string) : option string :=
  if Strings.HasPrefix s "above" then Some (substring 5 (String.length s - 5) s)
  else if Strings.HasPrefix s "threshold" then Some (substring 9 (String.length s - 9) s)
  else match s with
       | EmptyString => None
       | String _ s' => after_keyword s'
       end.

Definition threshold_as_specified (query : string) : float64 :=
  match after_keyword (Strings.ToLower query) with
  | Some rest =>
      match news.FindStringSubmatch rest with
      | Some m => if in_unit_interval (news.ParseFloat m) then news.ParseFloat m else F64.dec 8 1
      | None => F64.dec 8 1
      end
  | None => F64.dec 8 1
  end.

Section Threshold.

#[local] Arguments String.append : simpl nomatch.

Lemma span_digits_app (d rest : string) :
  digits_only d = true -> starts_with news.is_digit rest = false ->
  news.span_digits (d ++ rest) = (d, rest).
Proof.
  intros Hd Hrest. induction d as [|c d IH]; cbn [String.append news.span_digits digits_only] in *.
  - destruct rest as [|c rest]; [reflexivity|]. cbn [starts_with news.span_digits] in *.
    now rewrite Hrest.
  - apply andb_true_iff in Hd as [Hc Hd]. rewrite Hc, (IH Hd). reflexivity.
Qed.

Lemma FindStringSubmatch_no_digit (s : string) :
  no_digit s = true -> news.FindStringSubmatch s = None.
Proof.
  induction s as [|c s IH]; cbn [no_digit news.FindStringSubmatch]; [reflexivity|].
  intros Hs. apply andb_true_iff in Hs as [Hc Hs].
  apply negb_true_iff in Hc. rewrite Hc. auto.
Qed.

Lemma FindStringSubmatch_leftmost (s pre d1 : string) (dot : bool) (d2 post : string) :
  leftmost_number s pre d1 dot d2 post ->
  news.FindStringSubmatch s = Some (d1, dot, d2).
Proof.
  intros (-> & Hpre & Hne & Hd1 & Hd2 & Hpost & Hnodot).
  induction pre as [|c pre IH].
  - cbn [String.append]. destruct d1 as [|c d1]; [congruence|].
    cbn [String.append news.FindStringSubmatch]. cbn [digits_only] in Hd1.
    apply andb_true_iff in Hd1 as [Hc Hd1]. rewrite Hc.
    change (String c (d1 ++ (if dot then "." else "") ++ d2 ++ post)%string)
      with ((String c d1) ++ ((if dot then "." else "") ++ d2 ++ post))%string.
    destruct dot.
    + rewrite span_digits_app; [| cbn [digits_only]; now rewrite Hc, Hd1 | reflexivity].
      cbn [String.append]. now rewrite (span_digits_app d2 post).
    + destruct (Hnodot eq_refl) as [-> Hdot].
      change (String.append "" (String.append "" post)) with post.
      rewrite span_digits_app; [| cbn [digits_only]; now rewrite Hc, Hd1 | exact Hpost].
      destruct post as [|p post]; [reflexivity|].
      cbn [starts_with] in Hdot. destruct (Ascii.eqb_spec "."%char p); [discriminate|].
      destruct p as [[] [] [] [] [] [] [] []]; try reflexivity. congruence.
  - cbn [no_digit] in Hpre. apply andb_true_iff in Hpre as [Hc Hpre].
    apply negb_true_iff in Hc. cbn [String.append news.FindStringSubmatch].
    rewrite Hc. auto.
Qed.

Lemma span_digits_spec (s d rest : string) :
  news.span_digits s = (d, rest) ->
  s = (d ++ rest)%string /\ digits_only d = true /\ starts_with news.is_digit rest = false.
Proof.
  revert d rest. induction s as [|c s IH]; intros d rest; cbn [news.span_digits].
  - intros [= <- <-]. repeat split.
  - destruct (news.is_digit c) eqn:Hc.
    + destruct (news.span_digits s) as [d' rest'] eqn:Hs. intros [= <- <-].
      destruct (IH d' rest' eq_refl) as (-> & Hd & Hrest).
      repeat split; [cbn [digits_only]; now rewrite Hc, Hd | exact Hrest].
    + intros [= <- <-]. repeat split. exact Hc.
Qed.

(** Conversely, what [FindStringSubmatch] answers is the leftmost number. *)
Lemma FindStringSubmatch_Some (s d1 : string) (dot : bool) (d2 : string) :
  news.FindStringSubmatch s = Some (d1, dot, d2) ->
  exists pre post, leftmost_number s pre d1 dot d2 post.
Proof.
  induction s as [|c s IH]; cbn [news.FindStringSubmatch]; [discriminate|].
  destruct (news.is_digit c) eqn:Hc.
  - destruct (news.span_digits (String c s)) as [int_digits rest] eqn:Hspan.
    destruct (span_digits_spec _ _ _ Hspan) as (Hs & Hint & Hrest).
    assert (Hne : int_digits <> "").
    { cbn [news.span_digits] in Hspan. rewrite Hc in Hspan.
      destruct (news.span_digits s). injection Hspan as <- _. discriminate. }
    destruct rest as [|p rest'].
    + intros [= <- <- <-]. exists "", "". rewrite Hs. repeat split; auto; reflexivity.
    + destruct (Ascii.eqb_spec "."%char p) as [<-|Hp].
      * intros [= <- <- <-]. destruct (news.span_digits rest') as [d2 post] eqn:Hfrac.
        destruct (span_digits_spec _ _ _ Hfrac) as (-> & Hd2 & Hpost).
        exists "", post. rewrite Hs. repeat split; auto; try reflexivity; discriminate.
      * intros Hm. assert (Hm' : Some (int_digits, false, "") = Some (d1, dot, d2)).
        { destruct p as [[] [] [] [] [] [] [] []]; try exact Hm. congruence. }
        injection Hm' as <- <- <-. exists "", (String p rest'). rewrite Hs.
        repeat split; auto; try reflexivity. cbn [starts_with].
        destruct (Ascii.eqb_spec "."%char p); [contradiction | reflexivity].
  - intros Hm. destruct (IH Hm) as (pre & post & -> & Hpre & Hrest).
    exists (String c pre), post. split; [reflexivity|]. split; [|exact Hrest].
    cbn [no_digit]. now rewrite Hc, Hpre.
Qed.

Example leftmost_number_example :
  leftmost_number "score above 0.85" "score above " "0" true "85" "".
Proof. repeat split; try reflexivity; discriminate. Qed.

Lemma collect_keeps (keep : repo.Article -> bool) (limit : Z) (m acc : list repo.Article) :
  Forall (fun a => keep a = true) acc ->
  Forall (fun a => keep a = true) (repo.collect keep limit m acc).
Proof.
  revert acc. induction m as [|a m IH]; intros acc Hacc; simpl; [exact Hacc|].
  destruct (keep a) eqn:Ha; [|auto].
  assert (Hacc' : Forall (fun a => keep a = true) (acc ++ [a])).
  { apply Forall_app. split; [exact Hacc | now constructor]. }
  destruct (repo.reached _ _); auto.
Qed.

(** C7 (as the code has it).  The threshold is 0.8 unless the lower-cased
    query contains "above" or "threshold" anywhere and the leftmost decimal
    number of the query, wherever it stands, parses into [0,1]; that number
    is then the threshold ("score above 0.85" yields 0.85).  The threshold
    is what the store is asked for, and a store that runs on its in-memory
    map answers only articles of at least that relevance. *)
Theorem minScore_threshold :
  news.minScore "score above 0.85" = F64.dec 85 2 /\
  (forall query, has_keyword query = false -> news.minScore query = F64.dec 8 1) /\
  (forall query, no_digit (Strings.ToLower query) = true -> news.minScore query = F64.dec 8 1) /\
  (forall query pre d1 dot d2 post,
     has_keyword query = true ->
     leftmost_number (Strings.ToLower query) pre d1 dot d2 post ->
     news.minScore query =
     if in_unit_interval (decimal d1 d2) then decimal d1 d2 else F64.dec 8 1) /\
  (forall (L : GoLibrary) m extraction req,
     exists articles,
       @news.getArticlesByScore (@repo.repository_Repository L (memory_store m)) extraction req
       = (Ok (news.convertToDTOs articles),
          [news.CallGetArticlesByScore
             {| repo.Min := news.minScore (news.QueryText req);
                repo.Score_Limit := news.int32 (news.Limit req) |}]) /\
       Forall (fun a => F64.geb (repo.RelevanceScore a) (news.minScore (news.QueryText req)) = true)
              articles).
Proof.
  split; [vm_compute; reflexivity|]. split; [|split; [|split]].
  - intros query Hkw. unfold news.minScore. unfold has_keyword in Hkw. now rewrite Hkw.
  - intros query Hnone. unfold news.minScore.
    rewrite (FindStringSubmatch_no_digit _ Hnone). now destruct (_ || _).
  - intros query pre d1 dot d2 post Hkw Hnum. unfold news.minScore.
    unfold has_keyword in Hkw. rewrite Hkw.
    rewrite (FindStringSubmatch_leftmost _ _ _ _ _ _ Hnum). reflexivity.
  - intros L m extraction req.
    exists (repo.collect (fun a => F64.geb (repo.RelevanceScore a) (news.minScore (news.QueryText req)))
                         (news.int32 (news.Limit req)) m []).
    split; [reflexivity|]. apply collect_keeps. constructor.
Qed.

(** C7 as stated fails: in "0.5 above" no number follows the keyword, and
    the threshold is 0.5 all the same. *)
Lemma minScore_number_before_keyword :
  news.minScore "0.5 above" = F64.dec 5 1 /\
  after_keyword "0.5 above" = Some "" /\
  threshold_as_specified "0.5 above" = F64.dec 8 1 /\
  F64.eqb (F64.dec 5 1) (F64.dec 8 1) = false.
Proof. repeat split; vm_compute; reflexivity. Qed.

End Threshold.

(* ===================================================================== *)
(** ** Retrieval: where the limit is applied *)
(* ===================================================================== *)

(** The shape common to the loops of the store: the rows that [f] yields
    are appended until the limit is reached. *)
Fixpoint take_matches {B} (f : repo.Article -> option B) (limit : Z) (m : list repo.Article)
  (acc : list B) : list B :=
  match m with
  | [] => acc
  | a :: m' =>
      match f a with
      | Some b =>
          let acc' := acc ++ [b] in
          if repo.reached acc' limit then acc' else take_matches f limit m' acc'
      | None => take_matches f limit m' acc
      end
  end.

Definition kept_if (keep : repo.Article -> bool) (a : repo.Article) : option repo.Article :=
  if keep a then Some a else None.

Definition search_row (query : string) (a : repo.Article) : option repo.SearchArticlesRow :=
  if repo.titleMatch query a || repo.descMatch query a then
    Some {| repo.SearchArticlesRow_Article := a;
            repo.SearchScore :=
              repo.search_score (repo.titleMatch query a) (repo.descMatch query a) a |}
  else None.

Definition nearby_row `{GoLibrary} (arg : repo.GetNearbyArticlesParams) (a : repo.Article)
  : option repo.GetNearbyArticlesRow :=
  match repo.Latitude a, repo.Longitude a with
  | Some lat, Some lon =>
      let distance := repo.haversineDistance (repo.Lat arg) (repo.Lon arg) lat lon in
      if F64.leb distance (repo.Radius arg) then
        Some {| repo.GetNearbyArticlesRow_Article := a;
                repo.DistanceMeters := F64.mul distance (F64.of_int 1000) |}
      else None
  | _, _ => None
  end.

Definition answer_ids (answer : result news.QueryResponse * list news.RepoCall) : list string :=
  match fst answer with
  | Ok response => map news.ID (news.Articles response)
  | Err _ => []
  end.

(** A store that lists a1 (relevance 0.81) before a2 (relevance 0.99). *)
Definition two_articles : list repo.Article :=
  [ article "a1" "Chips" 10 (F64.dec 81 2) None;
    article "a2" "Rockets" 20 (F64.dec 99 2) None ].

Section Retrieval.

Lemma take_matches_prefix {B} (f : repo.Article -> option B) (limit : Z) (m : list repo.Article)
  (acc : list B) :
  Z.of_nat (length acc) < limit ->
  take_matches f limit m acc = acc ++ firstn (Z.to_nat limit - length acc) (omap f m).
Proof.
  revert acc. induction m as [|a m IH]; intros acc Hacc; cbn [take_matches omap list_omap].
  - now rewrite firstn_nil, app_nil_r.
  - destruct (f a) as [b|]; [|now apply IH].
    unfold repo.reached. rewrite length_app. cbn [length].
    destruct (Z.leb_spec limit (Z.of_nat (length acc + 1))) as [Hreached|Hmore].
    + replace (Z.to_nat limit - length acc)%nat with 1%nat by lia.
      cbn [firstn]. now rewrite firstn_O.
    + rewrite IH by (rewrite length_app; cbn [length]; lia).
      rewrite length_app. cbn [length].
      replace (Z.to_nat limit - length acc)%nat with (S (Z.to_nat limit - (length acc + 1)))%nat
        by lia.
      cbn [firstn]. now rewrite <- app_assoc.
Qed.

Lemma collect_take_matches (keep : repo.Article -> bool) (limit : Z) (m acc : list repo.Article) :
  repo.collect keep limit m acc = take_matches (kept_if keep) limit m acc.
Proof.
  revert acc. induction m as [|a m IH]; intros acc; cbn [repo.collect take_matches]; [reflexivity|].
  unfold kept_if at 1. destruct (keep a); [|apply IH].
  destruct (repo.reached _ _); [reflexivity | apply IH].
Qed.

Lemma search_loop_take_matches (query : string) (limit : Z) (m : list repo.Article)
  (acc : list repo.SearchArticlesRow) :
  repo.search_loop query limit m acc = take_matches (search_row query) limit m acc.
Proof.
  revert acc. induction m as [|a m IH]; intros acc; cbn [repo.search_loop take_matches];
    [reflexivity|].
  unfold search_row at 1. destruct (_ || _); [|apply IH].
  destruct (repo.reached _ _); [reflexivity | apply IH].
Qed.

Lemma nearby_loop_take_matches `{GoLibrary} (arg : repo.GetNearbyArticlesParams)
  (m : list repo.Article) (acc : list repo.GetNearbyArticlesRow) :
  repo.nearby_loop arg m acc = take_matches (nearby_row arg) (repo.Nearby_Limit arg) m acc.
Proof.
  revert acc. induction m as [|a m IH]; intros acc; cbn [repo.nearby_loop take_matches];
    [reflexivity|].
  unfold nearby_row at 1.
  destruct (repo.Latitude a); [destruct (repo.Longitude a)|]; try apply IH.
  destruct (F64.leb _ _); [|apply IH].
  destruct (repo.reached _ _); [reflexivity | apply IH].
Qed.

Lemma omap_kept_if (keep : repo.Article -> bool) (m : list repo.Article) :
  omap (kept_if keep) m = List.filter keep m.
Proof.
  induction m as [|a m IH]; [reflexivity|]. cbn [omap list_omap List.filter].
  unfold kept_if at 1. fold (omap (kept_if keep) m). rewrite IH. now destruct (keep a).
Qed.

(** C3, what the code does instead.  On its in-memory map the store answers
    the first [limit] matches in the order in which the map is visited: the
    loops of [GetArticlesByScore] and [SearchArticles] stop at the limit
    with no ordering applied, and [GetNearbyArticles] sorts by distance only
    what is left after the cut.  So "score above 0.8" with limit 1, on a
    store that lists a1 (0.81) before a2 (0.99), answers a1; with limit 2 it
    answers a2 first. *)
Theorem retrieval_stops_at_limit :
  (forall (L : GoLibrary) m arg,
     1 <= repo.Score_Limit arg ->
     @repo.GetArticlesByScore_ L (memory_store m) arg
     = Ok (firstn (Z.to_nat (repo.Score_Limit arg))
                  (List.filter (fun a => F64.geb (repo.RelevanceScore a) (repo.Min arg)) m))) /\
  (forall m arg,
     1 <= repo.Search_Limit arg ->
     repo.SearchArticles_ (memory_store m) arg
     = Ok (firstn (Z.to_nat (repo.Search_Limit arg))
                  (omap (search_row (Strings.ToLower (repo.Query arg))) m))) /\
  (forall (L : GoLibrary) m arg,
     1 <= repo.Nearby_Limit arg ->
     @repo.GetNearbyArticles_ L (memory_store m) arg
     = Ok (sort.Slice (fun x y => F64.ltb (repo.DistanceMeters x) (repo.DistanceMeters y))
             (firstn (Z.to_nat (repo.Nearby_Limit arg)) (omap (nearby_row arg) m)))) /\
  answer_ids (Query_in_memory two_articles [0%nat] (text_request "score above 0.8" 1)) = ["a1"] /\
  answer_ids (Query_in_memory two_articles [0%nat; 1%nat] (text_request "score above 0.8" 2))
  = ["a2"; "a1"].
Proof.
  split; [|split; [|split; [|split]]].
  - intros L m arg Hlimit. unfold repo.GetArticlesByScore_. cbn [memory_store repo.rcache repo.articles].
    rewrite collect_take_matches, take_matches_prefix by (simpl; lia).
    cbn [app length]. now rewrite Nat.sub_0_r, omap_kept_if.
  - intros m arg Hlimit. unfold repo.SearchArticles_. cbn [memory_store repo.rcache repo.articles].
    rewrite search_loop_take_matches, take_matches_prefix by (simpl; lia).
    cbn [app length]. now rewrite Nat.sub_0_r.
  - intros L m arg Hlimit. unfold repo.GetNearbyArticles_. cbn [memory_store repo.rcache repo.articles].
    rewrite nearby_loop_take_matches, take_matches_prefix by (simpl; lia).
    cbn [app length]. now rewrite Nat.sub_0_r.
  - vm_compute. reflexivity.
  - vm_compute. reflexivity.
Qed.

End Retrieval.

(* ===================================================================== *)
(** ** The trending scorer *)
(* ===================================================================== *)

Section EventScore.
Local Open Scope R_scope.




Definition event (kind : string) (occurred : Z) (user article : option (float64 * float64))
  : repo.GetRecentEventsByGeohashRow :=
  {| repo.Event_ID := 1; repo.ArticleID := "a1"; repo.Event := kind;
     repo.OccurredAt := occurred;
     repo.UserLat := option_map fst user; repo.UserLon := option_map snd user;
     repo.Article_Latitude := option_map fst article;
     repo.Article_Longitude := option_map snd article |}.


End EventScore.

(** The cache as the scorer sees it. *)
Abbreviation trending_store := (gmap string (@cache.entry R trending.document)).

Section TrendingKeys.

Lemma string_app_inv_head (a b c : string) : (a ++ b = a ++ c)%string -> b = c.
Proof.
  induction a as [|x a IH]; intros Heq; [exact Heq|].
  apply IH. unfold String.append in Heq. fold String.append in Heq. congruence.
Qed.

Lemma itoa_not_50 (n : Z) : 1 <= n <= 49 -> cache.itoa n <> "50".
Proof.
  intros Hn.
  assert (Hall : forallb (fun k => negb (String.eqb (cache.itoa (Z.of_nat k)) "50")) (seq 1 49) = true)
    by (vm_compute; reflexivity).
  rewrite forallb_forall in Hall.
  specialize (Hall (Z.to_nat n)). rewrite Z2Nat.id in Hall by lia.
  assert (Hin : In (Z.to_nat n) (seq 1 49)) by (apply in_seq; lia).
  specialize (Hall Hin). apply negb_true_iff in Hall.
  now apply String.eqb_neq.
Qed.

(** The key that the reader builds for a limit below 50 is not the key
    that the cycle writes. *)
Lemma TrendingKey_limit (geohash : string) (n : Z) :
  1 <= n <= 49 -> cache.TrendingKey geohash n <> cache.TrendingKey geohash 50.
Proof.
  intros Hn Heq. unfold cache.TrendingKey in Heq.
  do 3 apply string_app_inv_head in Heq.
  now apply (itoa_not_50 n).
Qed.

End TrendingKeys.

Section TrendingStore.
Context `{GoLibrary} `{repo.Repository}.

Lemma Del_other (s : trending_store) (key k : string) :
  k <> key -> cache.Del s key !! k = s !! k.
Proof. intros Hk. unfold cache.Del. now rewrite lookup_delete_ne. Qed.

Lemma ZAdd_other (s : trending_store) (key member k : string)
  (sc : R) :
  k <> key -> cache.ZAdd s key member sc !! k = s !! k.
Proof.
  intros Hk. unfold cache.ZAdd.
  destruct (s !! key) as [[[d|ms|z] t]|]; try reflexivity; now rewrite lookup_insert_ne.
Qed.

Lemma Expire_other (s : trending_store) (key k : string) (t : Z) :
  k <> key -> cache.Expire s key t !! k = s !! k.
Proof.
  intros Hk. unfold cache.Expire.
  destruct (s !! key); [now rewrite lookup_insert_ne | reflexivity].
Qed.

Lemma computeTileScore_other (now : Z) (s : trending_store)
  (geohash : string) (events : list repo.GetRecentEventsByGeohashRow) (k : string) :
  k <> cache.TrendingKey geohash 50 ->
  trending.computeTileScore now s geohash events !! k = s !! k.
Proof.
  intros Hk. unfold trending.computeTileScore. destruct events as [|ev events]; [reflexivity|].
  rewrite Expire_other by assumption.
  generalize (sort.Slice (fun x y => trending.Rltb (trending.Score y) (trending.Score x))
                (map (fun p => {| trending.ArticleID := fst p; trending.Score := snd p |})
                     (map_to_list (fold_left (trending.accumulate now) (ev :: events) ∅)))).
  intros scores.
  assert (Hfold : forall s0 : trending_store,
             fold_left (fun s1 t => cache.ZAdd s1 (cache.TrendingKey geohash 50)
                                     (trending.ArticleID t) (trending.Score t)) scores s0 !! k
             = s0 !! k).
  { induction scores as [|t scores IH]; intros s0; [reflexivity|].
    cbn [fold_left]. rewrite IH. now apply ZAdd_other. }
  rewrite Hfold. now apply Del_other.
Qed.

(** C2, what the code does instead.  The cycle writes the scores of a tile
    under the key for limit 50 and under no other key; a reader that asks
    for 1 to 49 entries builds the key for its own limit, which the cycle
    leaves as it was: on a store that held nothing there, the reader gets
    no entry, whatever the cycle computed for the tile. *)
Theorem GetTrendingScores_reads_its_own_key (now : Z)
  (s : trending_store) (geohash : string)
  (events : list repo.GetRecentEventsByGeohashRow) (n : Z) :
  1 <= n <= 49 ->
  s !! cache.TrendingKey geohash n = None ->
  trending.GetTrendingScores (trending.computeTileScore now s geohash events) geohash n = Ok [].
Proof.
  intros Hn Hfree. unfold trending.GetTrendingScores, cache.ZRevRangeWithScores.
  rewrite computeTileScore_other by (now apply TrendingKey_limit).
  now rewrite Hfree.
Qed.

(** With limit 50 the reader finds what the cycle wrote: here the one
    article of a tile with one event. *)
Lemma GetTrendingScores_limit_50 (now : Z) (ev : repo.GetRecentEventsByGeohashRow)
  (geohash : string) :
  trending.GetTrendingScores (trending.computeTileScore now ∅ geohash [ev]) geohash 50
  = Ok [ {| trending.ArticleID := repo.ArticleID ev;
            trending.Score := (0 + trending.calculateEventScore now ev)%R |} ].
Proof.
  unfold trending.computeTileScore. cbn [fold_left].
  unfold trending.accumulate. rewrite lookup_empty. cbn [default].
  rewrite insert_empty, map_to_list_singleton. cbn [map fst snd].
  rewrite Slice_short by (cbn [length]; unfold sort.maxInsertion; lia).
  unfold sort.insertion.
  cbn [sort.insert_left rev app fold_left trending.ArticleID trending.Score].
  unfold cache.Del, cache.ZAdd. rewrite lookup_delete_eq.
  unfold cache.Expire. rewrite lookup_insert_eq. cbn [cache.val].
  rewrite insert_insert_eq.
  unfold trending.GetTrendingScores, cache.ZRevRangeWithScores.
  rewrite lookup_insert_eq. reflexivity.
Qed.

(** C10.  The store's [GetRecentEventsByGeohash] answers no event and no
    error for every instant, so a cycle of [computeAllTiles] on it returns
    nil and leaves the cache as it was: no tile is computed, no score set
    is written, and the global metadata is not updated. *)
Theorem computeAllTiles_no_op :
  (forall (L : GoLibrary) (r : repo.repository) (since : Z),
     @repo.GetRecentEventsByGeohash (@repo.repository_Repository L r) since = Ok []) /\
  (forall (L : GoLibrary) (r : repo.repository) (now : Z)
          (s : trending_store),
     @trending.computeAllTiles L (@repo.repository_Repository L r) now s
     = trending.Returned s None) /\
  (forall (L : GoLibrary) (r : repo.repository) (now : Z)
          (s : trending_store) (lat lon : float64) (geohash : string),
     cache.GenerateGeohash lat lon 5 = Some geohash ->
     @trending.ForceRecompute L (@repo.repository_Repository L r) now s lat lon
     = trending.Returned s None).
Proof.
  split; [reflexivity|]. split; [reflexivity|].
  intros L r now s lat lon geohash Hgeo. unfold trending.ForceRecompute. rewrite Hgeo.
  reflexivity.
Qed.

End TrendingStore.

Lemma GetTrendingScores_reads_its_own_key_witness :
  1 <= 5 <= 49 /\
  (∅ : trending_store) !! cache.TrendingKey "s70tu" 5 = None /\
  @trending.GetTrendingScores
    (@trending.computeTileScore example_library 1000 ∅ "s70tu" [event "click" 1000 None None])
    "s70tu" 5 = Ok [].
Proof.
  assert (Hn : 1 <= 5 <= 49) by lia.
  assert (Hfree : (∅ : trending_store)
                    !! cache.TrendingKey "s70tu" 5 = None) by apply lookup_empty.
  split; [exact Hn|]. split; [exact Hfree|].
  exact (@GetTrendingScores_reads_its_own_key example_library 1000 ∅ "s70tu"
           [event "click" 1000 None None] 5 Hn Hfree).
Defined.

(* ===================================================================== *)
(** ** The stampede guard *)
(* ===================================================================== *)

Section StampedeGuard.
Context {score : Type}.
Variable key : string.
Variable ttl_ : Z.

(** What a caller may receive: a value that a run of the producer
    returned, the timeout, or the failure of its own run of the producer. *)
Definition received (produced : list string) (r : result string) : Prop :=
  match r with
  | Ok data => In data produced
  | Err e => e = cache.timeout \/ exists cause, e = ("failed to generate value: " ++ cause)%string
  end.

Definition caller_ok (produced : list string) (p : cache.pc) : Prop :=
  match p with
  | cache.Store value => In value produced
  | cache.Release r | cache.Done r => received produced r
  | _ => True
  end.

Record guard_invariant (st : cache.system score) : Prop := {
  inv_lock :
    cache.holders (cache.callers st)
    = match cache.store st !! cache.lockKey key with Some _ => 1%nat | None => 0%nat end;
  inv_key :
    match cache.store st !! key with
    | Some e => exists data, cache.val e = cache.VString data /\ In data (cache.produced st)
    | None => True
    end;
  inv_callers :
    forall i p, cache.callers st !! i = Some p -> caller_ok (cache.produced st) p
}.

Lemma string_length_append (a b : string) :
  String.length (a ++ b) = (String.length a + String.length b)%nat.
Proof. induction a as [|x a IH]; [reflexivity|]. cbn. now rewrite <- IH. Qed.

Lemma lockKey_not_key : cache.lockKey key <> key.
Proof.
  intros Heq. apply (f_equal String.length) in Heq.
  unfold cache.lockKey in Heq. rewrite string_length_append in Heq. simpl in Heq. lia.
Qed.

Lemma holders_insert (l : list cache.pc) (i : nat) (p p' : cache.pc) :
  l !! i = Some p ->
  (cache.holders (<[i := p']> l) + (if cache.holds_lock p then 1 else 0)
   = cache.holders l + (if cache.holds_lock p' then 1 else 0))%nat.
Proof.
  unfold cache.holders. revert i. induction l as [|q l IH]; intros [|i] Hi; try discriminate.
  - injection Hi as ->. clear IH. simpl.
    destruct (cache.holds_lock p), (cache.holds_lock p'); simpl; lia.
  - specialize (IH i Hi). simpl in *.
    destruct (cache.holds_lock q); simpl; lia.
Qed.

Lemma received_mono (produced : list string) (value : string) (r : result string) :
  received produced r -> received (value :: produced) r.
Proof. destruct r; simpl; auto. Qed.

Lemma caller_ok_mono (produced : list string) (value : string) (p : cache.pc) :
  caller_ok produced p -> caller_ok (value :: produced) p.
Proof. destruct p; simpl; auto using received_mono. Qed.

Lemma callers_insert_ok (produced : list string) (l : list cache.pc) (i : nat) (p' : cache.pc) :
  (forall j p, l !! j = Some p -> caller_ok produced p) ->
  caller_ok produced p' ->
  forall j p, <[i := p']> l !! j = Some p -> caller_ok produced p.
Proof.
  intros Hall Hp' j p Hj. destruct (decide (j = i)) as [->|Hne].
  - destruct (decide (i < length l)%nat) as [Hlt|Hge].
    + rewrite list_lookup_insert_eq in Hj by assumption. now injection Hj as <-.
    + rewrite list_insert_ge in Hj by lia. eauto.
  - rewrite list_lookup_insert_ne in Hj by congruence. eauto.
Qed.

Lemma Get_Ok_produced (st : cache.system score) (data : string) :
  guard_invariant st -> cache.Get (cache.store st) key = Ok data -> In data (cache.produced st).
Proof.
  intros Hinv Hget. pose proof (inv_key st Hinv) as Hkey. unfold cache.Get in Hget.
  destruct (cache.store st !! key) as [[v t]|]; [|discriminate].
  destruct Hkey as (d & Hd & Hin). simpl in Hd. subst v. now injection Hget as <-.
Qed.

(** Every step of every caller keeps the invariant. *)
Lemma next_invariant (fn_result : result string) (st : cache.system score) (i : nat) :
  guard_invariant st -> guard_invariant (cache.next key ttl_ fn_result st i).
Proof.
  intros Hinv. pose proof lockKey_not_key as Hne.
  unfold cache.next. destruct (cache.callers st !! i) as [p|] eqn:Hi; [|exact Hinv].
  pose proof (inv_callers st Hinv i p Hi) as Hp.
  pose proof (inv_lock st Hinv) as Hlock.
  destruct p as [| |n| |value|r|r]; try exact Hinv.
  - (* Start *)
    destruct (cache.Get (cache.store st) key) as [data|e] eqn:Hget;
      constructor; cbn [cache.at_ cache.store cache.callers cache.produced].
    + pose proof (holders_insert _ _ _ (cache.Done (Ok data)) Hi).
      rewrite <- Hlock. cbn [cache.holds_lock] in *. lia.
    + exact (inv_key st Hinv).
    + apply callers_insert_ok; [exact (inv_callers st Hinv) | simpl; eauto using Get_Ok_produced].
    + pose proof (holders_insert _ _ _ cache.Acquire Hi).
      rewrite <- Hlock. cbn [cache.holds_lock] in *. lia.
    + exact (inv_key st Hinv).
    + apply callers_insert_ok; [exact (inv_callers st Hinv) | exact I].
  - (* Acquire *)
    unfold cache.SetNX.
    destruct (cache.store st !! cache.lockKey key) as [e|] eqn:Hl;
      constructor; cbn [cache.store cache.callers cache.produced].
    + pose proof (holders_insert _ _ _ (cache.Poll 0) Hi). rewrite Hl.
      cbn [cache.holds_lock] in *. lia.
    + exact (inv_key st Hinv).
    + apply callers_insert_ok; [exact (inv_callers st Hinv) | exact I].
    + pose proof (holders_insert _ _ _ cache.Produce Hi). rewrite lookup_insert_eq.
      cbn [cache.holds_lock] in *. lia.
    + rewrite lookup_insert_ne by exact Hne. exact (inv_key st Hinv).
    + apply callers_insert_ok; [exact (inv_callers st Hinv) | exact I].
  - (* Poll *)
    destruct (n <? 50)%nat;
      [destruct (cache.Get (cache.store st) key) as [data|e] eqn:Hget|];
      constructor; cbn [cache.at_ cache.store cache.callers cache.produced].
    + pose proof (holders_insert _ _ _ (cache.Done (Ok data)) Hi).
      rewrite <- Hlock. cbn [cache.holds_lock] in *. lia.
    + exact (inv_key st Hinv).
    + apply callers_insert_ok; [exact (inv_callers st Hinv) | simpl; eauto using Get_Ok_produced].
    + pose proof (holders_insert _ _ _ (cache.Poll (S n)) Hi).
      rewrite <- Hlock. cbn [cache.holds_lock] in *. lia.
    + exact (inv_key st Hinv).
    + apply callers_insert_ok; [exact (inv_callers st Hinv) | exact I].
    + pose proof (holders_insert _ _ _ (cache.Done (Err cache.timeout)) Hi).
      rewrite <- Hlock. cbn [cache.holds_lock] in *. lia.
    + exact (inv_key st Hinv).
    + apply callers_insert_ok; [exact (inv_callers st Hinv) | simpl; now left].
  - (* Produce *)
    destruct fn_result as [value|e]; constructor; cbn [cache.store cache.callers cache.produced].
    + pose proof (holders_insert _ _ _ (cache.Store value) Hi).
      rewrite <- Hlock. cbn [cache.holds_lock] in *. lia.
    + pose proof (inv_key st Hinv) as Hkey. destruct (cache.store st !! key); [|exact I].
      destruct Hkey as (d & Hd & Hin). exists d. split; [exact Hd | now right].
    + apply callers_insert_ok; [|simpl; now left].
      intros j q Hj. apply caller_ok_mono. exact (inv_callers st Hinv j q Hj).
    + pose proof (holders_insert _ _ _
                    (cache.Release (Err ("failed to generate value: " ++ e)%string)) Hi).
      rewrite <- Hlock. cbn [cache.holds_lock] in *. lia.
    + exact (inv_key st Hinv).
    + apply callers_insert_ok; [exact (inv_callers st Hinv) | simpl; right; eauto].
  - (* Store *)
    constructor; cbn [cache.store cache.callers cache.produced]; unfold cache.Set_.
    + pose proof (holders_insert _ _ _ (cache.Release (Ok value)) Hi).
      rewrite lookup_insert_ne by (intros Heq; now apply Hne).
      rewrite <- Hlock. cbn [cache.holds_lock] in *. lia.
    + rewrite lookup_insert_eq. exists value. split; [reflexivity | exact Hp].
    + apply callers_insert_ok; [exact (inv_callers st Hinv) | exact Hp].
  - (* Release *)
    constructor; cbn [cache.store cache.callers cache.produced]; unfold cache.Del.
    + pose proof (holders_insert _ _ _ (cache.Done r) Hi) as Hh. rewrite lookup_delete_eq.
      cbn [cache.holds_lock] in Hh.
      destruct (cache.store st !! cache.lockKey key); lia.
    + rewrite lookup_delete_ne by exact Hne. exact (inv_key st Hinv).
    + apply callers_insert_ok; [exact (inv_callers st Hinv) | exact Hp].
Qed.

Lemma run_invariant (schedule : list (nat * result string)) (st : cache.system score) :
  guard_invariant st -> guard_invariant (cache.run key ttl_ schedule st).
Proof.
  revert st. induction schedule as [|[i r] schedule IH]; intros st Hinv; [exact Hinv|].
  cbn [cache.run fold_left]. apply IH. now apply next_invariant.
Qed.

Lemma initial_invariant (s : gmap string (@cache.entry score string)) (n : nat) :
  s !! key = None -> s !! cache.lockKey key = None ->
  guard_invariant (cache.initial s n).
Proof.
  intros Hkey Hlock. constructor; cbn [cache.initial cache.store cache.callers cache.produced].
  - rewrite Hlock. unfold cache.holders. induction n as [|n IH]; [reflexivity | exact IH].
  - now rewrite Hkey.
  - intros i p Hi. apply lookup_replicate in Hi as [-> _]. exact I.
Qed.


End StampedeGuard.





(* ===================================================================== *)
(** * Further properties of the code *)
(* ===================================================================== *)

(** ** The answer of [Query] *)

(** The limit [Query] works with: 5 when the request gives none. *)
Definition effective_limit (req : news.QueryRequest) : Z :=
  if news.Limit req <=? 0 then 5 else news.Limit req.

(** The strategy that a call to the store belongs to, and the limit it
    carries. *)
Definition method_of (c : news.RepoCall) : string :=
  match c with
  | news.CallGetArticlesByCategory _ => "category"
  | news.CallGetArticlesBySource _ => "source"
  | news.CallGetArticlesByScore _ => "score"
  | news.CallSearchArticles _ => "search"
  | news.CallGetNearbyArticles _ => "nearby"
  end.

Definition limit_of (c : news.RepoCall) : Z :=
  match c with
  | news.CallGetArticlesByCategory arg => repo.Category_Limit arg
  | news.CallGetArticlesBySource arg => repo.Source_Limit arg
  | news.CallGetArticlesByScore arg => repo.Score_Limit arg
  | news.CallSearchArticles arg => repo.Search_Limit arg
  | news.CallGetNearbyArticles arg => repo.Nearby_Limit arg
  end.

Definition strategies : list string := ["category"; "source"; "score"; "search"; "nearby"].

(** The request as [Query] reads it. *)
Definition with_effective_limit (req : news.QueryRequest) : news.QueryRequest :=
  if news.Limit req <=? 0
  then {| news.QueryText := news.QueryText req; news.Lat := news.Lat req; news.Lon := news.Lon req;
          news.Radius := news.Radius req; news.Limit := 5 |}
  else req.

Section QueryAnswer.
Context `{GoLibrary} `{repo.Repository} `{llm.LLMClient}.

Lemma with_effective_limit_Limit (req : news.QueryRequest) :
  news.Limit (with_effective_limit req) = effective_limit req.
Proof. unfold with_effective_limit, effective_limit. now destruct (news.Limit req <=? 0). Qed.

Lemma with_effective_limit_QueryText (req : news.QueryRequest) :
  news.QueryText (with_effective_limit req) = news.QueryText req.
Proof. unfold with_effective_limit. now destruct (news.Limit req <=? 0). Qed.

(** What [retrieve] does: one of the five strategies, and at most one call
    to the store, of the method of that strategy and with the limit of the
    request as an int32. *)
Lemma retrieve_call (strategy : string) (extraction : llm.Extraction) (req : news.QueryRequest)
  (s : string) (retrieved : result (list news.ArticleDTO)) (calls : list news.RepoCall) :
  news.retrieve strategy extraction req = (s, (retrieved, calls)) ->
  In s strategies /\
  (calls = [] \/
   exists c, calls = [c] /\ method_of c = s /\ limit_of c = news.int32 (news.Limit req)) /\
  (forall articles, retrieved = Ok articles -> calls <> []).
Proof.
  unfold news.retrieve, strategies.
  repeat match goal with
         | |- context [String.eqb strategy ?x] => destruct (String.eqb_spec strategy x); [subst|]
         end;
    unfold news.getArticlesByCategory, news.getArticlesBySource, news.getArticlesByScore,
      news.searchArticles, news.getNearbyArticles;
    repeat match goal with
           | |- context [match ?x with _ => _ end] =>
               match type of x with
               | result _ => destruct x
               | option _ => destruct x
               | list _ => destruct x
               | prod _ _ => destruct x
               end
           end;
    intros [= <- <- <-]; (split; [simpl; tauto|]);
    (split; [first [left; reflexivity | right; eexists; split; [reflexivity|]; split; reflexivity]
            | intros ? ?; discriminate]).
Qed.

(** [Query] asks the store at most once.  An answer comes from exactly one
    call: of the method that the answer reports as its strategy, which is
    one of the five, and with the limit of the request (5 when it gives
    none) as an int32.  When the classifier fails the store is not asked. *)
Theorem Query_asks_the_store_once (schedule : list nat) (req : news.QueryRequest) :
  (length (snd (news.Query schedule req)) <= 1)%nat /\
  (forall response, fst (news.Query schedule req) = Ok response ->
     In (news.Strategy (news.Meta response)) strategies /\
     exists c, snd (news.Query schedule req) = [c] /\
               method_of c = news.Strategy (news.Meta response) /\
               limit_of c = news.int32 (effective_limit req)) /\
  (forall cause, llm.Extract (news.QueryText req) = Err cause ->
     news.Query schedule req = (Err ("failed to extract query intent: " ++ cause)%string, [])).
Proof.
  unfold news.Query. fold (with_effective_limit req).
  rewrite with_effective_limit_QueryText.
  destruct (llm.Extract (news.QueryText req)) as [extraction|cause].
  - destruct (news.retrieve _ extraction (with_effective_limit req))
      as [s [retrieved calls]] eqn:Hretrieve.
    apply retrieve_call in Hretrieve as (Hs & Hcalls & Hok).
    rewrite with_effective_limit_Limit in Hcalls.
    destruct retrieved as [articles|cause]; cbn [fst snd].
    + split; [destruct Hcalls as [-> | (c & -> & _)]; simpl; lia|].
      split; [|intros ? ?; discriminate].
      intros response [= <-]. cbn [news.Meta news.Strategy]. split; [exact Hs|].
      destruct Hcalls as [-> | (c & -> & Hc)]; [now destruct (Hok articles eq_refl)|].
      now exists c.
    + split; [destruct Hcalls as [-> | (c & -> & _)]; simpl; lia|].
      split; intros ? ?; discriminate.
  - cbn [fst snd]. split; [simpl; lia|]. split; [intros ? ?; discriminate|].
    now intros ? [= ->].
Qed.

End QueryAnswer.

Section QueryArticles.
Context `{GoLibrary} `{repo.Repository} `{llm.LLMClient}.

Lemma rankArticles_rearranges (articles : list news.ArticleDTO) (strategy : string)
  (req : news.QueryRequest) :
  Permutation (news.rankArticles articles strategy req) articles.
Proof.
  unfold news.rankArticles.
  repeat (destruct (_ || _) || destruct (String.eqb strategy _)); try apply Slice_perm.
  reflexivity.
Qed.

(** Every article that leaves the enricher is one that entered it, up to
    its summary, whatever the order in which the summaries arrive. *)
Lemma enrichArticles_elem (schedule : list nat) (articles : list news.ArticleDTO)
  (a' : news.ArticleDTO) :
  a' ∈ news.enrichArticles schedule articles ->
  exists a, a ∈ articles /\ same_but_summary a a'.
Proof.
  unfold news.enrichArticles. intros Hin.
  apply elem_of_zip_with in Hin as (a & summary & -> & Ha & _).
  exists a. split; [exact Ha|].
  unfold news.apply_summary, same_but_summary.
  destruct (String.eqb summary ""); simpl; repeat split; reflexivity.
Qed.

Lemma enrichArticles_length (schedule : list nat) (articles : list news.ArticleDTO) :
  length (news.enrichArticles schedule articles) = length articles.
Proof.
  unfold news.enrichArticles. rewrite length_zip_with.
  assert (Hl : forall l s, length (fold_left (news.receive articles) l s) = length s).
  { induction l as [|x l IHl]; intros s; [reflexivity|]. simpl.
    unfold news.receive at 2. rewrite IHl.
    destruct (articles !! x); [|reflexivity].
    destruct (news.summarize a) as [? [?|]]; [reflexivity | apply length_insert]. }
  rewrite Hl, length_replicate. lia.
Qed.

(** What the answer of [Query] is made of. *)
Lemma Query_Ok (schedule : list nat) (req : news.QueryRequest) (response : news.QueryResponse) :
  fst (news.Query schedule req) = Ok response ->
  exists extraction strategy retrieved calls ranked,
    llm.Extract (news.QueryText req) = Ok extraction /\
    news.retrieve (news.determineStrategy extraction (with_effective_limit req)) extraction
                  (with_effective_limit req) = (strategy, (Ok retrieved, calls)) /\
    ranked = news.rankArticles (news.enrichArticles schedule retrieved) strategy
                               (with_effective_limit req) /\
    news.Articles response =
      (if effective_limit req <? Z.of_nat (length ranked)
       then firstn (Z.to_nat (effective_limit req)) ranked else ranked) /\
    news.Meta response =
      {| news.Total := Z.of_nat (length (news.Articles response));
         news.Query_ := Some {| news.Endpoint := "query"; news.Params := with_effective_limit req |};
         news.Intent := news.getBestIntent extraction;
         news.Entities := news.getAllEntities extraction;
         news.Strategy := strategy |}.
Proof.
  unfold news.Query. fold (with_effective_limit req).
  rewrite with_effective_limit_QueryText, with_effective_limit_Limit.
  destruct (llm.Extract (news.QueryText req)) as [extraction|cause]; [|discriminate].
  destruct (news.retrieve _ extraction (with_effective_limit req))
    as [strategy [[retrieved|cause] calls]] eqn:Hretrieve; [|discriminate].
  cbn [fst]. intros [= <-]. exists extraction, strategy, retrieved, calls.
  eexists. split; [reflexivity|]. split; [exact Hretrieve|]. repeat split; reflexivity.
Qed.

(** An answer of [Query] holds at most as many articles as the request
    allows (5 when it gives no limit), reports their number as its total,
    and holds only articles that the store returned: each is, up to its
    summary, an article that the one call to the store answered. *)
Theorem Query_answer_within_limit (schedule : list nat) (req : news.QueryRequest)
  (response : news.QueryResponse) :
  fst (news.Query schedule req) = Ok response ->
  Z.of_nat (length (news.Articles response)) <= effective_limit req /\
  1 <= effective_limit req /\
  news.Total (news.Meta response) = Z.of_nat (length (news.Articles response)) /\
  exists extraction retrieved calls,
    news.retrieve (news.Strategy (news.Meta response)) extraction (with_effective_limit req)
      = (news.Strategy (news.Meta response), (Ok retrieved, calls)) /\
    (length (news.Articles response) <= length retrieved)%nat /\
    forall a', a' ∈ news.Articles response ->
               exists a, a ∈ retrieved /\ same_but_summary a a'.
Proof.
  intros Hok.
  apply Query_Ok in Hok as (extraction & strategy & retrieved & calls & ranked &
                            Hextract & Hretrieve & Hranked & Harticles & Hmeta).
  assert (Hlimit : 1 <= effective_limit req).
  { unfold effective_limit. destruct (Z.leb_spec (news.Limit req) 0); lia. }
  assert (Hlen : length ranked = length retrieved).
  { rewrite Hranked, (Permutation_length (rankArticles_rearranges _ _ _)).
    apply enrichArticles_length. }
  assert (Hsub : forall a', a' ∈ news.Articles response -> a' ∈ ranked).
  { intros a'. rewrite Harticles. destruct (_ <? _); [|trivial].
    apply (subseteq_take (Z.to_nat (effective_limit req)) ranked). }
  split; [|split; [exact Hlimit|split]].
  - rewrite Harticles. destruct (Z.ltb_spec (effective_limit req) (Z.of_nat (length ranked)));
      [rewrite length_firstn|]; lia.
  - now rewrite Hmeta.
  - rewrite Hmeta. cbn [news.Strategy].
    assert (Hs : news.retrieve strategy extraction (with_effective_limit req)
                 = (strategy, (Ok retrieved, calls))).
    { revert Hretrieve. generalize (news.determineStrategy extraction (with_effective_limit req)).
      intros s0. unfold news.retrieve.
      repeat match goal with
             | |- context [String.eqb s0 ?x] => destruct (String.eqb_spec s0 x); [subst|]
             end; intros [= <- Hr]; cbn; now rewrite Hr. }
    exists extraction, retrieved, calls. split; [exact Hs|]. split.
    + rewrite <- Hlen, Harticles. destruct (_ <? _); [rewrite length_firstn|]; lia.
    + intros a' Hin. apply Hsub in Hin. rewrite Hranked in Hin.
      rewrite rankArticles_rearranges in Hin. now apply enrichArticles_elem in Hin.
Qed.

End QueryArticles.

Definition scored_answer : result news.QueryResponse * list news.RepoCall :=
  Query_in_memory two_articles [0%nat; 1%nat] (text_request "score above 0.8" 1).

Lemma Query_answer_within_limit_witness :
  exists response,
    fst scored_answer = Ok response /\ Z.of_nat (length (news.Articles response)) <= 1.
Proof.
  destruct (fst scored_answer) as [response|e] eqn:Hanswer; [|vm_compute in Hanswer; discriminate].
  exists response. split; [reflexivity|].
  exact (proj1 (@Query_answer_within_limit example_library (in_memory two_articles)
                  llm.OpenAIClient _ _ response Hanswer)).
Defined.

Section QueryScores.
Context `{GoLibrary} `{repo.Repository} `{llm.LLMClient}.

(** The scores an article carries: a search score exactly under the
    strategy search, a distance exactly under the strategy nearby. *)
Definition carries_scores_of (strategy : string) (a : news.ArticleDTO) : Prop :=
  (news.SearchScore a <> None <-> strategy = "search") /\
  (news.DistanceMeters a <> None <-> strategy = "nearby").

Lemma retrieve_scores (s0 : string) (extraction : llm.Extraction) (req : news.QueryRequest)
  (s : string) (retrieved : list news.ArticleDTO) (calls : list news.RepoCall) :
  news.retrieve s0 extraction req = (s, (Ok retrieved, calls)) ->
  Forall (carries_scores_of s) retrieved.
Proof.
  unfold news.retrieve.
  repeat match goal with
         | |- context [String.eqb s0 ?x] => destruct (String.eqb_spec s0 x); [subst|]
         end;
    unfold news.getArticlesByCategory, news.getArticlesBySource, news.getArticlesByScore,
      news.searchArticles, news.getNearbyArticles, news.convertToDTOs;
    repeat match goal with
           | |- context [match ?x with _ => _ end] =>
               match type of x with
               | result _ => destruct x
               | option _ => destruct x
               | list _ => destruct x
               | prod _ _ => destruct x
               end
           end;
    intros [= <- <- <-]; apply Forall_forall; intros art Hart;
    apply list_elem_of_In, in_map_iff in Hart as (row & <- & _);
    unfold carries_scores_of; simpl; split; split; congruence.
Qed.

(** In an answer of [Query] every article carries a search score when the
    strategy is search and only then, and a distance when the strategy is
    nearby and only then: the comparators of the ranker never meet an
    article without the score they sort by. *)
Theorem Query_answer_carries_scores (schedule : list nat) (req : news.QueryRequest)
  (response : news.QueryResponse) :
  fst (news.Query schedule req) = Ok response ->
  Forall (carries_scores_of (news.Strategy (news.Meta response))) (news.Articles response).
Proof.
  intros Hok.
  apply Query_Ok in Hok as (extraction & strategy & retrieved & calls & ranked &
                            Hextract & Hretrieve & Hranked & Harticles & Hmeta).
  apply retrieve_scores in Hretrieve. rewrite Hmeta. cbn [news.Strategy].
  apply Forall_forall. intros a' Hin.
  assert (Hin' : a' ∈ ranked).
  { revert Hin. rewrite Harticles. destruct (_ <? _); [|trivial].
    apply (subseteq_take (Z.to_nat (effective_limit req)) ranked). }
  rewrite Hranked, rankArticles_rearranges in Hin'.
  apply enrichArticles_elem in Hin' as (a & Ha & Hsame).
  rewrite Forall_forall in Hretrieve. specialize (Hretrieve a Ha).
  destruct Hsame as (_ & _ & _ & _ & _ & _ & _ & _ & _ & _ & Hd & Hs).
  unfold carries_scores_of in *. now rewrite Hd, Hs.
Qed.

End QueryScores.

Lemma Query_answer_carries_scores_witness :
  exists response,
    fst scored_answer = Ok response /\
    Forall (fun a => news.SearchScore a = None /\ news.DistanceMeters a = None)
           (news.Articles response).
Proof.
  destruct (fst scored_answer) as [response|e] eqn:Hanswer; [|vm_compute in Hanswer; discriminate].
  exists response. split; [reflexivity|].
  pose proof (@Query_answer_carries_scores example_library (in_memory two_articles)
                llm.OpenAIClient _ _ response Hanswer) as Hscores.
  assert (Hstrategy : news.Strategy (news.Meta response) = "score")
    by (vm_compute in Hanswer; injection Hanswer as <-; reflexivity).
  rewrite Hstrategy in Hscores.
  eapply Forall_impl; [exact Hscores|].
  intros a [Hs Hd]. split.
  - destruct (news.SearchScore a); [|reflexivity].
    assert ("score" = "search") by (apply Hs; discriminate). discriminate.
  - destruct (news.DistanceMeters a); [|reflexivity].
    assert ("score" = "nearby") by (apply Hd; discriminate). discriminate.
Defined.

(* ===================================================================== *)
(** ** The keyword classifier and the strategy it leads to *)
(* ===================================================================== *)

(** The strategy by keywords: a score word wins over a category keyword,
    that over a source keyword, that over a place or a word of nearness. *)
Definition keyword_route (query : string) : string :=
  let queryLower := Strings.ToLower query in
  if llm.contains_any queryLower llm.score_words then "score"
  else match llm.detected queryLower llm.category_rules with
       | _ :: _ => "category"
       | [] =>
           match llm.detected queryLower llm.source_rules with
           | _ :: _ => "source"
           | [] =>
               match llm.detected queryLower llm.location_rules with
               | _ :: _ => "nearby"
               | [] => if llm.contains_any queryLower llm.near_words then "nearby" else "search"
               end
           end
       end.

Section KeywordClassifier.

(** An intent that no later intent beats stays the best. *)
Lemma fold_better_first (l : list llm.Intent) (b : llm.Intent) :
  Forall (fun i => F64.gtb (llm.Confidence i) (llm.Confidence b) = false) l ->
  fold_left news.better l (Some b) = Some b.
Proof.
  induction l as [|i l IH]; intros Hl; [reflexivity|].
  apply Forall_cons in Hl as [Hi Hl]. cbn [fold_left news.better]. rewrite Hi. now apply IH.
Qed.

Lemma intents_of_Forall (P : llm.Intent -> Prop) (type : string) (confidence : float64)
  (found : list string) :
  P {| llm.Type_ := type; llm.Confidence := confidence |} ->
  Forall P (llm.intents_of type confidence found).
Proof.
  intros HP. unfold llm.intents_of. apply Forall_forall. intros i Hi.
  apply list_elem_of_In, in_map_iff in Hi as (? & <- & _). exact HP.
Qed.

Lemma getBestIntent_first (extraction : llm.Extraction) (b : llm.Intent) (l : list llm.Intent) :
  llm.Intent_ extraction = b :: l ->
  Forall (fun i => F64.gtb (llm.Confidence i) (llm.Confidence b) = false) l ->
  news.getBestIntent extraction = llm.Type_ b.
Proof.
  intros Hi Hl. unfold news.getBestIntent. rewrite Hi. cbn [fold_left news.better].
  now rewrite fold_better_first.
Qed.

(** The classifier never fails, and the intent that [getBestIntent] takes
    from its extraction is the strategy by keywords. *)
Lemma keyword_best_intent (query : string) :
  exists extraction,
    llm.OpenAIClient_Extract query = Ok extraction /\
    news.getBestIntent extraction = keyword_route query /\
    llm.Categories extraction = llm.detected (Strings.ToLower query) llm.category_rules /\
    llm.SourceNames extraction = llm.detected (Strings.ToLower query) llm.source_rules /\
    llm.Locations (llm.Entities extraction)
    = llm.detected (Strings.ToLower query) llm.location_rules.
Proof.
  unfold llm.OpenAIClient_Extract, keyword_route. cbv zeta.
  generalize (Strings.ToLower query). intros q.
  eexists. split; [reflexivity|]. split; [|repeat split; reflexivity].
  assert (H9 : forall type confidence found,
             (confidence = F64.dec 9 1 \/ confidence = F64.dec 8 1 \/ confidence = F64.dec 7 1) ->
             Forall (fun i => F64.gtb (llm.Confidence i) (F64.dec 9 1) = false)
                    (llm.intents_of type confidence found)).
  { intros type confidence found [-> | [-> | ->]]; apply intents_of_Forall; vm_compute; reflexivity. }
  assert (H8 : forall type confidence found,
             (confidence = F64.dec 8 1 \/ confidence = F64.dec 7 1) ->
             Forall (fun i => F64.gtb (llm.Confidence i) (F64.dec 8 1) = false)
                    (llm.intents_of type confidence found)).
  { intros type confidence found [-> | ->]; apply intents_of_Forall; vm_compute; reflexivity. }
  assert (Hnear9 : Forall (fun i => F64.gtb (llm.Confidence i) (F64.dec 9 1) = false)
                     (if llm.contains_any q llm.near_words
                      then [ {| llm.Type_ := "nearby"; llm.Confidence := F64.dec 7 1 |} ] else [])).
  { destruct (llm.contains_any q llm.near_words); repeat constructor. }
  assert (Hnear8 : Forall (fun i => F64.gtb (llm.Confidence i) (F64.dec 8 1) = false)
                     (if llm.contains_any q llm.near_words
                      then [ {| llm.Type_ := "nearby"; llm.Confidence := F64.dec 7 1 |} ] else [])).
  { destruct (llm.contains_any q llm.near_words); repeat constructor. }
  destruct (llm.contains_any q llm.score_words).
  { erewrite getBestIntent_first; cycle 1; [reflexivity | | reflexivity].
    cbn [llm.Confidence]. repeat (apply Forall_app; split); auto. }
  destruct (llm.detected q llm.category_rules) as [|category categories].
  2:{ erewrite getBestIntent_first; cycle 1; [reflexivity | | reflexivity].
      cbn [llm.Confidence]. repeat (apply Forall_app; split); auto.
      apply (H9 "category" (F64.dec 9 1) categories). auto. }
  destruct (llm.detected q llm.source_rules) as [|source sources].
  2:{ erewrite getBestIntent_first; cycle 1; [reflexivity | | reflexivity].
      cbn [llm.Confidence]. repeat (apply Forall_app; split); auto.
      apply (H9 "source" (F64.dec 9 1) sources). auto. }
  destruct (llm.detected q llm.location_rules) as [|location locations].
  2:{ erewrite getBestIntent_first; cycle 1; [reflexivity | | reflexivity].
      cbn [llm.Confidence]. repeat (apply Forall_app; split); auto.
      apply (H8 "nearby" (F64.dec 8 1) locations). auto. }
  destruct (llm.contains_any q llm.near_words); reflexivity.
Qed.

Lemma keyword_route_strategy (query : string) : In (keyword_route query) strategies.
Proof.
  unfold keyword_route, strategies. cbv zeta.
  destruct (llm.contains_any _ llm.score_words); [simpl; tauto|].
  destruct (llm.detected _ llm.category_rules); [|simpl; tauto].
  destruct (llm.detected _ llm.source_rules); [|simpl; tauto].
  destruct (llm.detected _ llm.location_rules); [|simpl; tauto].
  destruct (llm.contains_any _ llm.near_words); simpl; tauto.
Qed.

(** One of the five labels is its own strategy when a coordinate is
    missing. *)
Lemma determineStrategy_of_label (extraction : llm.Extraction) (req : news.QueryRequest) :
  news.Lat req = None \/ news.Lon req = None ->
  In (news.getBestIntent extraction) strategies ->
  news.determineStrategy extraction req = news.getBestIntent extraction.
Proof.
  intros Hmissing Hlabel. unfold news.determineStrategy.
  assert (Hcoord : forall (A : Type) (x y : A),
             match news.Lat req, news.Lon req with
             | Some lat, Some lon => x
             | _, _ => y
             end = y).
  { intros A x y. destruct Hmissing as [-> | ->]; [reflexivity|].
    destruct (news.Lat req); reflexivity. }
  rewrite Hcoord. unfold strategies in Hlabel. simpl in Hlabel.
  destruct Hlabel as [<- | [<- | [<- | [<- | [<- | []]]]]]; reflexivity.
Qed.

(** What the keyword classifier leads to.  For a request that lacks a
    coordinate, the strategy selected is the one by keywords: score if the
    text holds a score word, else category if it holds a category keyword,
    else source, else nearby, else search; [Query] reports it as intent. *)
Theorem keyword_routing (req : news.QueryRequest) :
  news.Lat req = None \/ news.Lon req = None ->
  exists extraction,
    @llm.Extract llm.OpenAIClient (news.QueryText req) = Ok extraction /\
    news.getBestIntent extraction = keyword_route (news.QueryText req) /\
    news.determineStrategy extraction req = keyword_route (news.QueryText req).
Proof.
  intros Hmissing.
  destruct (keyword_best_intent (news.QueryText req)) as (extraction & Hextract & Hbest & _).
  exists extraction. split; [exact Hextract|]. split; [exact Hbest|].
  rewrite determineStrategy_of_label; [exact Hbest | exact Hmissing |].
  rewrite Hbest. apply keyword_route_strategy.
Qed.

End KeywordClassifier.

Lemma keyword_routing_witness :
  news.Lat (text_request "best technology news from Reuters near Paris" 5) = None /\
  exists extraction,
    llm.OpenAIClient_Extract "best technology news from Reuters near Paris" = Ok extraction /\
    news.determineStrategy extraction
      (text_request "best technology news from Reuters near Paris" 5) = "score".
Proof.
  split; [reflexivity|].
  destruct (keyword_routing (text_request "best technology news from Reuters near Paris" 5)
              (or_introl eq_refl)) as (extraction & Hextract & _ & Hstrategy).
  exists extraction. split; [exact Hextract|]. exact Hstrategy.
Defined.

(** The source names that the classifier emits and [isSource] does not
    know. *)
Definition known_source (name : string) : bool :=
  negb (String.eqb name "SpaceNews") && negb (String.eqb name "HealthScience").

Section KeywordArguments.
Context `{GoLibrary} `{repo.Repository}.

Lemma detected_In (q : string) (rules : list (list string * string)) (name : string) :
  In name (llm.detected q rules) -> In name (map snd rules).
Proof.
  unfold llm.detected. intros Hin. apply in_map_iff in Hin as (rule & <- & Hrule).
  apply filter_In in Hrule as [Hrule _]. now apply in_map.
Qed.

Lemma find_isCategory (l : list string) :
  Forall (fun name => In name (map snd llm.category_rules)) l ->
  find news.isCategory l = head l.
Proof.
  destruct l as [|name l]; [reflexivity|]. intros Hl. apply Forall_cons in Hl as [Hname _].
  cbn [find head]. simpl in Hname.
  repeat (destruct Hname as [<- | Hname]; [reflexivity|]). destruct Hname.
Qed.

Lemma find_isSource (l : list string) :
  Forall (fun name => In name (map snd llm.source_rules)) l ->
  find news.isSource l = head (List.filter known_source l).
Proof.
  induction l as [|name l IH]; [reflexivity|]. intros Hl. apply Forall_cons in Hl as [Hname Hl].
  cbn [find List.filter]. simpl in Hname.
  repeat (destruct Hname as [<- | Hname]; [first [reflexivity | exact (IH Hl)]|]). destruct Hname.
Qed.

Lemma Query_calls (client : llm.LLMClient) (schedule : list nat) (req : news.QueryRequest)
  (extraction : llm.Extraction) :
  llm.Extract (news.QueryText req) = Ok extraction ->
  snd (news.Query schedule req)
  = snd (snd (news.retrieve (news.determineStrategy extraction (with_effective_limit req))
                            extraction (with_effective_limit req))).
Proof.
  intros Hextract. unfold news.Query. fold (with_effective_limit req).
  rewrite with_effective_limit_QueryText, Hextract.
  destruct (news.retrieve _ _ _) as [strategy [[articles|cause] calls]]; reflexivity.
Qed.

Lemma with_effective_limit_missing (req : news.QueryRequest) :
  news.Lat req = None \/ news.Lon req = None ->
  news.Lat (with_effective_limit req) = None \/ news.Lon (with_effective_limit req) = None.
Proof. unfold with_effective_limit. now destruct (news.Limit req <=? 0). Qed.

(** What the store is asked for under the keyword classifier, for a
    request that lacks a coordinate.  Under the strategy category it is the
    first category that the classifier detected.  Under the strategy source
    it is the first source detected other than SpaceNews and HealthScience,
    which [isSource] does not know, and TechNews when only those two were
    detected. *)
Theorem keyword_store_argument (schedule : list nat) (req : news.QueryRequest) :
  news.Lat req = None \/ news.Lon req = None ->
  (keyword_route (news.QueryText req) = "category" ->
   exists name,
     head (llm.detected (Strings.ToLower (news.QueryText req)) llm.category_rules) = Some name /\
     snd (@news.Query _ _ llm.OpenAIClient schedule req)
     = [ news.CallGetArticlesByCategory
           {| repo.Category_Name := name;
              repo.Category_Limit := news.int32 (effective_limit req) |} ]) /\
  (keyword_route (news.QueryText req) = "source" ->
   snd (@news.Query _ _ llm.OpenAIClient schedule req)
   = [ news.CallGetArticlesBySource
         {| repo.Source_Name :=
              default "TechNews"
                (head (List.filter known_source
                         (llm.detected (Strings.ToLower (news.QueryText req)) llm.source_rules)));
            repo.Source_Limit := news.int32 (effective_limit req) |} ]).
Proof.
  intros Hmissing.
  destruct (keyword_best_intent (news.QueryText req))
    as (extraction & Hextract & Hbest & Hcategories & Hsources & _).
  assert (Hstrategy : news.determineStrategy extraction (with_effective_limit req)
                      = keyword_route (news.QueryText req)).
  { rewrite determineStrategy_of_label; [exact Hbest | now apply with_effective_limit_missing |].
    rewrite Hbest. apply keyword_route_strategy. }
  rewrite (Query_calls llm.OpenAIClient schedule req extraction Hextract), Hstrategy.
  split; intros Hroute; rewrite Hroute.
  - assert (Hfind : find news.isCategory (llm.Categories extraction)
                    = head (llm.Categories extraction)).
    { apply find_isCategory, Forall_forall. intros name Hname.
      apply list_elem_of_In in Hname. rewrite Hcategories in Hname. eapply detected_In; eauto. }
    assert (Hsome : exists name, head (llm.Categories extraction) = Some name).
    { rewrite Hcategories. revert Hroute. unfold keyword_route. cbv zeta.
      destruct (llm.contains_any _ llm.score_words); [discriminate|].
      destruct (llm.detected _ llm.category_rules) as [|name l]; [|now exists name].
      destruct (llm.detected _ llm.source_rules); [|discriminate].
      destruct (llm.detected _ llm.location_rules); [|discriminate].
      destruct (llm.contains_any _ llm.near_words); discriminate. }
    destruct Hsome as (name & Hname). exists name. split; [now rewrite <- Hcategories|].
    cbn [news.retrieve String.eqb Ascii.eqb Bool.eqb snd]. unfold news.getArticlesByCategory.
    rewrite Hfind, Hname, with_effective_limit_Limit.
    destruct (repo.GetArticlesByCategory _); reflexivity.
  - assert (Hfind : find news.isSource (llm.SourceNames extraction)
                    = head (List.filter known_source (llm.SourceNames extraction))).
    { apply find_isSource, Forall_forall. intros name Hname.
      apply list_elem_of_In in Hname. rewrite Hsources in Hname. eapply detected_In; eauto. }
    cbn [news.retrieve String.eqb Ascii.eqb Bool.eqb snd]. unfold news.getArticlesBySource.
    rewrite Hfind, Hsources, with_effective_limit_Limit.
    destruct (head _); destruct (repo.GetArticlesBySource _); reflexivity.
Qed.

End KeywordArguments.

Lemma keyword_store_argument_witness :
  news.Lat (text_request "latest from SpaceNews" 3) = None /\
  keyword_route "latest from SpaceNews" = "source" /\
  snd (Query_in_memory [] [] (text_request "latest from SpaceNews" 3))
  = [ news.CallGetArticlesBySource {| repo.Source_Name := "TechNews"; repo.Source_Limit := 3 |} ].
Proof.
  split; [reflexivity|]. split; [vm_compute; reflexivity|].
  exact (proj2 (@keyword_store_argument example_library (in_memory []) []
                  (text_request "latest from SpaceNews" 3) (or_introl eq_refl))
               ltac:(vm_compute; reflexivity)).
Defined.

(* ===================================================================== *)
(** ** The summaries of the keyword summarizer *)
(* ===================================================================== *)

Section KeywordSummaries.
Context `{GoLibrary}.

(** The text [OpenAIClient.Summarize] writes for an article. *)
Definition summary_of (a : news.ArticleDTO) : string :=
  "This article discusses " ++ news.Title a ++ ", published by " ++ news.SourceName a ++ " on " ++
  time_Format_RFC3339 (news.PublicationDate a) ++ ". " ++ default "" (news.Description a).

Lemma enrichArticles_map `{llm.LLMClient} (schedule : list nat) (articles : list news.ArticleDTO) :
  Permutation schedule (seq 0 (length articles)) ->
  news.enrichArticles schedule articles = map enriched articles.
Proof.
  intros Hperm. unfold news.enrichArticles. rewrite <- zip_with_apply. f_equal.
  assert (Hlen : length schedule = length articles).
  { rewrite (Permutation_length Hperm). apply length_seq. }
  rewrite <- Hlen at 1. rewrite firstn_all.
  apply list_eq. intros i. rewrite list_lookup_fmap.
  destruct (articles !! i) as [art|] eqn:Hart; simpl.
  - rewrite (collect_lookup articles schedule _ i art); [| now rewrite length_replicate | exact Hart].
    assert (Hi : (i < length articles)%nat) by (eapply lookup_lt_Some; eauto).
    destruct (decide (i ∈ schedule)) as [_|Hn].
    + unfold kept. destruct (news.summarize art) as [s [e|]]; [|reflexivity].
      now apply lookup_replicate_2.
    + exfalso. apply Hn. rewrite Hperm. apply list_elem_of_In, in_seq. lia.
  - apply lookup_ge_None. apply lookup_ge_None in Hart.
    assert (Hl : forall l s, length (fold_left (news.receive articles) l s) = length s).
    { induction l as [|x l IHl]; intros s; [reflexivity|]. simpl.
      now rewrite IHl, receive_length. }
    now rewrite Hl, length_replicate.
Qed.

(** With the summarizer in use, which never fails and never writes the
    empty text, every article leaves the enricher with a summary: the fixed
    sentence about its title, source and date, followed by its description.
    A summary that the article had before is replaced. *)
Theorem keyword_summaries (schedule : list nat) (articles : list news.ArticleDTO) :
  Permutation schedule (seq 0 (length articles)) ->
  @news.enrichArticles _ llm.OpenAIClient schedule articles
  = map (fun a => news.with_LLMSummary a (summary_of a)) articles.
Proof.
  intros Hperm. rewrite (enrichArticles_map (H0 := llm.OpenAIClient)) by assumption.
  apply map_ext. intros a.
  unfold enriched, kept, news.summarize. cbn [llm.Summarize llm.OpenAIClient].
  unfold llm.OpenAIClient_Summarize, news.apply_summary.
  change (match news.Description a with Some d => d | None => "" end)
    with (default "" (news.Description a)).
  fold (summary_of a). reflexivity.
Qed.

End KeywordSummaries.

Lemma keyword_summaries_witness :
  Permutation [2; 0; 1]%nat (seq 0 (length three_scored)) /\
  map news.LLMSummary (@news.enrichArticles example_library llm.OpenAIClient [2; 0; 1]%nat three_scored)
  = [ Some "This article discusses a, published by  on . ";
      Some "This article discusses b, published by  on . ";
      Some "This article discusses c, published by  on . " ].
Proof.
  assert (Hperm : Permutation [2; 0; 1]%nat (seq 0 (length three_scored))).
  { simpl. apply (Permutation_cons_app [0%nat; 1%nat] [] 2%nat). simpl. reflexivity. }
  split; [exact Hperm|].
  rewrite (@keyword_summaries example_library [2; 0; 1]%nat three_scored Hperm). reflexivity.
Defined.

(* ===================================================================== *)
(** ** The rate limiter *)
(* ===================================================================== *)

(** [s] holds no byte [c]. *)
Fixpoint no_byte (c : ascii) (s : string) : bool :=
  match s with
  | EmptyString => true
  | String b s' => negb (Ascii.eqb b c) && no_byte c s'
  end.

Section ClientIP.
#[local] Arguments String.append : simpl nomatch.

Lemma indexOf_from_found (s : string) (c : ascii) :
  forall i : Z,
    (middleware.indexOf_from i s c = -1 /\ no_byte c s = true) \/
    (exists n : nat,
        middleware.indexOf_from i s c = i + Z.of_nat n /\
        String.get n s = Some c /\
        no_byte c (String.substring 0 n s) = true).
Proof.
  induction s as [|b s IH]; intros i; cbn [middleware.indexOf_from no_byte].
  - left. split; reflexivity.
  - destruct (Ascii.eqb_spec b c) as [->|Hne].
    + right. exists 0%nat. split; [lia|]. split; [reflexivity|]. now destruct s.
    + destruct (IH (i + 1)) as [[Hnone Hno] | (n & Hn & Hget & Hno)].
      * left. split; [exact Hnone | exact Hno].
      * right. exists (S n). split; [lia|]. split; [exact Hget|].
        cbn [String.substring no_byte]. rewrite Hno.
        destruct (Ascii.eqb_spec b c); [contradiction | reflexivity].
Qed.

Lemma no_byte_get (c : ascii) (s : string) :
  no_byte c s = true <-> forall n, String.get n s <> Some c.
Proof.
  induction s as [|b s IH]; cbn [no_byte].
  - split; [intros _ n; now destruct n | reflexivity].
  - rewrite andb_true_iff, negb_true_iff, IH. split.
    + intros [Hb Hs] [|n]; cbn [String.get]; [|apply Hs].
      intros [= ->]. now rewrite Ascii.eqb_refl in Hb.
    + intros Hall. split.
      * destruct (Ascii.eqb_spec b c) as [->|]; [|reflexivity]. now destruct (Hall 0%nat).
      * intros n. apply (Hall (S n)).
Qed.

(** [indexOf] answers -1 exactly for a text without the byte, and
    otherwise the position of the byte's first occurrence. *)
Theorem indexOf_first_occurrence (s : string) (c : ascii) :
  (middleware.indexOf s c = -1 <-> forall n, String.get n s <> Some c) /\
  (middleware.indexOf s c <> -1 ->
   0 <= middleware.indexOf s c < Z.of_nat (String.length s) /\
   String.get (Z.to_nat (middleware.indexOf s c)) s = Some c /\
   forall n, (n < Z.to_nat (middleware.indexOf s c))%nat -> String.get n s <> Some c).
Proof.
  unfold middleware.indexOf.
  destruct (indexOf_from_found s c 0) as [[Hnone Hno] | (n & Hn & Hget & Hno)].
  - rewrite Hnone. split; [|congruence]. split; [intros _; now apply no_byte_get | reflexivity].
  - rewrite Hn, Z.add_0_l, Nat2Z.id. split.
    + split; [lia|]. intros Hall. now destruct (Hall n).
    + intros _. split; [|split; [exact Hget|]].
      * split; [lia|]. apply inj_lt.
        clear - Hget. revert n Hget. induction s as [|b s IH]; intros [|n]; cbn; try discriminate.
        -- lia.
        -- intros Hget. apply IH in Hget. lia.
      * intros m Hm Hgetm.
        apply no_byte_get with (n := m) in Hno. apply Hno.
        clear - Hm Hgetm. revert n m Hm Hgetm.
        induction s as [|b s IH]; intros n m Hm; [now destruct m|].
        destruct n as [|n]; [lia|]. destruct m as [|m]; cbn; [trivial|].
        apply IH. lia.
Qed.

Lemma indexOf_from_app (first rest : string) (c : ascii) (i : Z) :
  no_byte c first = true ->
  middleware.indexOf_from i (first ++ String c rest) c = i + Z.of_nat (String.length first).
Proof.
  revert i. induction first as [|b first IH]; intros i Hno;
    cbn [String.append middleware.indexOf_from String.length].
  - rewrite Ascii.eqb_refl. lia.
  - cbn [no_byte] in Hno. apply andb_true_iff in Hno as [Hb Hno].
    apply negb_true_iff in Hb. rewrite Hb, IH by assumption. lia.
Qed.

Lemma substring_app (first rest : string) :
  String.substring 0 (String.length first) (first ++ rest) = first.
Proof.
  induction first as [|b first IH]; cbn; [now destruct rest | now rewrite IH].
Qed.

(** A header without a comma is the address. *)
Lemma getClientIP_single (r : middleware.Request) :
  middleware.X_Forwarded_For r <> "" ->
  no_byte "," (middleware.X_Forwarded_For r) = true ->
  middleware.getClientIP r = middleware.X_Forwarded_For r.
Proof.
  unfold middleware.getClientIP. cbv zeta. intros Hne Hno.
  destruct (String.eqb_spec (middleware.X_Forwarded_For r) ""); [contradiction|].
  cbn [negb]. unfold middleware.indexOf.
  destruct (indexOf_from_found (middleware.X_Forwarded_For r) "," 0)
    as [[-> _] | (k & _ & Hget & _)]; [reflexivity|].
  apply no_byte_get with (n := k) in Hno. contradiction.
Qed.

(** [getClientIP] answers the first address of X-Forwarded-For: the text
    before its first comma, or all of it when it holds no comma.  A header
    that starts with a comma is answered whole.  Without that header it
    answers X-Real-IP, and without both the address of the peer. *)
Theorem getClientIP_first_address (r : middleware.Request) :
  (forall first rest,
     middleware.X_Forwarded_For r = (first ++ String "," rest)%string ->
     first <> "" -> no_byte "," first = true ->
     middleware.getClientIP r = first) /\
  (middleware.X_Forwarded_For r <> "" ->
   no_byte "," (middleware.X_Forwarded_For r) = true ->
   middleware.getClientIP r = middleware.X_Forwarded_For r) /\
  (forall rest,
     middleware.X_Forwarded_For r = String "," rest ->
     middleware.getClientIP r = String "," rest) /\
  (middleware.X_Forwarded_For r = "" -> middleware.X_Real_IP r <> "" ->
   middleware.getClientIP r = middleware.X_Real_IP r) /\
  (middleware.X_Forwarded_For r = "" -> middleware.X_Real_IP r = "" ->
   middleware.getClientIP r = middleware.RemoteAddr r).
Proof.
  split; [|split; [apply getClientIP_single|]];
    unfold middleware.getClientIP; cbv zeta; repeat split.
  - intros first rest -> Hne Hno.
    destruct (String.eqb_spec (first ++ String "," rest) "") as [Hempty|_].
    { destruct first; simpl in Hempty; discriminate. }
    cbn [negb]. unfold middleware.indexOf.
    rewrite (indexOf_from_app first rest "," 0 Hno), Z.add_0_l.
    destruct (Z.ltb_spec 0 (Z.of_nat (String.length first))).
    + rewrite Nat2Z.id. apply substring_app.
    + destruct first; [contradiction | cbn in *; lia].
  - intros rest ->. reflexivity.
  - intros -> Hne. cbn. destruct (String.eqb_spec (middleware.X_Real_IP r) ""); [contradiction|].
    reflexivity.
  - intros -> ->. reflexivity.
Qed.

End ClientIP.

(** A run of the limiter: the calls of [Allow], each with the clock it
    reads and the client it is for, and what each call answers. *)
Fixpoint serve (rl : middleware.SimpleRateLimiter) (calls : list (Z * string))
  : middleware.SimpleRateLimiter * list bool :=
  match calls with
  | [] => (rl, [])
  | (now, clientIP) :: calls' =>
      let '(rl', allowed) := middleware.Allow rl now clientIP in
      let '(rl'', answers) := serve rl' calls' in
      (rl'', allowed :: answers)
  end.

Section TokenBucket.

Lemma min_le_r (a b : Z) : middleware.min a b <= b.
Proof. unfold middleware.min. destruct (Z.ltb_spec a b); lia. Qed.

Lemma Allow_config (rl : middleware.SimpleRateLimiter) (now : Z) (clientIP : string) :
  middleware.requestsPerMinute (fst (middleware.Allow rl now clientIP))
  = middleware.requestsPerMinute rl /\
  middleware.burstSize (fst (middleware.Allow rl now clientIP)) = middleware.burstSize rl.
Proof. unfold middleware.Allow. cbv zeta. destruct (0 <? middleware.tokens _); now split. Qed.


(** [Allow] in two steps: the refill of the client's record, and the token
    spent if one is left. *)
Definition refilled (rl : middleware.SimpleRateLimiter) (now : Z) (client : middleware.clientLimit)
  : middleware.clientLimit :=
  if 0 <? middleware.tokensToAdd rl now (middleware.lastRefill client)
  then {| middleware.tokens :=
            middleware.min
              (cache.wrap64 (middleware.tokens client
                             + middleware.tokensToAdd rl now (middleware.lastRefill client)))
              (middleware.burstSize rl);
          middleware.lastRefill := now |}
  else client.

Definition spent (client : middleware.clientLimit) : middleware.clientLimit :=
  if 0 <? middleware.tokens client
  then {| middleware.tokens := middleware.tokens client - 1;
          middleware.lastRefill := middleware.lastRefill client |}
  else client.

Definition record_of (rl : middleware.SimpleRateLimiter) (now : Z) (clientIP : string)
  : middleware.clientLimit :=
  default {| middleware.tokens := middleware.burstSize rl; middleware.lastRefill := now |}
          (middleware.clients rl !! clientIP).

Lemma Allow_steps (rl : middleware.SimpleRateLimiter) (now : Z) (clientIP : string) :
  middleware.Allow rl now clientIP
  = ({| middleware.requestsPerMinute := middleware.requestsPerMinute rl;
        middleware.burstSize := middleware.burstSize rl;
        middleware.clients :=
          <[clientIP := spent (refilled rl now (record_of rl now clientIP))]>
            (middleware.clients rl) |},
     0 <? middleware.tokens (refilled rl now (record_of rl now clientIP))).
Proof.
  unfold middleware.Allow, record_of, refilled, spent. cbv zeta.
  destruct (middleware.clients rl !! clientIP) as [client|]; cbn [default];
    destruct (0 <? middleware.tokensToAdd rl now _);
    destruct (0 <? middleware.tokens _); reflexivity.
Qed.

Lemma refilled_tokens (rl : middleware.SimpleRateLimiter) (now : Z) (client : middleware.clientLimit) :
  middleware.tokens client <= middleware.burstSize rl ->
  middleware.tokens (refilled rl now client) <= middleware.burstSize rl.
Proof.
  intros Hle. unfold refilled. destruct (0 <? _); [apply min_le_r | exact Hle].
Qed.

Lemma spent_tokens (client : middleware.clientLimit) :
  middleware.tokens (spent client) <= middleware.tokens client.
Proof. unfold spent. destruct (0 <? _); cbn; lia. Qed.

(** No client ever holds more tokens than the burst size. *)
Definition within_burst (rl : middleware.SimpleRateLimiter) : Prop :=
  forall clientIP client,
    middleware.clients rl !! clientIP = Some client ->
    middleware.tokens client <= middleware.burstSize rl.

Lemma Allow_within_burst (rl : middleware.SimpleRateLimiter) (now : Z) (clientIP : string) :
  within_burst rl -> within_burst (fst (middleware.Allow rl now clientIP)).
Proof.
  intros Hrl other client. rewrite Allow_steps. cbn [fst middleware.clients middleware.burstSize].
  destruct (decide (other = clientIP)) as [->|Hne].
  - rewrite lookup_insert_eq. intros [= <-].
    etransitivity; [apply spent_tokens|]. apply refilled_tokens.
    unfold record_of. destruct (middleware.clients rl !! clientIP) eqn:Hc; cbn [default].
    + eapply Hrl; eauto.
    + cbn. lia.
  - rewrite lookup_insert_ne by congruence. apply Hrl.
Qed.

(** From its creation on, whatever calls it serves and whatever the clock
    reads, the limiter keeps its configuration, holds for no client more
    tokens than the burst size, and forgets no client; and a call of
    [Allow] for one client leaves the records of all other clients as they
    are. *)
Theorem Allow_keeps_the_bucket (requestsPerMinute burstSize : Z) (calls : list (Z * string)) :
  let rl := fst (serve (middleware.NewSimpleRateLimiter requestsPerMinute burstSize) calls) in
  middleware.requestsPerMinute rl = requestsPerMinute /\
  middleware.burstSize rl = burstSize /\
  (forall clientIP client,
     middleware.clients rl !! clientIP = Some client -> middleware.tokens client <= burstSize) /\
  (forall now clientIP, In (now, clientIP) calls -> is_Some (middleware.clients rl !! clientIP)) /\
  (forall now clientIP other,
     other <> clientIP ->
     middleware.clients (fst (middleware.Allow rl now clientIP)) !! other
     = middleware.clients rl !! other).
Proof.
  cbv zeta.
  assert (Hgen : forall calls rl,
             within_burst rl ->
             let rl' := fst (serve rl calls) in
             middleware.requestsPerMinute rl' = middleware.requestsPerMinute rl /\
             middleware.burstSize rl' = middleware.burstSize rl /\
             within_burst rl' /\
             (forall clientIP, is_Some (middleware.clients rl !! clientIP) ->
                               is_Some (middleware.clients rl' !! clientIP)) /\
             (forall now clientIP, In (now, clientIP) calls ->
                                   is_Some (middleware.clients rl' !! clientIP))).
  { clear. induction calls as [|[now clientIP] calls IH]; intros rl Hrl; cbn [serve].
    - cbn. repeat split; auto. intros ? ? [].
    - destruct (middleware.Allow rl now clientIP) as [rl1 allowed] eqn:HAllow.
      assert (Hrl1 : rl1 = fst (middleware.Allow rl now clientIP)) by now rewrite HAllow.
      specialize (IH rl1). cbv zeta in IH.
      destruct (serve rl1 calls) as [rl2 answers]. cbn [fst] in *.
      destruct IH as (Hrpm & Hburst & Hwithin & Hkeeps & Hseen).
      { rewrite Hrl1. now apply Allow_within_burst. }
      destruct (Allow_config rl now clientIP) as [Hrpm1 Hburst1].
      rewrite <- Hrl1 in Hrpm1, Hburst1.
      assert (Hstep : forall ip, is_Some (middleware.clients rl !! ip) \/ ip = clientIP ->
                                 is_Some (middleware.clients rl1 !! ip)).
      { intros ip Hip. rewrite Hrl1, Allow_steps. cbn [fst middleware.clients].
        destruct (decide (ip = clientIP)) as [->|Hne].
        - rewrite lookup_insert_eq. eauto.
        - rewrite lookup_insert_ne by congruence. destruct Hip; [assumption | contradiction]. }
      split; [congruence|]. split; [congruence|]. split; [exact Hwithin|]. split.
      + intros ip Hip. apply Hkeeps, Hstep. now left.
      + intros now' ip [[= <- <-] | Hin]; [apply Hkeeps, Hstep; now right | eauto]. }
  specialize (Hgen calls (middleware.NewSimpleRateLimiter requestsPerMinute burstSize)).
  cbv zeta in Hgen. destruct Hgen as (Hrpm & Hburst & Hwithin & _ & Hseen).
  { intros ip client. cbn. rewrite lookup_empty. discriminate. }
  split; [exact Hrpm|]. split; [exact Hburst|]. split; [|split; [exact Hseen|]].
  - intros ip client Hc. apply Hwithin in Hc. cbn in Hburst. lia.
  - intros now clientIP other Hne. rewrite Allow_steps. cbn [fst middleware.clients].
    now rewrite lookup_insert_ne by congruence.
Qed.

End TokenBucket.

(** The answers that a run gave to the calls of one client. *)
Fixpoint answers_to (clientIP : string) (calls : list (Z * string)) (answers : list bool)
  : list bool :=
  match calls, answers with
  | (_, c) :: calls', a :: answers' =>
      if String.eqb c clientIP then a :: answers_to clientIP calls' answers'
      else answers_to clientIP calls' answers'
  | _, _ => []
  end.

Definition calls_of (clientIP : string) (calls : list (Z * string)) : nat :=
  length (List.filter (fun call => String.eqb (snd call) clientIP) calls).

Section StandingClock.

(** While the clock stands still nothing is refilled. *)
Lemma tokensToAdd_standing (rl : middleware.SimpleRateLimiter) (now : Z) :
  (0 <? middleware.tokensToAdd rl now now) = false.
Proof.
  unfold middleware.tokensToAdd, middleware.Sub. rewrite Z.sub_diag.
  change (middleware.Minutes (Z.max F64.min_int64 (Z.min F64.max_int64 0)))
    with (S754_zero false).
  destruct (F64.of_int (middleware.requestsPerMinute rl)) as [s | s | | s m e]; reflexivity.
Qed.

Lemma refilled_standing (rl : middleware.SimpleRateLimiter) (now : Z)
  (client : middleware.clientLimit) :
  middleware.lastRefill client = now -> refilled rl now client = client.
Proof. intros <-. unfold refilled. now rewrite tokensToAdd_standing. Qed.

Lemma serve_standing (now : Z) (clientIP : string) (calls : list (Z * string)) :
  (forall t, In (t, clientIP) calls -> t = now) ->
  forall (rl : middleware.SimpleRateLimiter) (tokens : Z),
    record_of rl now clientIP
    = {| middleware.tokens := tokens; middleware.lastRefill := now |} ->
    answers_to clientIP calls (snd (serve rl calls))
    = replicate (Nat.min (calls_of clientIP calls) (Z.to_nat tokens)) true ++
      replicate (calls_of clientIP calls - Z.to_nat tokens) false.
Proof.
  unfold calls_of.
  induction calls as [|[t c] calls IH]; intros Hnow rl tokens Hrecord; [reflexivity|].
  cbn [serve]. rewrite Allow_steps.
  destruct (serve _ calls) as [rl2 answers] eqn:Hserve.
  cbn [snd answers_to List.filter].
  assert (Hrest : forall t', In (t', clientIP) calls -> t' = now)
    by (intros t' Hin; apply Hnow; now right).
  destruct (String.eqb_spec c clientIP) as [->|Hne].
  - assert (t = now) as -> by (apply Hnow; now left).
    rewrite Hrecord, refilled_standing by reflexivity. cbn [middleware.tokens length].
    specialize (IH Hrest
                  {| middleware.requestsPerMinute := middleware.requestsPerMinute rl;
                     middleware.burstSize := middleware.burstSize rl;
                     middleware.clients :=
                       <[clientIP := spent {| middleware.tokens := tokens;
                                              middleware.lastRefill := now |}]>
                         (middleware.clients rl) |}).
    rewrite Hrecord, refilled_standing in Hserve by reflexivity.
    rewrite Hserve in IH. cbn [snd] in IH.
    unfold record_of in IH. cbn [middleware.clients] in IH.
    rewrite lookup_insert_eq in IH. cbn [default] in IH. unfold spent in IH.
    cbn [middleware.tokens middleware.lastRefill] in IH.
    destruct (Z.ltb_spec 0 tokens) as [Hpos|Hnone].
    + rewrite (IH (tokens - 1) eq_refl).
      replace (Z.to_nat tokens) with (S (Z.to_nat (tokens - 1))) by lia.
      reflexivity.
    + rewrite (IH tokens eq_refl).
      replace (Z.to_nat tokens) with 0%nat by lia.
      rewrite !Nat.min_0_r, !Nat.sub_0_r. reflexivity.
  - specialize (IH Hrest
                  {| middleware.requestsPerMinute := middleware.requestsPerMinute rl;
                     middleware.burstSize := middleware.burstSize rl;
                     middleware.clients :=
                       <[c := spent (refilled rl t (record_of rl t c))]>
                         (middleware.clients rl) |} tokens).
    rewrite Hserve in IH. cbn [snd] in IH. apply IH.
    unfold record_of in *. cbn [middleware.clients middleware.burstSize].
    rewrite lookup_insert_ne by congruence. exact Hrecord.
Qed.

(** A burst.  A client that the limiter has not seen, whose calls all
    arrive at one reading of the clock, is allowed the burst size of them
    and refused the rest (all of them, when the burst size is not
    positive), whatever calls of other clients come in between and whenever
    those arrive. *)
Theorem Allow_burst_at_a_standing_clock (rl : middleware.SimpleRateLimiter) (now : Z)
  (clientIP : string) (calls : list (Z * string)) :
  middleware.clients rl !! clientIP = None ->
  (forall t, In (t, clientIP) calls -> t = now) ->
  answers_to clientIP calls (snd (serve rl calls))
  = replicate (Nat.min (calls_of clientIP calls) (Z.to_nat (middleware.burstSize rl))) true ++
    replicate (calls_of clientIP calls - Z.to_nat (middleware.burstSize rl)) false.
Proof.
  intros Hnew Hnow. apply (serve_standing now); [exact Hnow|].
  unfold record_of. now rewrite Hnew.
Qed.

(** The limiter counts a request against the address that the request
    itself names in X-Forwarded-For: a request that names there an address
    the limiter has not seen is handed on, whatever its peer address and
    however many requests of that peer were served before. *)
Theorem RateLimit_counts_the_forwarded_address (limiter : middleware.SimpleRateLimiter)
  (now : Z) (r : middleware.Request) :
  0 < middleware.burstSize limiter ->
  middleware.X_Forwarded_For r <> "" ->
  no_byte "," (middleware.X_Forwarded_For r) = true ->
  middleware.clients limiter !! middleware.X_Forwarded_For r = None ->
  snd (middleware.RateLimit limiter now r) = middleware.Next /\
  middleware.clients (fst (middleware.RateLimit limiter now r)) !! middleware.RemoteAddr r
  = (if String.eqb (middleware.RemoteAddr r) (middleware.X_Forwarded_For r)
     then Some {| middleware.tokens := middleware.burstSize limiter - 1;
                  middleware.lastRefill := now |}
     else middleware.clients limiter !! middleware.RemoteAddr r).
Proof.
  intros Hburst Hne Hno Hnew. unfold middleware.RateLimit. cbv zeta.
  rewrite (getClientIP_single r Hne Hno).
  rewrite Allow_steps. unfold record_of. rewrite Hnew. cbn [default].
  rewrite refilled_standing by reflexivity. cbn [middleware.tokens].
  destruct (Z.ltb_spec 0 (middleware.burstSize limiter)); [|lia].
  cbn [fst snd middleware.clients]. split; [reflexivity|].
  unfold spent. cbn [middleware.tokens middleware.lastRefill].
  destruct (Z.ltb_spec 0 (middleware.burstSize limiter)); [|lia].
  destruct (String.eqb_spec (middleware.RemoteAddr r) (middleware.X_Forwarded_For r)) as [->|Hother].
  - now rewrite lookup_insert_eq.
  - now rewrite lookup_insert_ne by congruence.
Qed.

End StandingClock.

Definition burst_calls : list (Z * string) :=
  [(5, "a"); (9, "b"); (5, "a"); (5, "a"); (7, "b"); (5, "a")].

Lemma Allow_burst_at_a_standing_clock_witness :
  answers_to "a" burst_calls (snd (serve (middleware.NewSimpleRateLimiter 60 3) burst_calls))
  = [true; true; true; false].
Proof.
  assert (Hnow : forall t, In (t, "a") burst_calls -> t = 5).
  { intros t Hin. simpl in Hin.
    repeat (destruct Hin as [Hin | Hin]; [congruence|]). destruct Hin. }
  exact (Allow_burst_at_a_standing_clock (middleware.NewSimpleRateLimiter 60 3) 5 "a"
           burst_calls eq_refl Hnow).
Defined.

(** A peer that has used up its one token, and its next request, which
    names another address. *)
Definition exhausted_peer : middleware.SimpleRateLimiter :=
  fst (serve (middleware.NewSimpleRateLimiter 60 1) [(0, "10.0.0.1")]).

Definition forwarded_request : middleware.Request :=
  {| middleware.X_Forwarded_For := "1.2.3.4"; middleware.X_Real_IP := "";
     middleware.RemoteAddr := "10.0.0.1" |}.

Lemma RateLimit_counts_the_forwarded_address_witness :
  snd (middleware.Allow exhausted_peer 0 "10.0.0.1") = false /\
  snd (middleware.RateLimit exhausted_peer 0 forwarded_request) = middleware.Next.
Proof.
  split; [vm_compute; reflexivity|].
  refine (proj1 (RateLimit_counts_the_forwarded_address exhausted_peer 0 forwarded_request
                   _ _ _ _)).
  - vm_compute. reflexivity.
  - discriminate.
  - reflexivity.
  - vm_compute. reflexivity.
Defined.

(* ===================================================================== *)
(** ** The TTL classes of keys *)
(* ===================================================================== *)

Section TTLClasses.
#[local] Arguments String.append : simpl nomatch.

(** A text without a byte contains no pattern that holds the byte. *)
Lemma HasPrefix_no_byte (c : ascii) (pattern s : string) :
  no_byte c s = true -> no_byte c pattern = false -> Strings.HasPrefix s pattern = false.
Proof.
  revert s. induction pattern as [|p pattern IH]; intros s Hs Hp; [discriminate|].
  destruct s as [|b s]; [reflexivity|]. cbn [Strings.HasPrefix no_byte] in *.
  apply andb_true_iff in Hs as [Hb Hs]. apply negb_true_iff in Hb.
  destruct (Ascii.eqb_spec p b) as [->|]; [|reflexivity].
  rewrite Hb in Hp. cbn [negb andb] in Hp. now apply IH.
Qed.

Lemma Contains_no_byte (c : ascii) (pattern s : string) :
  no_byte c s = true -> no_byte c pattern = false -> Strings.Contains s pattern = false.
Proof.
  intros Hs Hp. induction s as [|b s IH]; cbn [Strings.Contains].
  - now rewrite (HasPrefix_no_byte c).
  - rewrite (HasPrefix_no_byte c) by assumption.
    cbn [no_byte] in Hs. apply andb_true_iff in Hs as [_ Hs]. now apply IH.
Qed.

(** A pattern with a colon, laid over a text that has its first colon after
    [g]: the part before the colon is [g], and the rest goes on. *)
Lemma HasPrefix_colon (g rest p1 p2 : string) :
  no_byte ":" g = true -> no_byte ":" p1 = true ->
  Strings.HasPrefix (g ++ String ":" rest) (p1 ++ String ":" p2)
  = String.eqb g p1 && Strings.HasPrefix rest p2.
Proof.
  revert p1. induction g as [|b g IH]; intros [|p p1] Hg Hp1;
    cbn [String.append Strings.HasPrefix String.eqb no_byte] in *.
  - reflexivity.
  - apply andb_true_iff in Hp1 as [Hp _]. apply negb_true_iff in Hp.
    now rewrite Hp.
  - apply andb_true_iff in Hg as [Hb _]. apply negb_true_iff in Hb.
    rewrite Ascii.eqb_sym. now rewrite Hb.
  - apply andb_true_iff in Hg as [_ Hg]. apply andb_true_iff in Hp1 as [_ Hp1].
    rewrite (Ascii.eqb_sym p b). destruct (Ascii.eqb b p); [now apply IH | reflexivity].
Qed.

Lemma Contains_colon (g rest pattern p1 p2 : string) :
  pattern = (p1 ++ String ":" p2)%string ->
  no_byte ":" g = true -> no_byte ":" p1 = true ->
  Strings.HasPrefix rest p2 = false ->
  Strings.Contains (g ++ String ":" rest) pattern = Strings.Contains (String ":" rest) pattern.
Proof.
  intros -> Hg Hp1 Hrest. induction g as [|b g IH]; [reflexivity|].
  change (Strings.Contains (String b g ++ String ":" rest) (p1 ++ String ":" p2))
    with (if Strings.HasPrefix (String b g ++ String ":" rest) (p1 ++ String ":" p2) then true
          else Strings.Contains (g ++ String ":" rest) (p1 ++ String ":" p2)).
  rewrite HasPrefix_colon, Hrest, andb_false_r by assumption.
  apply IH. cbn [no_byte] in Hg. now apply andb_true_iff in Hg as [_ ?].
Qed.

Lemma utoa_no_colon (fuel : nat) :
  forall n acc, 0 <= n -> no_byte ":" acc = true -> no_byte ":" (cache.utoa fuel n acc) = true.
Proof.
  induction fuel as [|fuel IH]; intros n acc Hn Hacc; cbn [cache.utoa]; [exact Hacc|].
  assert (Hdigit : no_byte ":" (String (cache.digit (n mod 10)) acc) = true).
  { cbn [no_byte]. rewrite Hacc, andb_true_r. unfold cache.digit.
    pose proof (Z.mod_pos_bound n 10 ltac:(lia)) as Hmod.
    assert (Hcases : n mod 10 = 0 \/ n mod 10 = 1 \/ n mod 10 = 2 \/ n mod 10 = 3 \/ n mod 10 = 4 \/
                     n mod 10 = 5 \/ n mod 10 = 6 \/ n mod 10 = 7 \/ n mod 10 = 8 \/ n mod 10 = 9)
      by lia.
    repeat (destruct Hcases as [-> | Hcases]; [reflexivity|]). now rewrite Hcases. }
  destruct (n <? 10); [exact Hdigit|]. apply IH; [|exact Hdigit].
  apply Z.div_pos; lia.
Qed.

Lemma itoa_no_colon (n : Z) : no_byte ":" (cache.itoa n) = true.
Proof.
  unfold cache.itoa. destruct (Z.ltb_spec n 0).
  - cbn [String.append no_byte]. apply utoa_no_colon; [lia | reflexivity].
  - apply utoa_no_colon; [lia | reflexivity].
Qed.

(** A pattern of two fields or more does not occur in a trending key whose
    tile holds no colon, when it occurs neither at the head of the key nor
    across "limit". *)
Lemma TrendingKey_without (geohash : string) (limit : Z) (pattern p1 p2 : string) :
  pattern = (p1 ++ String ":" p2)%string ->
  no_byte ":" p1 = true ->
  no_byte ":" geohash = true ->
  (forall rest, Strings.Contains ("trending:geohash:" ++ rest) pattern
                = Strings.Contains rest pattern) ->
  (forall digits, Strings.HasPrefix ("limit:" ++ digits) p2 = false) ->
  (forall digits, Strings.Contains (String ":" ("limit:" ++ digits)) pattern
                  = Strings.Contains digits pattern) ->
  Strings.Contains (cache.TrendingKey geohash limit) pattern = false.
Proof.
  intros Hpattern Hp1 Hg Hhead Hlimit Htail. unfold cache.TrendingKey.
  rewrite Hhead.
  change (geohash ++ ":limit:" ++ cache.itoa limit)%string
    with (geohash ++ String ":" ("limit:" ++ cache.itoa limit))%string.
  rewrite (Contains_colon geohash _ pattern p1 p2 Hpattern Hg Hp1 (Hlimit _)), Htail.
  apply (Contains_no_byte ":"); [apply itoa_no_colon|].
  subst pattern. clear. induction p1 as [|c p1 IH]; cbn [String.append no_byte].
  - reflexivity.
  - rewrite IH. apply andb_false_r.
Qed.

(** A pattern that holds a colon does not occur in a key made of a head
    and a text without colon, when it does not occur in the head. *)
Lemma key_without (head id pattern : string) :
  no_byte ":" id = true ->
  no_byte ":" pattern = false ->
  Strings.Contains (head ++ id) pattern = Strings.Contains id pattern ->
  Strings.Contains (head ++ id) pattern = false.
Proof. intros Hid Hpattern ->. now apply (Contains_no_byte ":"). Qed.

Lemma HasPrefix_app_self (p s : string) : Strings.HasPrefix (p ++ s) p = true.
Proof.
  induction p as [|c p IH]; cbn [String.append Strings.HasPrefix].
  - now destruct s.
  - now rewrite Ascii.eqb_refl.
Qed.

(** A key contains its own head. *)
Lemma Contains_head (p s : string) : Strings.Contains (p ++ s) p = true.
Proof.
  destruct p as [|c p]; cbn [String.append].
  - destruct s; reflexivity.
  - change (Strings.Contains (String c (p ++ s)) (String c p))
      with (if Strings.HasPrefix (String c p ++ s) (String c p) then true
            else Strings.Contains (p ++ s) (String c p)).
    now rewrite HasPrefix_app_self.
Qed.

(** [GetTTL] on the keys that keys.go builds.  An article key has the TTL
    of articles, whatever the id.  A summary key has the TTL of summaries
    unless its id contains the text "news:article:", which comes first in
    [GetTTL] and gives it the TTL of articles.  A trending key, a geohash
    key and a user event key whose tile or id holds no colon have the TTL of
    their class; a rate limit key of such an address has the default of five
    minutes. *)
Theorem GetTTL_of_keys :
  (forall id, cache.GetTTL (cache.ArticleKey id) = cache.ArticleTTL) /\
  (forall id, cache.GetTTL (cache.SummaryKey id)
              = if Strings.Contains id "news:article:" then cache.ArticleTTL
                else cache.SummaryTTL) /\
  (forall geohash limit,
     no_byte ":" geohash = true ->
     cache.GetTTL (cache.TrendingKey geohash limit) = cache.TrendingTTL) /\
  (forall geohash,
     no_byte ":" geohash = true -> cache.GetTTL (cache.GeohashKey geohash) = cache.GeohashTTL) /\
  (forall articleID,
     no_byte ":" articleID = true ->
     cache.GetTTL (cache.UserEventKey articleID) = cache.UserEventTTL) /\
  (forall clientIP,
     no_byte ":" clientIP = true -> cache.GetTTL (cache.RateLimitKey clientIP) = 5 * cache.Minute).
Proof.
  split; [|split; [|split; [|split; [|split]]]].
  - intros id. unfold cache.GetTTL, cache.ArticleKey. now rewrite Contains_head.
  - intros id. unfold cache.GetTTL, cache.SummaryKey.
    change (Strings.Contains ("news:summary:" ++ id) "news:article:")
      with (Strings.Contains id "news:article:").
    rewrite Contains_head. reflexivity.
  - intros geohash limit Hg. unfold cache.GetTTL.
    rewrite (TrendingKey_without geohash limit "news:article:" "news" "article:");
      [|reflexivity | reflexivity | assumption | reflexivity | reflexivity | reflexivity].
    rewrite (TrendingKey_without geohash limit "news:summary:" "news" "summary:");
      [|reflexivity | reflexivity | assumption | reflexivity | reflexivity | reflexivity].
    rewrite (TrendingKey_without geohash limit "cache:v1:search:" "cache" "v1:search:");
      [|reflexivity | reflexivity | assumption | reflexivity | reflexivity | reflexivity].
    rewrite (TrendingKey_without geohash limit "cache:v1:category:" "cache" "v1:category:");
      [|reflexivity | reflexivity | assumption | reflexivity | reflexivity | reflexivity].
    rewrite (TrendingKey_without geohash limit "cache:v1:source:" "cache" "v1:source:");
      [|reflexivity | reflexivity | assumption | reflexivity | reflexivity | reflexivity].
    rewrite (TrendingKey_without geohash limit "cache:v1:score:" "cache" "v1:score:");
      [|reflexivity | reflexivity | assumption | reflexivity | reflexivity | reflexivity].
    rewrite (TrendingKey_without geohash limit "cache:v1:nearby:" "cache" "v1:nearby:");
      [|reflexivity | reflexivity | assumption | reflexivity | reflexivity | reflexivity].
    unfold cache.TrendingKey. now rewrite Contains_head.
  - intros geohash Hg. unfold cache.GetTTL, cache.GeohashKey.
    repeat (rewrite (key_without "geo:hash:" geohash) by (assumption || reflexivity)).
    now rewrite Contains_head.
  - intros articleID Hid. unfold cache.GetTTL, cache.UserEventKey.
    repeat (rewrite (key_without "events:article:" articleID) by (assumption || reflexivity)).
    now rewrite Contains_head.
  - intros clientIP Hip. unfold cache.GetTTL, cache.RateLimitKey.
    repeat (rewrite (key_without "ratelimit:ip:" clientIP) by (assumption || reflexivity)).
    reflexivity.
Qed.

End TTLClasses.

(* ===================================================================== *)
(** ** [ParseGeohash] *)
(* ===================================================================== *)

Section ParsedCoordinates.

Lemma byte_bounds (c : ascii) : 0 <= cache.byte c < 256.
Proof.
  unfold cache.byte. pose proof (nat_ascii_bounded c). lia.
Qed.

Lemma land_bounds (b : Z) (n : Z) : 0 <= b -> 0 <= n -> 0 <= Z.land b (Z.ones n) < 2 ^ n.
Proof. intros Hb Hn. rewrite Z.land_ones by assumption. apply Z.mod_pos_bound. lia. Qed.

Lemma lor_bounds (a b : Z) : 0 <= a -> 0 <= b -> 0 <= Z.lor a b <= a + b.
Proof.
  intros Ha Hb. split; [now apply Z.lor_nonneg|].
  pose proof (Z.add_lor_land a b). pose proof (proj2 (Z.land_nonneg a b) (or_introl Ha)). lia.
Qed.

(** A rune is below 2^21, and its width is one to four bytes, all of them
    in the text. *)
Lemma decoderune_bounds (s : string) (char size : Z) :
  s <> "" ->
  cache.decoderune s = (char, size) ->
  0 <= char < 2 ^ 21 /\ 1 <= size /\
  Z.of_nat (String.length (cache.skip (Z.to_nat size) s)) = Z.of_nat (String.length s) - size.
Proof.
  change (2 ^ 21) with 2097152.
  intros Hne. destruct s as [|c0 s1]; [contradiction|]. unfold cache.decoderune.
  pose proof (byte_bounds c0) as H0.
  assert (Herror : forall char size, (cache.RuneError, 1) = (char, size) ->
            0 <= char < 2097152 /\ 1 <= size /\
            Z.of_nat (String.length (cache.skip (Z.to_nat size) (String c0 s1)))
            = Z.of_nat (String.length (String c0 s1)) - size).
  { intros ? ? [= <- <-]. unfold cache.RuneError.
    change (Z.to_nat 1) with 1%nat; change (Z.to_nat 2) with 2%nat;
    change (Z.to_nat 3) with 3%nat; change (Z.to_nat 4) with 4%nat; cbn [cache.skip String.length]. lia. }
  destruct (Z.ltb_spec (cache.byte c0) 128).
  { intros [= <- <-]. change (Z.to_nat 1) with 1%nat; change (Z.to_nat 2) with 2%nat;
    change (Z.to_nat 3) with 3%nat; change (Z.to_nat 4) with 4%nat; cbn [cache.skip String.length].
    lia. }
  destruct (cache.first (cache.byte c0)) as [[width lo] hi].
  destruct (width =? 1); [apply Herror|].
  destruct s1 as [|c1 s2]; [apply Herror|].
  pose proof (byte_bounds c1) as H1.
  destruct (_ || _); [apply Herror|].
  pose proof (land_bounds (cache.byte c0) 5 ltac:(lia) ltac:(lia)) as M5.
  pose proof (land_bounds (cache.byte c0) 4 ltac:(lia) ltac:(lia)) as M4.
  pose proof (land_bounds (cache.byte c0) 3 ltac:(lia) ltac:(lia)) as M3.
  pose proof (land_bounds (cache.byte c1) 6 ltac:(lia) ltac:(lia)) as X1.
  change (2 ^ 5) with 32 in M5. change (2 ^ 4) with 16 in M4. change (2 ^ 3) with 8 in M3.
  change (2 ^ 6) with 64 in X1.
  change (Z.ones 5) with 31 in M5. change (Z.ones 4) with 15 in M4.
  change (Z.ones 3) with 7 in M3. change (Z.ones 6) with 63 in X1.
  destruct (width =? 2).
  { intros [= <- <-]. rewrite Z.shiftl_mul_pow2 by lia. change (2 ^ 6) with 64.
    pose proof (lor_bounds (Z.land (cache.byte c0) 31 * 64) (Z.land (cache.byte c1) 63)
                  ltac:(lia) ltac:(lia)).
    change (Z.to_nat 1) with 1%nat; change (Z.to_nat 2) with 2%nat;
    change (Z.to_nat 3) with 3%nat; change (Z.to_nat 4) with 4%nat; cbn [cache.skip String.length]. lia. }
  destruct s2 as [|c2 s3]; [apply Herror|].
  pose proof (byte_bounds c2) as H2.
  pose proof (land_bounds (cache.byte c2) 6 ltac:(lia) ltac:(lia)) as X2.
  change (2 ^ 6) with 64 in X2. change (Z.ones 6) with 63 in X2.
  destruct (negb _); [apply Herror|].
  destruct (width =? 3).
  { intros [= <- <-]. rewrite !Z.shiftl_mul_pow2 by lia.
    change (2 ^ 12) with 4096. change (2 ^ 6) with 64.
    pose proof (lor_bounds (Z.land (cache.byte c0) 15 * 4096) (Z.land (cache.byte c1) 63 * 64)
                  ltac:(lia) ltac:(lia)).
    pose proof (lor_bounds (Z.lor (Z.land (cache.byte c0) 15 * 4096)
                                  (Z.land (cache.byte c1) 63 * 64))
                           (Z.land (cache.byte c2) 63) ltac:(lia) ltac:(lia)).
    change (Z.to_nat 1) with 1%nat; change (Z.to_nat 2) with 2%nat;
    change (Z.to_nat 3) with 3%nat; change (Z.to_nat 4) with 4%nat; cbn [cache.skip String.length]. lia. }
  destruct s3 as [|c3 s4]; [apply Herror|].
  pose proof (byte_bounds c3) as H3.
  pose proof (land_bounds (cache.byte c3) 6 ltac:(lia) ltac:(lia)) as X3.
  change (2 ^ 6) with 64 in X3. change (Z.ones 6) with 63 in X3.
  destruct (negb _); [apply Herror|].
  intros [= <- <-]. rewrite !Z.shiftl_mul_pow2 by lia.
  change (2 ^ 18) with 262144. change (2 ^ 12) with 4096. change (2 ^ 6) with 64.
  pose proof (lor_bounds (Z.land (cache.byte c0) 7 * 262144) (Z.land (cache.byte c1) 63 * 4096)
                ltac:(lia) ltac:(lia)).
  pose proof (lor_bounds (Z.lor (Z.land (cache.byte c0) 7 * 262144)
                                (Z.land (cache.byte c1) 63 * 4096))
                         (Z.land (cache.byte c2) 63 * 64) ltac:(lia) ltac:(lia)).
  pose proof (lor_bounds (Z.lor (Z.lor (Z.land (cache.byte c0) 7 * 262144)
                                       (Z.land (cache.byte c1) 63 * 4096))
                                (Z.land (cache.byte c2) 63 * 64))
                         (Z.land (cache.byte c3) 63) ltac:(lia) ltac:(lia)).
  change (Z.to_nat 1) with 1%nat; change (Z.to_nat 2) with 2%nat;
    change (Z.to_nat 3) with 3%nat; change (Z.to_nat 4) with 4%nat; cbn [cache.skip String.length]. lia.
Qed.

Lemma wrap64_small (z : Z) : - 2 ^ 63 <= z < 2 ^ 63 -> cache.wrap64 z = z.
Proof.
  intros Hz. unfold cache.wrap64. rewrite Z.mod_small by lia. lia.
Qed.

(** The sum neither wraps nor turns negative on a text of at most [bound]
    bytes, for [bound] up to 2^20. *)
Lemma hash_loop_bounds (bound : Z) (fuel : nat) :
  bound <= 2 ^ 20 ->
  forall (i : Z) (s : string) (hash : Z),
    0 <= i -> 0 <= hash ->
    i + Z.of_nat (String.length s) <= bound ->
    hash + Z.of_nat (String.length s) * (2 ^ 21 * bound) <= 2 ^ 62 ->
    0 <= cache.hash_loop fuel i s hash
      <= hash + Z.of_nat (String.length s) * (2 ^ 21 * bound).
Proof.
  intros Hbound. induction fuel as [|fuel IH]; intros i s hash Hi Hhash Hlen Hsum;
    cbn [cache.hash_loop]; [nia|].
  destruct s as [|c s]; [cbn; lia|].
  destruct (cache.decoderune (String c s)) as [char size] eqn:Hrune.
  apply decoderune_bounds in Hrune as (Hchar & Hsize & Hskip); [|discriminate].
  assert (Hterm : 0 <= char * (i + 1) <= 2 ^ 21 * bound).
  { cbn [String.length] in Hlen. nia. }
  set (rest := cache.skip (Z.to_nat size) (String c s)) in *.
  assert (Hrest : Z.of_nat (String.length rest) <= Z.of_nat (String.length (String c s)) - 1)
    by lia.
  assert (Hpos : 0 <= 2 ^ 21 * bound) by lia.
  rewrite (wrap64_small (char * (i + 1))) by lia.
  rewrite wrap64_small by nia.
  specialize (IH (i + size) rest (hash + char * (i + 1))).
  assert (Hstep : hash + char * (i + 1) + Z.of_nat (String.length rest) * (2 ^ 21 * bound)
                  <= hash + Z.of_nat (String.length (String c s)) * (2 ^ 21 * bound)) by nia.
  assert (0 <= cache.hash_loop fuel (i + size) rest (hash + char * (i + 1))
            <= hash + char * (i + 1) + Z.of_nat (String.length rest) * (2 ^ 21 * bound)).
  { apply IH; lia. }
  lia.
Qed.

(** [ParseGeohash] fails on the empty text only.  On a text of less than
    2^20 bytes it answers a latitude and a longitude in thousandths of a
    degree, the latitude from -90 to 89.999 and the longitude from -180 to
    179.999, the two always 90 degrees apart: the longitude is the latitude
    plus or minus 90. *)
Theorem ParseGeohash_coordinates (geohash : string) :
  (geohash = "" -> cache.ParseGeohash geohash = Err "empty geohash") /\
  (geohash <> "" -> Z.of_nat (String.length geohash) < 2 ^ 20 ->
   exists lat lon : Z,
     cache.ParseGeohash geohash
     = Ok (F64.div (F64.of_int lat) (F64.of_int 1000), F64.div (F64.of_int lon) (F64.of_int 1000)) /\
     -90000 <= lat < 90000 /\ -180000 <= lon < 180000 /\
     (lon = lat - 90000 \/ lon = lat + 90000)).
Proof.
  split; [now intros ->|]. intros Hne Hlen. unfold cache.ParseGeohash.
  destruct (Nat.eqb_spec (String.length geohash) 0) as [Hempty|_].
  { destruct geohash; [contradiction | discriminate]. }
  cbv zeta. set (hash := cache.hash_loop _ 0 geohash 0).
  assert (Hhash : 0 <= hash).
  { apply (hash_loop_bounds (2 ^ 20)); nia. }
  eexists _, _. split; [reflexivity|].
  rewrite !Z.rem_mod_nonneg by lia.
  pose proof (Z.mod_pos_bound hash 180000 ltac:(lia)).
  pose proof (Z.mod_pos_bound hash 360000 ltac:(lia)).
  pose proof (Z.div_mod hash 180000 ltac:(lia)).
  pose proof (Z.div_mod hash 360000 ltac:(lia)).
  repeat split; try lia.
Qed.

End ParsedCoordinates.

(* ===================================================================== *)
(** ** [GenerateGeohash] *)
(* ===================================================================== *)

(** The two numbers that [GenerateGeohash] combines: the digits of the
    latitude and of the longitude from the millionth of a degree up to the
    tenth, as [int((lat + 90.0) * 1000000) % 1000000] leaves them. *)
Definition latHash (lat : float64) : Z :=
  Z.rem (F64.to_int (F64.mul (F64.add lat (F64.dec 900 1)) (F64.of_int 1000000))) 1000000.

Definition lonHash (lon : float64) : Z :=
  Z.rem (F64.to_int (F64.mul (F64.add lon (F64.dec 1800 1)) (F64.of_int 1000000))) 1000000.

Section Tiles.
#[local] Arguments String.append : simpl nomatch.

Lemma base32_get (n : nat) :
  (n < 32)%nat -> exists c, String.get n cache.base32 = Some c /\ Ascii.eqb c ":" = false.
Proof.
  intros Hn.
  do 32 (destruct n as [|n]; [eexists; split; reflexivity|]). lia.
Qed.

Lemma no_byte_app (c : ascii) (s t : string) :
  no_byte c (s ++ t) = no_byte c s && no_byte c t.
Proof.
  induction s as [|b s IH]; cbn [String.append no_byte]; [reflexivity|].
  now rewrite IH, andb_assoc.
Qed.

Lemma string_length_app (s t : string) :
  String.length (s ++ t) = (String.length s + String.length t)%nat.
Proof. induction s as [|b s IH]; cbn [String.append String.length]; [reflexivity | now rewrite IH]. Qed.

Lemma geohash_loop_tile (precision : nat) :
  forall combined geohash,
    0 <= combined ->
    exists tile,
      cache.geohash_loop precision combined geohash = Some (geohash ++ tile)%string /\
      String.length tile = precision /\ no_byte ":" tile = true.
Proof.
  induction precision as [|precision IH]; intros combined geohash Hcombined;
    cbn [cache.geohash_loop].
  - exists "". split; [|split; reflexivity]. f_equal. clear. induction geohash; cbn; congruence.
  - pose proof (Z.rem_bound_pos combined 32 Hcombined ltac:(lia)) as Hrem.
    destruct (Z.ltb_spec (Z.rem combined 32) 0); [lia|].
    destruct (base32_get (Z.to_nat (Z.rem combined 32)) ltac:(lia)) as (c & -> & Hc).
    destruct (IH (Z.quot combined 32) (geohash ++ String c "")%string) as (tile & -> & Hlen & Hno).
    { apply Z.quot_pos; lia. }
    exists (String c tile). split; [|split].
    + f_equal. clear. induction geohash; cbn; congruence.
    + cbn [String.length]. now rewrite Hlen.
    + cbn [no_byte]. now rewrite Hc, Hno.
Qed.

(** For coordinates whose two numbers are not negative, [GenerateGeohash]
    returns, without a panic, a tile of as many characters as the precision
    asks for, none of them a colon (all are of the 32 of the alphabet). *)
Theorem GenerateGeohash_tile (lat lon : float64) (precision : Z) :
  0 <= latHash lat -> 0 <= lonHash lon ->
  exists tile,
    cache.GenerateGeohash lat lon precision = Some tile /\
    String.length tile = Z.to_nat precision /\
    no_byte ":" tile = true.
Proof.
  intros Hlat Hlon. unfold cache.GenerateGeohash. cbv zeta.
  fold (latHash lat). fold (lonHash lon).
  assert (Hlat' : latHash lat < 1000000).
  { unfold latHash. pose proof (Z.rem_bound_abs (F64.to_int (F64.mul (F64.add lat (F64.dec 900 1))
                                                   (F64.of_int 1000000))) 1000000 ltac:(lia)).
    lia. }
  assert (Hlon' : lonHash lon < 1000000).
  { unfold lonHash. pose proof (Z.rem_bound_abs (F64.to_int (F64.mul (F64.add lon (F64.dec 1800 1))
                                                   (F64.of_int 1000000))) 1000000 ltac:(lia)).
    lia. }
  change (2 ^ 63) with 9223372036854775808 in *.
  rewrite (wrap64_small (latHash lat * 1000000))
    by (change (2 ^ 63) with 9223372036854775808; lia).
  rewrite wrap64_small by (change (2 ^ 63) with 9223372036854775808; lia).
  destruct (geohash_loop_tile (Z.to_nat precision) (latHash lat * 1000000 + lonHash lon) "")
    as (tile & Htile & Hlen & Hno); [lia|].
  exists tile. split; [exact Htile|]. split; assumption.
Qed.

End Tiles.

Lemma GenerateGeohash_tile_witness :
  0 <= latHash news.defaultLat /\ 0 <= lonHash news.defaultLon /\
  exists tile,
    cache.GenerateGeohash news.defaultLat news.defaultLon 5 = Some tile /\
    String.length tile = 5%nat /\
    no_byte ":" tile = true.
Proof.
  assert (Hlat : 0 <= latHash news.defaultLat) by (apply Z.leb_le; vm_compute; reflexivity).
  assert (Hlon : 0 <= lonHash news.defaultLon) by (apply Z.leb_le; vm_compute; reflexivity).
  split; [exact Hlat|]. split; [exact Hlon|].
  exact (GenerateGeohash_tile news.defaultLat news.defaultLon 5 Hlat Hlon).
Defined.

(* ===================================================================== *)
(** ** The repository: what [CreateArticle] stores *)
(* ===================================================================== *)

(** One entry per key, as a Go map has: the in-memory map lists every id
    once. *)
Definition keyed (r : repo.repository) : Prop :=
  match repo.articles r with
  | Some m => List.NoDup (map repo.ID m)
  | None => True
  end.

(** A JSON codec for the examples: an article whose relevance score is a
    number goes through unchanged, any other is refused. *)
Definition finite_scores : repo.GoJSON := {|
  repo.json_Marshal := fun a =>
    match repo.RelevanceScore a with
    | S754_nan | S754_infinity _ => Err "json: unsupported value"
    | _ => Ok (repo.ArticleJSON a)
    end
|}.

Section StoredArticle.
Context `{GoLibrary} `{cache.Placement} `{repo.GoJSON}.

Lemma SAdd_other {score doc : Type} (s : gmap string (@cache.entry score doc))
  (key member k : string) :
  k <> key -> cache.SAdd s key member !! k = s !! k.
Proof.
  intros Hk. unfold cache.SAdd.
  destruct (s !! key) as [[[d|ms|z] t]|]; try reflexivity.
  - destruct (existsb _ ms); [reflexivity | now rewrite lookup_insert_ne].
  - now rewrite lookup_insert_ne.
Qed.

Lemma ZAdd_frame {score doc : Type} (s : gmap string (@cache.entry score doc))
  (key member k : string) (sc : score) :
  k <> key -> cache.ZAdd s key member sc !! k = s !! k.
Proof.
  intros Hk. unfold cache.ZAdd.
  destruct (s !! key) as [[[d|ms|z] t]|]; try reflexivity; now rewrite lookup_insert_ne.
Qed.

Lemma fold_SAdd_other {score doc : Type} (prefix id k : string) (categories : list string) :
  forall s : gmap string (@cache.entry score doc),
  (forall category, k <> (prefix ++ Strings.ToLower category)%string) ->
  fold_left (fun c category => cache.SAdd c (prefix ++ Strings.ToLower category) id) categories s !! k
  = s !! k.
Proof.
  induction categories as [|category categories IH]; intros s Hk; [reflexivity|].
  cbn [fold_left]. rewrite IH by exact Hk. now apply SAdd_other.
Qed.

(** What the calls of [CreateArticle] on the cache leave under a key that is
    none of the index keys. *)
Lemma indexes_other (c : gmap string (@cache.entry float64 repo.document))
  (id source k : string) (categories : list string) (sc : float64) :
  (forall suffix, k <> ("articles:" ++ suffix)%string) ->
  cache.ZAdd
    (cache.SAdd
       (fold_left (fun c category =>
                     cache.SAdd c ("articles:category:" ++ Strings.ToLower category) id)
                  categories (cache.SAdd c "articles:all" id))
       ("articles:source:" ++ Strings.ToLower source) id)
    "articles:by_score" id sc !! k
  = c !! k.
Proof.
  intros Hk.
  rewrite ZAdd_frame by exact (Hk "by_score"%string).
  rewrite SAdd_other by exact (Hk ("source:" ++ Strings.ToLower source)%string).
  rewrite fold_SAdd_other by (intros category; exact (Hk ("category:" ++ Strings.ToLower category)%string)).
  now rewrite SAdd_other by exact (Hk "all"%string).
Qed.

Lemma article_key_not_index (id suffix : string) :
  ("article:" ++ id)%string <> ("articles:" ++ suffix)%string.
Proof. cbn. intros [=]. Qed.

Lemma article_key_inj (id id' : string) :
  ("article:" ++ id)%string = ("article:" ++ id')%string -> id = id'.
Proof. cbn. now intros [=]. Qed.

Lemma find_unique (id : string) (m : list repo.Article) (a : repo.Article) :
  List.NoDup (map repo.ID m) -> In a m -> repo.ID a = id ->
  find (fun x => String.eqb (repo.ID x) id) m = Some a.
Proof.
  induction m as [|x m IH]; intros Hnd Hin Hid; [contradiction|].
  cbn [find]. inversion Hnd as [|? ? Hx Hm]; subst.
  destruct Hin as [->|Hin].
  - now rewrite String.eqb_refl.
  - destruct (String.eqb_spec (repo.ID x) (repo.ID a)) as [Heq|_].
    + exfalso. apply Hx. rewrite Heq. now apply in_map.
    + now apply IH.
Qed.

Lemma find_absent (id : string) (m : list repo.Article) :
  (forall x, In x m -> repo.ID x <> id) ->
  find (fun x => String.eqb (repo.ID x) id) m = None.
Proof.
  induction m as [|x m IH]; intros Hm; [reflexivity|].
  cbn [find]. destruct (String.eqb_spec (repo.ID x) id) as [Heq|_].
  - exfalso. exact (Hm x (or_introl eq_refl) Heq).
  - apply IH. intros y Hy. apply Hm. now right.
Qed.

Lemma find_perm (id : string) (m m' : list repo.Article) :
  List.NoDup (map repo.ID m) -> Permutation m m' ->
  find (fun x => String.eqb (repo.ID x) id) m' = find (fun x => String.eqb (repo.ID x) id) m.
Proof.
  intros Hnd Hperm.
  destruct (find (fun x => String.eqb (repo.ID x) id) m) as [a|] eqn:Hfind.
  - apply find_some in Hfind as [Hin Hid]. apply String.eqb_eq in Hid.
    apply find_unique; [|now apply (Permutation_in _ Hperm)|exact Hid].
    apply (Permutation_NoDup (Permutation_map repo.ID Hperm) Hnd).
  - apply find_absent. intros x Hx Hid.
    apply (Permutation_in _ (Permutation_sym Hperm)) in Hx.
    apply (find_none _ _ Hfind) in Hx. cbn in Hx. apply String.eqb_neq in Hx. contradiction.
Qed.

Lemma NoDup_filter_ID (keep : repo.Article -> bool) (m : list repo.Article) :
  List.NoDup (map repo.ID m) -> List.NoDup (map repo.ID (List.filter keep m)).
Proof.
  induction m as [|x m IH]; intros Hnd; [constructor|].
  inversion Hnd as [|? ? Hx Hm]; subst. cbn [List.filter].
  destruct (keep x); [|now apply IH].
  cbn [map]. constructor; [|now apply IH].
  intros Hin. apply Hx. apply in_map_iff in Hin as (y & Hy & Hin).
  apply filter_In in Hin as [Hin _]. rewrite <- Hy. now apply in_map.
Qed.

Lemma assign_NoDup (m : list repo.Article) (a : repo.Article) :
  List.NoDup (map repo.ID m) -> List.NoDup (map repo.ID (repo.assign m a)).
Proof.
  intros Hnd. unfold repo.assign.
  apply (Permutation_NoDup (Permutation_map repo.ID
           (Permutation_sym (cache.placed_perm _ _ a)))).
  cbn [map]. constructor; [|now apply NoDup_filter_ID].
  intros Hin. apply in_map_iff in Hin as (y & Hy & Hin).
  apply filter_In in Hin as [_ Hne]. rewrite Hy, String.eqb_refl in Hne. discriminate.
Qed.

Lemma assign_find_same (m : list repo.Article) (a : repo.Article) :
  List.NoDup (map repo.ID m) ->
  find (fun x => String.eqb (repo.ID x) (repo.ID a)) (repo.assign m a) = Some a.
Proof.
  intros Hnd. apply find_unique; [now apply assign_NoDup| |reflexivity].
  unfold repo.assign. apply (Permutation_in _ (Permutation_sym (cache.placed_perm _ _ a))).
  now left.
Qed.

Lemma find_filter_other (id id' : string) (m : list repo.Article) :
  id <> id' ->
  find (fun x => String.eqb (repo.ID x) id) (List.filter (fun x => negb (String.eqb (repo.ID x) id')) m)
  = find (fun x => String.eqb (repo.ID x) id) m.
Proof.
  intros Hne. induction m as [|x m IH]; [reflexivity|].
  cbn [List.filter find].
  destruct (String.eqb_spec (repo.ID x) id') as [Hx|Hx]; cbn [negb].
  - destruct (String.eqb_spec (repo.ID x) id) as [Hx'|_]; [congruence | exact IH].
  - cbn [find]. destruct (String.eqb (repo.ID x) id); [reflexivity | exact IH].
Qed.

Lemma assign_find_other (id : string) (m : list repo.Article) (a : repo.Article) :
  List.NoDup (map repo.ID m) -> id <> repo.ID a ->
  find (fun x => String.eqb (repo.ID x) id) (repo.assign m a)
  = find (fun x => String.eqb (repo.ID x) id) m.
Proof.
  intros Hnd Hne. unfold repo.assign.
  rewrite (find_perm id (a :: List.filter (fun x => negb (String.eqb (repo.ID x) (repo.ID a))) m)).
  - cbn [find]. destruct (String.eqb_spec (repo.ID a) id) as [Heq|_]; [congruence|].
    now apply find_filter_other.
  - cbn [map]. constructor; [|now apply NoDup_filter_ID].
    intros Hin. apply in_map_iff in Hin as (y & Hy & Hin).
    apply filter_In in Hin as [_ Hne']. rewrite Hy, String.eqb_refl in Hne'. discriminate.
  - apply Permutation_sym, cache.placed_perm.
Qed.

(** The article that [CreateArticle] builds from its argument. *)
Definition created (r : repo.repository) (arg : repo.CreateArticleParams) : repo.Article := {|
  repo.ID := if String.eqb (repo.Create_ID arg) ""
             then "article_" ++ cache.itoa (repo.nextID r) else repo.Create_ID arg;
  repo.Title := repo.Create_Title arg;
  repo.Description := repo.Create_Description arg;
  repo.URL := repo.Create_URL arg;
  repo.PublicationDate := repo.Create_PublicationDate arg;
  repo.SourceName := repo.Create_SourceName arg;
  repo.Category := repo.Create_Category arg;
  repo.RelevanceScore := repo.Create_RelevanceScore arg;
  repo.Latitude := repo.Create_Latitude arg;
  repo.Longitude := repo.Create_Longitude arg
|}.

Lemma CreateArticle_result (r : repo.repository) (arg : repo.CreateArticleParams) :
  snd (repo.CreateArticle r arg) = Ok (created r arg).
Proof.
  unfold repo.CreateArticle, created.
  destruct (String.eqb (repo.Create_ID arg) ""); cbv zeta;
    destruct (repo.rcache r); [destruct (repo.json_Marshal _)| |destruct (repo.json_Marshal _)|];
    reflexivity.
Qed.

Lemma CreateArticle_memory (r : repo.repository) (arg : repo.CreateArticleParams) :
  repo.rcache r = None ->
  repo.rcache (fst (repo.CreateArticle r arg)) = None /\
  repo.articles (fst (repo.CreateArticle r arg))
  = Some (repo.assign (match repo.articles r with Some m => m | None => [] end) (created r arg)).
Proof.
  intros Hc. unfold repo.CreateArticle, created.
  destruct (String.eqb (repo.Create_ID arg) ""); cbv zeta; rewrite Hc; split; reflexivity.
Qed.

Lemma CreateArticle_cache (r : repo.repository) (arg : repo.CreateArticleParams)
  (c : gmap string (@cache.entry float64 repo.document)) :
  repo.rcache r = Some c ->
  repo.articles (fst (repo.CreateArticle r arg)) = repo.articles r /\
  repo.rcache (fst (repo.CreateArticle r arg))
  = Some match repo.json_Marshal (created r arg) with
         | Ok articleData =>
             cache.ZAdd
               (cache.SAdd
                  (fold_left
                     (fun c category =>
                        cache.SAdd c ("articles:category:" ++ Strings.ToLower category)
                                   (repo.ID (created r arg)))
                     (repo.Create_Category arg)
                     (cache.SAdd
                        (cache.Set_ c ("article:" ++ repo.ID (created r arg)) articleData
                                    (24 * cache.Hour))
                        "articles:all" (repo.ID (created r arg))))
                  ("articles:source:" ++ Strings.ToLower (repo.Create_SourceName arg))
                  (repo.ID (created r arg)))
               "articles:by_score" (repo.ID (created r arg)) (repo.Create_RelevanceScore arg)
         | Err _ => c
         end.
Proof.
  intros Hc. unfold repo.CreateArticle, created.
  destruct (String.eqb (repo.Create_ID arg) ""); cbv zeta; rewrite Hc;
    cbn [repo.ID repo.Category repo.SourceName repo.RelevanceScore];
    destruct (repo.json_Marshal _); split; reflexivity.
Qed.

Lemma GetArticleByID_depends (r r' : repo.repository) (id : string) :
  match repo.rcache r, repo.rcache r' with
  | Some c, Some c' => c' !! ("article:" ++ id)%string = c !! ("article:" ++ id)%string
  | None, None => True
  | _, _ => False
  end ->
  repo.lookup_memory r' id = repo.lookup_memory r id ->
  repo.GetArticleByID r' id = repo.GetArticleByID r id.
Proof.
  intros Hc Hm. unfold repo.GetArticleByID, cache.Get.
  destruct (repo.rcache r) as [c|], (repo.rcache r') as [c'|]; try contradiction.
  - now rewrite Hc, Hm.
  - exact Hm.
Qed.

Lemma keyed_map (r : repo.repository) :
  keyed r -> List.NoDup (map repo.ID (match repo.articles r with Some m => m | None => [] end)).
Proof. unfold keyed. destruct (repo.articles r); [trivial | constructor]. Qed.

Lemma created_read_back (r : repo.repository) (arg : repo.CreateArticleParams)
  (c : gmap string (@cache.entry float64 repo.document)) (stored : repo.Article) :
  repo.rcache r = Some c -> repo.json_Marshal (created r arg) = Ok (repo.ArticleJSON stored) ->
  repo.GetArticleByID (fst (repo.CreateArticle r arg)) (repo.ID (created r arg)) = Ok stored.
Proof.
  intros Hc Hjson. destruct (CreateArticle_cache r arg c Hc) as [_ Hc'].
  rewrite Hjson in Hc'.
  unfold repo.GetArticleByID, cache.Get. rewrite Hc'.
  rewrite indexes_other by (intros suffix; apply article_key_not_index).
  unfold cache.Set_. rewrite lookup_insert_eq. reflexivity.
Qed.

(** [CreateArticle] never fails: it answers the article built from its
    argument.  In the in-memory mode the article is then read under its id,
    whatever the map held.  With a cache, reading the id gives what JSON
    made of the article; when JSON refuses the article, the cache is left
    as it was and the call reports nothing.  In both modes a call leaves
    what is read under every other id as it was. *)
Theorem CreateArticle_then_GetArticleByID (r : repo.repository) (arg : repo.CreateArticleParams) :
  keyed r ->
  let r' := fst (repo.CreateArticle r arg) in
  let article := created r arg in
  snd (repo.CreateArticle r arg) = Ok article /\
  (repo.rcache r = None -> repo.GetArticleByID r' (repo.ID article) = Ok article) /\
  (forall c stored,
     repo.rcache r = Some c -> repo.json_Marshal article = Ok (repo.ArticleJSON stored) ->
     repo.GetArticleByID r' (repo.ID article) = Ok stored) /\
  (forall c e,
     repo.rcache r = Some c -> repo.json_Marshal article = Err e ->
     repo.rcache r' = Some c /\ repo.articles r' = repo.articles r) /\
  (forall id, id <> repo.ID article -> repo.GetArticleByID r' id = repo.GetArticleByID r id) /\
  keyed r'.
Proof.
  intros Hkeyed r' article. subst r' article. pose proof (keyed_map r Hkeyed) as Hnd.
  split; [apply CreateArticle_result|]. split; [|split; [|split; [|split]]].
  - intros Hc. destruct (CreateArticle_memory r arg Hc) as [Hc' Hm'].
    unfold repo.GetArticleByID, repo.lookup_memory. rewrite Hc'.
    rewrite Hm'. now rewrite assign_find_same.
  - intros c stored. apply created_read_back.
  - intros c e Hc Hjson. destruct (CreateArticle_cache r arg c Hc) as [Hm' Hc'].
    rewrite Hjson in Hc'. split; assumption.
  - intros id Hid. apply GetArticleByID_depends.
    + destruct (repo.rcache r) as [c|] eqn:Hc.
      * destruct (CreateArticle_cache r arg c Hc) as [_ Hc'].
        rewrite Hc'.
        destruct (repo.json_Marshal (created r arg)); [|reflexivity].
        rewrite indexes_other by (intros suffix; apply article_key_not_index).
        unfold cache.Set_. apply lookup_insert_ne.
        intros Heq. apply article_key_inj in Heq. congruence.
      * destruct (CreateArticle_memory r arg Hc) as [Hc' _]. now rewrite Hc'.
    + unfold repo.lookup_memory. destruct (repo.rcache r) as [c|] eqn:Hc.
      * destruct (CreateArticle_cache r arg c Hc) as [Hm' _]. now rewrite Hm'.
      * destruct (CreateArticle_memory r arg Hc) as [_ Hm']. rewrite Hm'.
        rewrite (assign_find_other id _ (created r arg) Hnd Hid).
        destruct (repo.articles r); reflexivity.
  - unfold keyed. destruct (repo.rcache r) as [c|] eqn:Hc.
    + destruct (CreateArticle_cache r arg c Hc) as [Hm' _]. rewrite Hm'. exact Hkeyed.
    + destruct (CreateArticle_memory r arg Hc) as [_ Hm']. rewrite Hm'.
      now apply assign_NoDup.
Qed.

End StoredArticle.

Definition first_article : repo.Article := {|
  repo.ID := "article_1";
  repo.Title := "Budget vote";
  repo.Description := None;
  repo.URL := "https://example.org/1";
  repo.PublicationDate := 0;
  repo.SourceName := "Reuters";
  repo.Category := ["Politics"];
  repo.RelevanceScore := F64.dec 5 1;
  repo.Latitude := None;
  repo.Longitude := None
|}.

Definition memory_repository : repo.repository := {|
  repo.rcache := None;
  repo.articles := Some [first_article];
  repo.nextID := 2
|}.

Definition second_params : repo.CreateArticleParams := {|
  repo.Create_ID := "";
  repo.Create_Title := "Rover lands";
  repo.Create_Description := Some "A rover has landed.";
  repo.Create_URL := "https://example.org/2";
  repo.Create_PublicationDate := 0;
  repo.Create_SourceName := "SpaceNews";
  repo.Create_Category := ["Science"; "Space"];
  repo.Create_RelevanceScore := F64.dec 9 1;
  repo.Create_Latitude := None;
  repo.Create_Longitude := None
|}.

Lemma memory_repository_keyed : keyed memory_repository.
Proof. repeat constructor. cbn. tauto. Qed.

Lemma CreateArticle_then_GetArticleByID_witness :
  keyed memory_repository /\
  repo.GetArticleByID
    (fst (@repo.CreateArticle cache.by_arrival finite_scores memory_repository second_params))
    "article_2"
  = Ok (created memory_repository second_params).
Proof.
  split; [exact memory_repository_keyed|].
  exact (proj1 (proj2 (@CreateArticle_then_GetArticleByID cache.by_arrival finite_scores
                         memory_repository second_params memory_repository_keyed))
               eq_refl).
Defined.

(* ===================================================================== *)
(** ** The repository: the indexes of [CreateArticle] *)
(* ===================================================================== *)

(** The set under [key] lists [id], and has at most [bound] members. *)
Definition listed {score doc : Type} (s : gmap string (@cache.entry score doc))
  (key id : string) (bound : nat) : Prop :=
  exists members,
    cache.SMembers s key = Ok members /\ In id members /\ (length members <= bound)%nat.

Section IndexedArticle.
Context `{GoLibrary} `{cache.Placement} `{repo.GoJSON}.

Lemma existsb_eqb_In (member : string) (members : list string) :
  existsb (String.eqb member) members = true <-> In member members.
Proof.
  rewrite existsb_exists. split.
  - intros (x & Hx & Heq). apply String.eqb_eq in Heq. now subst.
  - intros Hin. exists member. split; [exact Hin | apply String.eqb_refl].
Qed.

Lemma SMembers_frame {score doc : Type} (s s' : gmap string (@cache.entry score doc))
  (key : string) :
  s' !! key = s !! key -> cache.SMembers s' key = cache.SMembers s key.
Proof. intros Heq. unfold cache.SMembers. now rewrite Heq. Qed.

Lemma SAdd_lists {score doc : Type} (s : gmap string (@cache.entry score doc))
  (key id : string) (members : list string) :
  cache.SMembers s key = Ok members ->
  listed (cache.SAdd s key id) key id (S (length members)).
Proof.
  unfold listed, cache.SMembers, cache.SAdd.
  destruct (s !! key) as [[[d|ms|z] t]|] eqn:Hkey; intros [= <-].
  - destruct (existsb (String.eqb id) ms) eqn:Hin.
    + exists ms. rewrite Hkey. apply existsb_eqb_In in Hin. repeat split; [exact Hin | lia].
    + exists (cache.placed ms id). rewrite lookup_insert_eq.
      pose proof (cache.placed_perm _ ms id) as Hperm. repeat split.
      * apply (Permutation_in _ (Permutation_sym Hperm)). now left.
      * rewrite (Permutation_length Hperm). cbn. lia.
  - exists [id]. rewrite lookup_insert_eq. repeat split; [now left | cbn; lia].
Qed.

Lemma SAdd_listed {score doc : Type} (s : gmap string (@cache.entry score doc))
  (k key id : string) (bound : nat) :
  listed s key id bound -> listed (cache.SAdd s k id) key id bound.
Proof.
  intros (members & Hms & Hin & Hlen). exists members. split; [|split; assumption].
  rewrite <- Hms. apply SMembers_frame.
  destruct (String.eqb_spec k key) as [->|Hne]; [|apply SAdd_other; congruence].
  unfold cache.SMembers in Hms. unfold cache.SAdd.
  destruct (s !! key) as [[[d|ms|z] t]|] eqn:Hkey; try discriminate; try reflexivity.
  - injection Hms as ->. apply existsb_eqb_In in Hin. now rewrite Hin.
  - injection Hms as <-. contradiction.
Qed.

Lemma ZAdd_listed {doc : Type} (s : gmap string (@cache.entry float64 doc))
  (k key id member : string) (sc : float64) (bound : nat) :
  k <> key -> listed s key id bound -> listed (cache.ZAdd s k member sc) key id bound.
Proof.
  intros Hne (members & Hms & Hin & Hlen). exists members. split; [|split; assumption].
  rewrite <- Hms. apply SMembers_frame. apply ZAdd_frame. congruence.
Qed.

Lemma fold_SAdd_listed {score doc : Type} (prefix key id : string) (bound : nat)
  (categories : list string) :
  forall s : gmap string (@cache.entry score doc),
  listed s key id bound ->
  listed (fold_left (fun c category => cache.SAdd c (prefix ++ Strings.ToLower category) id)
                    categories s) key id bound.
Proof.
  induction categories as [|category categories IH]; intros s Hs; [exact Hs|].
  cbn [fold_left]. apply IH. now apply SAdd_listed.
Qed.

Lemma fold_SAdd_lists {score doc : Type} (prefix id category : string)
  (members : list string) (categories : list string) :
  forall s : gmap string (@cache.entry score doc),
  cache.SMembers s (prefix ++ Strings.ToLower category) = Ok members ->
  In category categories ->
  listed (fold_left (fun c category => cache.SAdd c (prefix ++ Strings.ToLower category) id)
                    categories s)
         (prefix ++ Strings.ToLower category) id (S (length members)).
Proof.
  induction categories as [|x categories IH]; intros s Hs Hin; [contradiction|].
  cbn [fold_left].
  destruct (String.eqb_spec (prefix ++ Strings.ToLower x) (prefix ++ Strings.ToLower category))
    as [Heq|Hne].
  - apply fold_SAdd_listed. rewrite Heq. now apply SAdd_lists.
  - destruct Hin as [->|Hin]; [contradiction|].
    apply IH; [|exact Hin]. rewrite <- Hs. apply SMembers_frame. apply SAdd_other. congruence.
Qed.

Lemma collect_ids_holds (r : repo.repository) (limit : Z) (ids : list string) :
  forall acc a, In a acc -> In a (repo.collect_ids r limit ids acc).
Proof.
  induction ids as [|id ids IH]; intros acc a Hin; [exact Hin|].
  cbn [repo.collect_ids]. destruct (repo.GetArticleByID r id); [|now apply IH].
  cbv zeta. destruct (repo.reached _ limit).
  - apply in_or_app. now left.
  - apply IH. apply in_or_app. now left.
Qed.

Lemma collect_ids_In (r : repo.repository) (limit : Z) (id : string) (a : repo.Article)
  (ids : list string) :
  forall acc,
  In id ids -> repo.GetArticleByID r id = Ok a ->
  Z.of_nat (length acc) + Z.of_nat (length ids) <= limit ->
  In a (repo.collect_ids r limit ids acc).
Proof.
  induction ids as [|x ids IH]; intros acc Hin Hid Hlen; [contradiction|].
  cbn [repo.collect_ids]. cbn [length] in Hlen.
  destruct (String.eqb_spec x id) as [->|Hne].
  - rewrite Hid. cbv zeta. destruct (repo.reached _ limit).
    + apply in_or_app. right. now left.
    + apply collect_ids_holds. apply in_or_app. right. now left.
  - destruct Hin as [Heq|Hin]; [contradiction|].
    destruct (repo.GetArticleByID r x) as [b|e].
    + cbv zeta. unfold repo.reached. rewrite length_app. cbn [length].
      destruct (Z.leb_spec limit (Z.of_nat (length acc + 1))) as [Hle|Hgt].
      * destruct ids; [contradiction|]. cbn [length] in Hlen. lia.
      * apply IH; [exact Hin | exact Hid|]. rewrite length_app. cbn [length]. lia.
    + apply IH; [exact Hin | exact Hid | lia].
Qed.

Lemma collect_category_holds (keep : repo.Article -> bool) (limit : Z) (m : list repo.Article) :
  forall acc a, In a acc -> In a (repo.collect_category keep limit m acc).
Proof.
  induction m as [|x m IH]; intros acc a Hin; [exact Hin|].
  cbn [repo.collect_category]. cbv zeta.
  assert (Hin' : In a (if keep x then acc ++ [x] else acc)).
  { destruct (keep x); [apply in_or_app; now left | exact Hin]. }
  destruct (repo.reached _ limit); [exact Hin' | now apply IH].
Qed.

Lemma collect_category_In (keep : repo.Article -> bool) (limit : Z) (a : repo.Article)
  (m : list repo.Article) :
  forall acc,
  In a m -> keep a = true ->
  Z.of_nat (length acc) + Z.of_nat (length m) <= limit ->
  In a (repo.collect_category keep limit m acc).
Proof.
  induction m as [|x m IH]; intros acc Hin Hkeep Hlen; [contradiction|].
  cbn [repo.collect_category]. cbv zeta. cbn [length] in Hlen.
  assert (Hacc : (length (if keep x then acc ++ [x] else acc) <= length acc + 1)%nat).
  { destruct (keep x); [rewrite length_app; cbn; lia | lia]. }
  destruct Hin as [->|Hin].
  - rewrite Hkeep in *. destruct (repo.reached _ limit).
    + apply in_or_app. right. now left.
    + apply collect_category_holds. apply in_or_app. right. now left.
  - unfold repo.reached.
    destruct (Z.leb_spec limit (Z.of_nat (length (if keep x then acc ++ [x] else acc)))) as [Hle|Hgt].
    + destruct m; [contradiction|]. cbn [length] in Hlen. lia.
    + apply IH; [exact Hin | exact Hkeep | lia].
Qed.

Lemma collect_holds (keep : repo.Article -> bool) (limit : Z) (m : list repo.Article) :
  forall acc a, In a acc -> In a (repo.collect keep limit m acc).
Proof.
  induction m as [|x m IH]; intros acc a Hin; [exact Hin|].
  cbn [repo.collect]. destruct (keep x); [|now apply IH].
  cbv zeta. destruct (repo.reached _ limit).
  - apply in_or_app. now left.
  - apply IH. apply in_or_app. now left.
Qed.

Lemma collect_In (keep : repo.Article -> bool) (limit : Z) (a : repo.Article)
  (m : list repo.Article) :
  forall acc,
  In a m -> keep a = true ->
  Z.of_nat (length acc) + Z.of_nat (length m) <= limit ->
  In a (repo.collect keep limit m acc).
Proof.
  induction m as [|x m IH]; intros acc Hin Hkeep Hlen; [contradiction|].
  cbn [repo.collect]. cbn [length] in Hlen.
  destruct Hin as [->|Hin].
  - rewrite Hkeep. cbv zeta. destruct (repo.reached _ limit).
    + apply in_or_app. right. now left.
    + apply collect_holds. apply in_or_app. right. now left.
  - destruct (keep x).
    + cbv zeta. unfold repo.reached. rewrite length_app. cbn [length].
      destruct (Z.leb_spec limit (Z.of_nat (length acc + 1))) as [Hle|Hgt].
      * destruct m; [contradiction|]. cbn [length] in Hlen. lia.
      * apply IH; [exact Hin | exact Hkeep|]. rewrite length_app. cbn [length]. lia.
    + apply IH; [exact Hin | exact Hkeep | lia].
Qed.

Lemma assign_In (m : list repo.Article) (a : repo.Article) : In a (repo.assign m a).
Proof.
  unfold repo.assign. apply (Permutation_in _ (Permutation_sym (cache.placed_perm _ _ a))).
  now left.
Qed.

Lemma assign_length (m : list repo.Article) (a : repo.Article) :
  (length (repo.assign m a) <= S (length m))%nat.
Proof.
  unfold repo.assign. rewrite (Permutation_length (cache.placed_perm _ _ a)). cbn [length].
  pose proof (List.filter_length_le (fun x => negb (String.eqb (repo.ID x) (repo.ID a))) m). lia.
Qed.

Lemma index_key_not_article (kind name id : string) :
  ("articles:" ++ kind ++ name)%string <> ("article:" ++ id)%string.
Proof. cbn. intros [=]. Qed.

(** What [CreateArticle] leaves in the cache when JSON takes the article. *)
Lemma created_cache (r : repo.repository) (arg : repo.CreateArticleParams)
  (c : gmap string (@cache.entry float64 repo.document)) (stored : repo.Article) :
  repo.rcache r = Some c -> repo.json_Marshal (created r arg) = Ok (repo.ArticleJSON stored) ->
  let id := repo.ID (created r arg) in
  repo.rcache (fst (repo.CreateArticle r arg))
  = Some (cache.ZAdd
            (cache.SAdd
               (fold_left
                  (fun c category =>
                     cache.SAdd c ("articles:category:" ++ Strings.ToLower category) id)
                  (repo.Create_Category arg)
                  (cache.SAdd
                     (cache.Set_ c ("article:" ++ id) (repo.ArticleJSON stored) (24 * cache.Hour))
                     "articles:all" id))
               ("articles:source:" ++ Strings.ToLower (repo.Create_SourceName arg)) id)
            "articles:by_score" id (repo.Create_RelevanceScore arg)).
Proof.
  intros Hc Hjson id. destruct (CreateArticle_cache r arg c Hc) as [_ Hc'].
  now rewrite Hjson in Hc'.
Qed.

(** The answer of a method that reads the ids of a set and loads them. *)
Lemma listed_answer (r : repo.repository) (c : gmap string (@cache.entry float64 repo.document))
  (key id : string) (bound : nat) (limit : Z) (stored : repo.Article)
  (memory : result (list repo.Article)) :
  listed c key id bound -> Z.of_nat bound <= limit ->
  repo.GetArticleByID r id = Ok stored ->
  exists answer,
    match cache.SMembers c key with
    | Ok (x :: ids) => Ok (repo.collect_ids r limit (x :: ids) [])
    | _ => memory
    end = Ok answer /\ In stored answer.
Proof.
  intros (members & -> & Hin & Hlen) Hlimit Hid.
  destruct members as [|x ids]; [contradiction|].
  eexists. split; [reflexivity|].
  apply (collect_ids_In r limit id); [exact Hin | exact Hid | cbn [length] in *; lia].
Qed.

(** After [CreateArticle], [GetArticlesByCategory] with a limit above the
    number of articles already there answers the article.  In the in-memory
    mode the name asked for may be any part, in any case, of one of the
    article's categories; with a cache it has to be a whole category of the
    article, in any case, and the answer holds what JSON made of the
    article. *)
Theorem CreateArticle_then_GetArticlesByCategory (r : repo.repository)
  (arg : repo.CreateArticleParams) (name : string) (limit : Z) :
  let r' := fst (repo.CreateArticle r arg) in
  let article := created r arg in
  let ask := {| repo.Category_Name := name; repo.Category_Limit := limit |} in
  (repo.rcache r = None ->
   repo.in_category name article = true ->
   Z.of_nat (length (match repo.articles r with Some m => m | None => [] end)) < limit ->
   exists answer, repo.GetArticlesByCategory_ r' ask = Ok answer /\ In article answer) /\
  (forall c stored category members,
     repo.rcache r = Some c ->
     repo.json_Marshal article = Ok (repo.ArticleJSON stored) ->
     In category (repo.Category article) ->
     Strings.ToLower name = Strings.ToLower category ->
     cache.SMembers c ("articles:category:" ++ Strings.ToLower name) = Ok members ->
     Z.of_nat (length members) < limit ->
     exists answer, repo.GetArticlesByCategory_ r' ask = Ok answer /\ In stored answer).
Proof.
  intros r' article ask. subst r' article ask. split.
  - intros Hc Hcat Hlimit. destruct (CreateArticle_memory r arg Hc) as [Hc' Hm'].
    unfold repo.GetArticlesByCategory_. rewrite Hc', Hm'. cbn [repo.Category_Name repo.Category_Limit].
    eexists. split; [reflexivity|].
    apply collect_category_In; [apply assign_In | exact Hcat|].
    pose proof (assign_length (match repo.articles r with Some m => m | None => [] end)
                              (created r arg)).
    cbn [length]. lia.
  - intros c stored category members Hc Hjson Hin Hname Hms Hlimit.
    unfold repo.GetArticlesByCategory_. cbn [repo.Category_Name repo.Category_Limit].
    rewrite (created_cache r arg c stored Hc Hjson). cbv zeta.
    apply (listed_answer _ _ _ (repo.ID (created r arg)) (S (length members)));
      [|lia|now apply (created_read_back r arg c)].
    apply ZAdd_listed; [rewrite Hname; cbn; intros [=]|].
    apply SAdd_listed. rewrite Hname. apply fold_SAdd_lists; [|exact Hin].
    rewrite <- Hname, <- Hms. apply SMembers_frame.
    rewrite SAdd_other by (cbn; intros [=]).
    unfold cache.Set_. apply lookup_insert_ne. apply not_eq_sym.
    apply (index_key_not_article "category:").
Qed.

(** After [CreateArticle], [GetArticlesBySource] with a limit above the
    number of articles already there answers the article.  In the in-memory
    mode the name asked for may be any part, in any case, of the article's
    source; with a cache it has to be the whole source, in any case, and the
    answer holds what JSON made of the article. *)
Theorem CreateArticle_then_GetArticlesBySource (r : repo.repository)
  (arg : repo.CreateArticleParams) (name : string) (limit : Z) :
  let r' := fst (repo.CreateArticle r arg) in
  let article := created r arg in
  let ask := {| repo.Source_Name := name; repo.Source_Limit := limit |} in
  (repo.rcache r = None ->
   repo.from_source name article = true ->
   Z.of_nat (length (match repo.articles r with Some m => m | None => [] end)) < limit ->
   exists answer, repo.GetArticlesBySource_ r' ask = Ok answer /\ In article answer) /\
  (forall c stored members,
     repo.rcache r = Some c ->
     repo.json_Marshal article = Ok (repo.ArticleJSON stored) ->
     Strings.ToLower name = Strings.ToLower (repo.SourceName article) ->
     cache.SMembers c ("articles:source:" ++ Strings.ToLower name) = Ok members ->
     Z.of_nat (length members) < limit ->
     exists answer, repo.GetArticlesBySource_ r' ask = Ok answer /\ In stored answer).
Proof.
  intros r' article ask. subst r' article ask. split.
  - intros Hc Hsource Hlimit. destruct (CreateArticle_memory r arg Hc) as [Hc' Hm'].
    unfold repo.GetArticlesBySource_. rewrite Hc', Hm'. cbn [repo.Source_Name repo.Source_Limit].
    eexists. split; [reflexivity|].
    apply collect_In; [apply assign_In | exact Hsource|].
    pose proof (assign_length (match repo.articles r with Some m => m | None => [] end)
                              (created r arg)).
    cbn [length]. lia.
  - intros c stored members Hc Hjson Hname Hms Hlimit.
    unfold repo.GetArticlesBySource_. cbn [repo.Source_Name repo.Source_Limit].
    rewrite (created_cache r arg c stored Hc Hjson). cbv zeta.
    apply (listed_answer _ _ _ (repo.ID (created r arg)) (S (length members)));
      [|lia|now apply (created_read_back r arg c)].
    apply ZAdd_listed; [cbn; intros [=]|].
    rewrite Hname. change (repo.SourceName (created r arg)) with (repo.Create_SourceName arg).
    apply SAdd_lists.
    change (repo.Create_SourceName arg) with (repo.SourceName (created r arg)).
    rewrite <- Hname, <- Hms. apply SMembers_frame.
    rewrite fold_SAdd_other by (intros category; cbn; intros [=]).
    rewrite SAdd_other by (cbn; intros [=]).
    unfold cache.Set_. apply lookup_insert_ne. apply not_eq_sym.
    apply (index_key_not_article "source:").
Qed.

End IndexedArticle.

Definition cache_repository : repo.repository := repo.NewRepository (Ok ∅).

Lemma CreateArticle_then_GetArticlesByCategory_witness :
  exists answer,
    repo.GetArticlesByCategory_
      (fst (@repo.CreateArticle cache.by_arrival finite_scores cache_repository second_params))
      {| repo.Category_Name := "SPACE"; repo.Category_Limit := 5 |} = Ok answer /\
    In (created cache_repository second_params) answer.
Proof.
  apply (proj2 (@CreateArticle_then_GetArticlesByCategory cache.by_arrival finite_scores
                  cache_repository second_params "SPACE" 5)
               ∅ (created cache_repository second_params) "Space" []).
  - reflexivity.
  - reflexivity.
  - cbn. tauto.
  - reflexivity.
  - unfold cache.SMembers. now rewrite lookup_empty.
  - cbn. lia.
Defined.

Lemma CreateArticle_then_GetArticlesBySource_witness :
  exists answer,
    repo.GetArticlesBySource_
      (fst (@repo.CreateArticle cache.by_arrival finite_scores memory_repository second_params))
      {| repo.Source_Name := "space"; repo.Source_Limit := 5 |} = Ok answer /\
    In (created memory_repository second_params) answer.
Proof.
  apply (proj1 (@CreateArticle_then_GetArticlesBySource cache.by_arrival finite_scores
                  memory_repository second_params "space" 5)).
  - reflexivity.
  - reflexivity.
  - cbn. lia.
Defined.

(* ===================================================================== *)
(** ** The repository: the ids it hands out *)
(* ===================================================================== *)

(** A call that advances the counter of the repository. *)
Inductive call :=
| Article_call (arg : repo.CreateArticleParams)
| Event_call (now : Z) (arg : repo.CreateUserEventParams).

(** The calls that leave the choice of the id to the repository. *)
Definition without_id (c : call) : bool :=
  match c with
  | Article_call arg => String.eqb (repo.Create_ID arg) ""
  | Event_call _ _ => true
  end.

(** A run of calls: the repository it leaves, and the ids of the articles
    it created, in the order of the calls. *)
Fixpoint run `{cache.Placement} `{repo.GoJSON} (r : repo.repository) (calls : list call)
  : repo.repository * list string :=
  match calls with
  | [] => (r, [])
  | Article_call arg :: calls' =>
      let '(r', ids) := run (fst (repo.CreateArticle r arg)) calls' in
      (r', match snd (repo.CreateArticle r arg) with
           | Ok article => repo.ID article :: ids
           | Err _ => ids
           end)
  | Event_call now arg :: calls' => run (fst (repo.CreateUserEvent r now arg)) calls'
  end.

Section GeneratedIds.
Context `{cache.Placement} `{repo.GoJSON}.
#[local] Arguments String.append : simpl nomatch.

Lemma utoa_app (fuel : nat) :
  forall n acc, cache.utoa fuel n acc = (cache.utoa fuel n "" ++ acc)%string.
Proof.
  induction fuel as [|fuel IH]; intros n acc; [reflexivity|].
  cbn [cache.utoa]. destruct (n <? 10); [reflexivity|].
  rewrite (IH (n / 10) (String (cache.digit (n mod 10)) acc)),
          (IH (n / 10) (String (cache.digit (n mod 10)) "")).
  generalize (cache.utoa fuel (n / 10) ""). intros s.
  induction s as [|c s IHs]; cbn [String.append]; [reflexivity | now rewrite IHs].
Qed.

Lemma digits_value_app (s t : string) :
  forall v, news.digits_value (s ++ t) v = news.digits_value t (news.digits_value s v).
Proof. induction s as [|c s IH]; intros v; cbn; [reflexivity | apply IH]. Qed.

Lemma digit_value (d : Z) :
  0 <= d < 10 -> Z.of_nat (nat_of_ascii (cache.digit d)) - 48 = d.
Proof.
  intros Hd. unfold cache.digit. rewrite nat_ascii_embedding by lia. lia.
Qed.

Lemma utoa_value (fuel : nat) :
  forall n, 0 <= n < 2 ^ Z.of_nat fuel -> news.digits_value (cache.utoa fuel n "") 0 = n.
Proof.
  induction fuel as [|fuel IH]; intros n Hn.
  - change (2 ^ Z.of_nat 0) with 1 in Hn. cbn. lia.
  - rewrite Nat2Z.inj_succ, Z.pow_succ_r in Hn by lia.
    cbn [cache.utoa]. destruct (Z.ltb_spec n 10) as [Hsmall|Hbig].
    + cbn [news.digits_value]. rewrite Z.mod_small by lia. rewrite digit_value by lia. lia.
    + rewrite utoa_app, digits_value_app, IH.
      * cbn [news.digits_value]. rewrite digit_value by (apply Z.mod_pos_bound; lia).
        pose proof (Z.div_mod n 10 ltac:(lia)). lia.
      * split; [apply Z.div_pos; lia | apply Z.div_lt_upper_bound; lia].
Qed.

Lemma itoa_value (n : Z) : 0 <= n -> news.digits_value (cache.itoa n) 0 = n.
Proof.
  intros Hn. unfold cache.itoa. destruct (Z.ltb_spec n 0) as [|_]; [lia|].
  apply utoa_value. split; [exact Hn|].
  rewrite Nat2Z.inj_add, Z2Nat.id by apply Z.log2_nonneg.
  destruct (Z.eq_dec n 0) as [->|Hpos]; [reflexivity|].
  change (Z.of_nat 1) with 1. rewrite Z.add_1_r. apply Z.log2_spec. lia.
Qed.

Lemma generated_id_inj (a b : Z) :
  0 <= a -> 0 <= b ->
  ("article_" ++ cache.itoa a)%string = ("article_" ++ cache.itoa b)%string -> a = b.
Proof.
  intros Ha Hb Heq. cbn in Heq. injection Heq as Heq.
  rewrite <- (itoa_value a Ha), <- (itoa_value b Hb). now rewrite Heq.
Qed.

Lemma wrap64_next (n : Z) : 0 <= n -> n + 1 < 2 ^ 63 -> cache.wrap64 (n + 1) = n + 1.
Proof.
  intros Hn Hlt. unfold cache.wrap64.
  change (2 ^ 64) with 18446744073709551616. change (2 ^ 63) with 9223372036854775808 in *.
  rewrite Z.mod_small by lia. lia.
Qed.

Lemma run_counts (calls : list call) :
  forall r,
  0 <= repo.nextID r -> repo.nextID r + Z.of_nat (length calls) < 2 ^ 63 ->
  forallb without_id calls = true ->
  repo.nextID (fst (run r calls)) = repo.nextID r + Z.of_nat (length calls) /\
  Forall (fun id => exists k, repo.nextID r <= k /\ id = ("article_" ++ cache.itoa k)%string)
         (snd (run r calls)) /\
  List.NoDup (snd (run r calls)).
Proof.
  induction calls as [|c calls IH]; intros r Hr Hlen Hcalls.
  - cbn. split; [lia|]. split; constructor.
  - cbn [forallb] in Hcalls. apply andb_prop in Hcalls as [Hc Hcalls].
    cbn [length] in *. rewrite Nat2Z.inj_succ in *.
    destruct c as [arg|now arg]; cbn [run without_id] in *.
    + assert (Hnext : repo.nextID (fst (repo.CreateArticle r arg)) = repo.nextID r + 1).
      { unfold repo.CreateArticle. rewrite Hc. cbv zeta.
        destruct (repo.rcache r); [destruct (repo.json_Marshal _)|];
          cbn [fst repo.nextID]; apply wrap64_next; lia. }
      assert (Hid : snd (repo.CreateArticle r arg)
                    = Ok (created r arg)).
      { apply CreateArticle_result. }
      destruct (IH (fst (repo.CreateArticle r arg))) as (Hcount & Hids & Hnd);
        [lia | lia | exact Hcalls |].
      destruct (run (fst (repo.CreateArticle r arg)) calls) as [r' ids].
      cbn [fst snd] in *. rewrite Hid.
      assert (Hcreated : repo.ID (created r arg) = ("article_" ++ cache.itoa (repo.nextID r))%string).
      { unfold created. cbn [repo.ID]. now rewrite Hc. }
      rewrite Hcreated. split; [lia|]. split.
      * constructor; [exists (repo.nextID r); split; [lia | reflexivity]|].
        eapply List.Forall_impl; [|exact Hids]. intros id (k & Hk & ->). exists k. split; [lia | reflexivity].
      * constructor; [|exact Hnd]. intros Hin.
        rewrite List.Forall_forall in Hids. destruct (Hids _ Hin) as (k & Hk & Heq).
        apply generated_id_inj in Heq; lia.
    + assert (Hnext : repo.nextID (fst (repo.CreateUserEvent r now arg)) = repo.nextID r + 1).
      { unfold repo.CreateUserEvent. cbn [fst repo.nextID]. apply wrap64_next; lia. }
      destruct (IH (fst (repo.CreateUserEvent r now arg))) as (Hcount & Hids & Hnd);
        [lia | lia | exact Hcalls |].
      split; [lia|]. split; [|exact Hnd].
      eapply List.Forall_impl; [|exact Hids]. intros id (k & Hk & ->). exists k. split; [lia | reflexivity].
Qed.

(** Over a run of calls that leave the id to the repository, while the
    counter stays within int64: every call, of [CreateArticle] or of
    [CreateUserEvent], advances the one counter by one, and no two articles
    get the same id. *)
Theorem generated_ids_differ (r : repo.repository) (calls : list call) :
  0 <= repo.nextID r -> repo.nextID r + Z.of_nat (length calls) < 2 ^ 63 ->
  forallb without_id calls = true ->
  repo.nextID (fst (run r calls)) = repo.nextID r + Z.of_nat (length calls) /\
  List.NoDup (snd (run r calls)).
Proof.
  intros Hr Hlen Hcalls. destruct (run_counts calls r Hr Hlen Hcalls) as (Hcount & _ & Hnd).
  split; assumption.
Qed.

End GeneratedIds.

Definition three_calls : list call :=
  [ Article_call second_params;
    Event_call 0 {| repo.Event_ArticleID := "article_1"; repo.Event_Event := "view";
                    repo.Event_UserLat := None; repo.Event_UserLon := None |};
    Article_call second_params ].

Lemma generated_ids_differ_witness :
  0 <= repo.nextID cache_repository /\
  repo.nextID cache_repository + Z.of_nat (length three_calls) < 2 ^ 63 /\
  forallb without_id three_calls = true /\
  repo.nextID (fst (@run cache.by_arrival finite_scores cache_repository three_calls)) = 4 /\
  List.NoDup (snd (@run cache.by_arrival finite_scores cache_repository three_calls)).
Proof.
  assert (H0 : 0 <= repo.nextID cache_repository) by (cbn; lia).
  assert (H1 : repo.nextID cache_repository + Z.of_nat (length three_calls) < 2 ^ 63)
    by (cbn; lia).
  assert (H2 : forallb without_id three_calls = true) by reflexivity.
  split; [exact H0|]. split; [exact H1|]. split; [exact H2|].
  exact (@generated_ids_differ cache.by_arrival finite_scores cache_repository three_calls H0 H1 H2).
Defined.

(* ===================================================================== *)
(** ** The handlers: what reaches the service *)
(* ===================================================================== *)

(** What [Query] writes once the service has answered. *)
Definition answer (service : news.QueryRequest -> result news.QueryResponse)
  (req : news.QueryRequest) : http.Reply :=
  match service req with
  | Err err => http.Error ("Failed to process query: " ++ err) http.StatusInternalServerError
  | Ok response => http.Encoded response
  end.

(** A number that is there lies from [lo] to [hi]. *)
Definition within (lo hi : Z) (x : option float64) : Prop :=
  forall v, x = Some v -> F64.geb v (F64.of_int lo) = true /\ F64.leb v (F64.of_int hi) = true.

(** A radius that is there lies above 0 and up to 200. *)
Definition radius_within (x : option float64) : Prop :=
  forall v, x = Some v -> F64.gtb v (F64.of_int 0) = true /\ F64.leb v (F64.of_int 200) = true.

(** The requests that the parameters of a GET can make. *)
Definition validated (req : news.QueryRequest) : Prop :=
  news.QueryText req <> "" /\
  within (-90) 90 (news.Lat req) /\
  within (-180) 180 (news.Lon req) /\
  radius_within (news.Radius req) /\
  1 <= news.Limit req <= 50.

Section HandlerQuery.
Context `{http.GoStrconv}.

Lemma within_None (lo hi : Z) : within lo hi None.
Proof. intros v [=]. Qed.

Lemma within_Some (lo hi : Z) (v : float64) :
  F64.geb v (F64.of_int lo) && F64.leb v (F64.of_int hi) = true -> within lo hi (Some v).
Proof. intros Hv w [= <-]. now apply andb_prop in Hv. Qed.

Lemma radius_within_None : radius_within None.
Proof. intros v [=]. Qed.

Lemma radius_within_Some (v : float64) :
  F64.gtb v (F64.of_int 0) && F64.leb v (F64.of_int 200) = true -> radius_within (Some v).
Proof. intros Hv w [= <-]. now apply andb_prop in Hv. Qed.

Lemma read_parameters_checked (r : http.Request) :
  match http.read_parameters r with
  | inl reply => exists message, reply = http.Error message 400
  | inr req =>
      news.QueryText req <> "" /\
      within (-90) 90 (news.Lat req) /\
      within (-180) 180 (news.Lon req) /\
      radius_within (news.Radius req) /\
      (news.Limit req = 0 \/ 1 <= news.Limit req <= 50)
  end.
Proof.
  unfold http.read_parameters. cbv zeta. cbn [news.QueryText].
  destruct (String.eqb_spec (http.Get (http.URL_Query r) "query") "") as [Hq|Hq];
    [eexists; reflexivity|].
  repeat match goal with
         | |- context [match http.strconv_ParseFloat ?s with _ => _ end] =>
             destruct (http.strconv_ParseFloat s) eqn:?
         | |- context [match http.Atoi ?s with _ => _ end] =>
             destruct (http.Atoi s) eqn:?
         | |- context [if ?b then _ else _] => destruct b eqn:?
         end;
    try (eexists; reflexivity);
    cbn [http.with_Lat http.with_Lon http.with_Radius http.with_Limit news.QueryText news.Limit
         news.Lat news.Lon news.Radius];
    (split; [exact Hq|]);
    (split; [first [apply within_None | apply within_Some; assumption]|]);
    (split; [first [apply within_None | apply within_Some; assumption]|]);
    (split; [first [apply radius_within_None | apply radius_within_Some; assumption]|]);
    repeat match goal with
           | Hl : (_ && _) = true |- _ => apply andb_prop in Hl; destruct Hl
           | Hl : (_ <? _) = true |- _ => apply Z.ltb_lt in Hl
           | Hl : (_ <=? _) = true |- _ => apply Z.leb_le in Hl
           end;
    lia.
Qed.

(** A GET either ends in a reply of status 400 that does not depend on the
    service, or the service is asked once, for a request with a text, a
    latitude from -90 to 90, a longitude from -180 to 180, a radius above 0
    and up to 200, and a limit from 1 to 50 (5 when none is given).  Any
    other method hands the decoded body to the service as it is, but for a
    limit of 0 or less, which becomes 5: its coordinates, radius and limit
    are not checked. *)
Theorem Query_checks_the_parameters_of_a_GET (r : http.Request) :
  (http.Method r = "GET" ->
   (exists message, forall service, http.Query service r = http.Error message 400) \/
   (exists req, validated req /\ forall service, http.Query service r = answer service req)) /\
  (http.Method r <> "GET" ->
   forall req, http.Body r = Ok req -> news.QueryText req <> "" ->
   forall service, http.Query service r = answer service (with_effective_limit req)).
Proof.
  split.
  - intros Hmethod. unfold http.Query. rewrite Hmethod.
    change (String.eqb "GET" "GET") with true. cbv iota zeta.
    pose proof (read_parameters_checked r) as Hread.
    destruct (http.read_parameters r) as [reply|req].
    + destruct Hread as [message ->]. left. exists message. reflexivity.
    + destruct Hread as (Hq & Hlat & Hlon & Hradius & Hlimit). right.
      rewrite (proj2 (String.eqb_neq _ _) Hq).
      exists (with_effective_limit req). split; [|reflexivity].
      unfold validated, with_effective_limit.
      destruct (Z.leb_spec (news.Limit req) 0);
        cbn [news.QueryText news.Lat news.Lon news.Radius news.Limit];
        (split; [exact Hq|]); (split; [exact Hlat|]); (split; [exact Hlon|]);
        (split; [exact Hradius|]); lia.
  - intros Hmethod req Hbody Hq service. unfold http.Query.
    rewrite (proj2 (String.eqb_neq _ _) Hmethod), Hbody.
    now rewrite (proj2 (String.eqb_neq _ _) Hq).
Qed.

End HandlerQuery.

(** A number that fails both tests of [Trending]: it is not below [lo] and
    not above [hi]. *)
Definition not_outside (lo hi : Z) (v : float64) : Prop :=
  F64.ltb v (F64.of_int lo) = false /\ F64.gtb v (F64.of_int hi) = false.

Section HandlerTrending.
Context `{http.GoStrconv}.

Lemma int32_small (z : Z) : 1 <= z <= 50 -> news.int32 z = z.
Proof.
  intros Hz. unfold news.int32.
  change (2 ^ 31) with 2147483648. change (2 ^ 32) with 4294967296.
  rewrite Z.mod_small by lia. lia.
Qed.

Lemma nan_not_outside (lo hi : Z) (v : float64) : F64.is_nan v = true -> not_outside lo hi v.
Proof.
  intros Hnan. destruct v; try discriminate. split; [reflexivity|].
  unfold F64.gtb, F64.ltb, SFltb, SFcompare. now destruct (F64.of_int hi).
Qed.

(** [Trending] never reads a trending score: with a latitude and a longitude
    that pass its tests, which a NaN does, it asks the service for the
    query "trending news near me" at these coordinates, with a radius of 50
    and a limit from 1 to 50, the one given or else 5.  Whatever the
    classifier then extracts, [Query] takes the nearby strategy and asks the
    store once, for the articles within that radius. *)
Theorem Trending_asks_for_what_is_nearby :
  (forall lo hi v, F64.is_nan v = true -> not_outside lo hi v) /\
  (forall (r : http.Request) (lat lon : float64),
     http.Get (http.URL_Query r) "lat" <> "" ->
     http.Get (http.URL_Query r) "lon" <> "" ->
     http.strconv_ParseFloat (http.Get (http.URL_Query r) "lat") = Some lat ->
     http.strconv_ParseFloat (http.Get (http.URL_Query r) "lon") = Some lon ->
     not_outside (-90) 90 lat ->
     not_outside (-180) 180 lon ->
     exists limit,
       1 <= limit <= 50 /\
       (forall l, http.Atoi (http.Get (http.URL_Query r) "limit") = Some l -> 1 <= l <= 50 ->
                  limit = l) /\
       let req := {| news.QueryText := "trending news near me"; news.Lat := Some lat;
                     news.Lon := Some lon; news.Radius := Some (F64.of_int 50);
                     news.Limit := limit |} in
       (forall service,
          http.Trending service r
          = match service req with
            | Err err => http.Error err 500
            | Ok response => http.Encoded response
            end) /\
       (forall (L : GoLibrary) (store : repo.Repository) (client : llm.LLMClient)
               (schedule : list nat) (extraction : llm.Extraction),
          llm.Extract "trending news near me" = Ok extraction ->
          snd (news.Query schedule req)
          = [news.CallGetNearbyArticles
               {| repo.Lat := lat; repo.Lon := lon; repo.Radius := F64.of_int 50;
                  repo.Nearby_Limit := limit |}] /\
          (forall response,
             fst (news.Query schedule req) = Ok response ->
             news.Strategy (news.Meta response) = "nearby"))).
Proof.
  split; [exact nan_not_outside|].
  intros r lat lon Hlat Hlon Hplat Hplon [Hlat1 Hlat2] [Hlon1 Hlon2].
  set (limit := if negb (String.eqb (http.Get (http.URL_Query r) "limit") "") then
                  match http.Atoi (http.Get (http.URL_Query r) "limit") with
                  | Some l => if (0 <? l) && (l <=? 50) then l else 5
                  | None => 5
                  end
                else 5).
  assert (Hlimit : 1 <= limit <= 50).
  { unfold limit. destruct (negb _); [|lia]. destruct (http.Atoi _) as [l|]; [|lia].
    destruct (Z.ltb_spec 0 l), (Z.leb_spec l 50); cbn [andb]; lia. }
  exists limit. split; [exact Hlimit|]. split; [|split].
  - intros l Hl Hrange. unfold limit. rewrite Hl.
    destruct (String.eqb_spec (http.Get (http.URL_Query r) "limit") "") as [Hempty|_].
    { rewrite Hempty in Hl. discriminate. }
    cbn [negb]. destruct (Z.ltb_spec 0 l), (Z.leb_spec l 50); cbn [andb]; lia.
  - intros service. unfold http.Trending. cbv zeta.
    rewrite (proj2 (String.eqb_neq _ _) Hlat), (proj2 (String.eqb_neq _ _) Hlon).
    cbn [orb]. rewrite Hplat, Hplon, Hlat1, Hlat2, Hlon1, Hlon2. cbn [orb].
    fold limit. reflexivity.
  - intros L store client schedule extraction Hextract. unfold news.Query.
    cbn [news.Limit].
    destruct (Z.leb_spec limit 0) as [|_]; [lia|]. cbv zeta. cbn [news.QueryText news.Limit].
    rewrite Hextract.
    unfold news.determineStrategy. cbn [news.Lat news.Lon].
    change (news.retrieve "nearby" extraction ?q) with ("nearby"%string, news.getNearbyArticles extraction q).
    unfold news.getNearbyArticles. cbn [news.Lat news.Lon news.Radius news.Limit].
    rewrite (int32_small limit Hlimit).
    destruct (repo.GetNearbyArticles _) as [rows|e].
    + split; [reflexivity|]. intros response [= <-]. reflexivity.
    + split; [reflexivity|]. intros response [=].
Qed.

End HandlerTrending.

(** A parser for the example: it knows the text "NaN" only. *)
Definition parses_NaN : http.GoStrconv := {|
  http.strconv_ParseFloat := fun s => if String.eqb s "NaN" then Some S754_nan else None
|}.

Definition trending_at_NaN : http.Request := {|
  http.Method := "GET";
  http.URL_Query := [("lat", "NaN"); ("lon", "NaN")];
  http.Body := Err "EOF"
|}.

Lemma Trending_asks_for_what_is_nearby_witness :
  exists limit,
    1 <= limit <= 50 /\
    forall service,
      @http.Trending parses_NaN service trending_at_NaN
      = match service {| news.QueryText := "trending news near me"; news.Lat := Some S754_nan;
                         news.Lon := Some S754_nan; news.Radius := Some (F64.of_int 50);
                         news.Limit := limit |} with
        | Err err => http.Error err 500
        | Ok response => http.Encoded response
        end.
Proof.
  destruct (proj2 (@Trending_asks_for_what_is_nearby parses_NaN) trending_at_NaN S754_nan S754_nan)
    as (limit & Hlimit & _ & Hservice & _).
  - discriminate.
  - discriminate.
  - reflexivity.
  - reflexivity.
  - split; reflexivity.
  - split; reflexivity.
  - exists limit. split; [exact Hlimit | exact Hservice].
Defined.

(* ===================================================================== *)
(** ** The stampede guard: the lock *)
(* ===================================================================== *)

(** The steps of one caller on its own, with what the producer would return
    at each. *)
Definition alone (i : nat) (results : list (result string)) : list (nat * result string) :=
  map (fun r => (i, r)) results.

Definition returned (p : cache.pc) : Prop := exists r, p = cache.Done r.

Section GuardLock.
Context {score : Type}.
Variable key : string.
Variable ttl_ : Z.

Lemma holders_returned (l : list cache.pc) : Forall returned l -> cache.holders l = 0%nat.
Proof.
  induction 1 as [|p l [r ->] _ IH]; [reflexivity|]. exact IH.
Qed.

(** However the steps of the callers interleave and whatever the producer
    returns, while the lock does not expire: once every caller has
    returned, the lock key is gone; and at any time the key, if it is there,
    holds a value that a run of the producer returned. *)
Theorem GetOrSet_leaves_no_lock (s : gmap string (@cache.entry score string)) (n : nat)
  (schedule : list (nat * result string)) :
  s !! key = None -> s !! cache.lockKey key = None ->
  let st := cache.run key ttl_ schedule (cache.initial s n) in
  (Forall returned (cache.callers st) -> cache.store st !! cache.lockKey key = None) /\
  (forall data, cache.Get (cache.store st) key = Ok data -> In data (cache.produced st)).
Proof.
  intros Hkey Hlock st.
  pose proof (run_invariant key ttl_ schedule _ (initial_invariant key s n Hkey Hlock)) as Hinv.
  fold st in Hinv. split.
  - intros Hall. pose proof (inv_lock key _ Hinv) as Hl.
    rewrite (holders_returned _ Hall) in Hl.
    destruct (cache.store st !! cache.lockKey key); [discriminate | reflexivity].
  - intros data Hget. pose proof (inv_key key _ Hinv) as Hk. unfold cache.Get in Hget.
    destruct (cache.store st !! key) as [[[d|ms|z] t]|]; try discriminate.
    injection Hget as ->. destruct Hk as (data' & [= ->] & Hin). exact Hin.
Qed.

Lemma run_cons (i : nat) (r : result string) (schedule : list (nat * result string))
  (st : cache.system score) :
  cache.run key ttl_ ((i, r) :: schedule) st
  = cache.run key ttl_ schedule (cache.next key ttl_ r st i).
Proof. reflexivity. Qed.

Lemma run_app (schedule schedule' : list (nat * result string)) (st : cache.system score) :
  cache.run key ttl_ (schedule ++ schedule') st
  = cache.run key ttl_ schedule' (cache.run key ttl_ schedule st).
Proof. unfold cache.run. apply fold_left_app. Qed.

Lemma at_lookup (st : cache.system score) (i : nat) (p q : cache.pc) :
  cache.callers st !! i = Some p -> <[i := q]> (cache.callers st) !! i = Some q.
Proof.
  intros Hi. apply list_lookup_insert_eq. now apply lookup_lt_Some in Hi.
Qed.

Lemma poll_steps (i : nat) (results : list (result string)) :
  forall (st : cache.system score) (polls : nat),
  cache.callers st !! i = Some (cache.Poll polls) ->
  cache.store st !! key = None ->
  (polls + length results = 50)%nat ->
  cache.callers (cache.run key ttl_ (alone i results) st) !! i = Some (cache.Poll 50) /\
  cache.store (cache.run key ttl_ (alone i results) st) = cache.store st /\
  cache.runs (cache.run key ttl_ (alone i results) st) = cache.runs st.
Proof.
  induction results as [|r results IH]; intros st polls Hi Hkey Hlen.
  - cbn [length] in Hlen. replace polls with 50%nat in Hi by lia. now repeat split.
  - cbn [length] in Hlen. unfold alone. cbn [map]. fold (alone i results). rewrite run_cons.
    assert (Hnext : cache.next key ttl_ r st i = cache.at_ st i (cache.Poll (S polls))).
    { unfold cache.next. rewrite Hi. destruct (Nat.ltb_spec polls 50) as [_|]; [|lia].
      unfold cache.Get. now rewrite Hkey. }
    rewrite Hnext.
    destruct (IH (cache.at_ st i (cache.Poll (S polls))) (S polls)) as (Hc & Hs & Hr).
    + cbn [cache.at_ cache.callers]. now apply (at_lookup st i (cache.Poll polls)).
    + exact Hkey.
    + lia.
    + repeat split; assumption.
Qed.

(** A caller that misses the key and finds the lock taken, while no other
    caller moves: it polls 50 times and returns the timeout, without
    running the producer or writing to the store, whoever holds the lock
    and whether that holder is still there or not. *)
Theorem GetOrSet_times_out (st : cache.system score) (i : nat) (results : list (result string)) :
  cache.callers st !! i = Some cache.Start ->
  cache.store st !! key = None ->
  is_Some (cache.store st !! cache.lockKey key) ->
  length results = 53%nat ->
  let st' := cache.run key ttl_ (alone i results) st in
  cache.callers st' !! i = Some (cache.Done (Err cache.timeout)) /\
  cache.store st' = cache.store st /\
  cache.runs st' = cache.runs st.
Proof.
  intros Hi Hkey [lock Hlock] Hlen st'. subst st'.
  destruct results as [|r1 [|r2 results]]; try discriminate.
  cbn [length] in Hlen.
  assert (Hsplit : exists polls r, results = polls ++ [r] /\ length polls = 50%nat).
  { exists (removelast results), (List.last results r1).
    assert (Hne : results <> []) by (destruct results; [discriminate | congruence]).
    split; [now apply app_removelast_last|].
    pose proof (app_removelast_last r1 Hne) as Heq. apply (f_equal (@length _)) in Heq.
    rewrite length_app in Heq. cbn [length] in Heq. lia. }
  destruct Hsplit as (polls & r & -> & Hpolls).
  unfold alone. rewrite !map_cons, map_app. cbn [map]. fold (alone i polls).
  rewrite !run_cons, run_app, run_cons. cbn [cache.run fold_left].
  (* the first [Get] misses *)
  assert (Hstart : cache.next key ttl_ r1 st i = cache.at_ st i cache.Acquire).
  { unfold cache.next. rewrite Hi. unfold cache.Get. now rewrite Hkey. }
  rewrite Hstart.
  (* the lock is taken *)
  assert (Hacquire : cache.next key ttl_ r2 (cache.at_ st i cache.Acquire) i
                     = cache.at_ st i (cache.Poll 0)).
  { unfold cache.next. cbn [cache.at_ cache.callers cache.store cache.runs cache.produced].
    rewrite (at_lookup st i cache.Start cache.Acquire Hi).
    unfold cache.SetNX. rewrite Hlock. now rewrite list_insert_insert_eq. }
  rewrite Hacquire.
  (* the 50 polls *)
  destruct (poll_steps i polls (cache.at_ st i (cache.Poll 0)) 0) as (Hc & Hs & Hr).
  { apply (at_lookup st i cache.Start). exact Hi. }
  { exact Hkey. }
  { lia. }
  unfold cache.next. rewrite Hc. change (50 <? 50)%nat with false. cbv iota.
  cbn [cache.at_ cache.callers cache.store cache.runs]. rewrite Hs, Hr.
  split; [|split; reflexivity].
  apply list_lookup_insert_eq. now apply lookup_lt_Some in Hc.
Qed.

End GuardLock.

Definition abandoned_lock : cache.system unit :=
  cache.initial
    (<["lock:k" := {| cache.val := cache.VString "1"; cache.ttl := Some (10 * cache.Second) |}]> ∅
       : gmap string (@cache.entry unit string)) 1.

Definition one_caller : cache.system unit :=
  cache.initial (∅ : gmap string (@cache.entry unit string)) 1.

Lemma GetOrSet_times_out_witness :
  cache.callers (cache.run "k" cache.SearchTTL (alone 0 (replicate 53 (Err ""))) abandoned_lock)
  !! 0%nat
  = Some (cache.Done (Err cache.timeout)).
Proof.
  refine (proj1 (@GetOrSet_times_out unit "k" cache.SearchTTL abandoned_lock 0
                   (replicate 53 (Err "")) _ _ _ _)).
  - reflexivity.
  - vm_compute. reflexivity.
  - eexists. vm_compute. reflexivity.
  - reflexivity.
Defined.

Lemma GetOrSet_leaves_no_lock_witness :
  let st := cache.run "k" cache.SearchTTL
              (alone 0 [Err ""; Err ""; Ok "v"; Err ""; Err ""])
              (cache.initial (∅ : gmap string (@cache.entry unit string)) 1) in
  (Forall returned (cache.callers st) -> cache.store st !! cache.lockKey "k" = None) /\
  (forall data, cache.Get (cache.store st) "k" = Ok data -> In data (cache.produced st)).
Proof.
  apply (@GetOrSet_leaves_no_lock unit "k" cache.SearchTTL ∅ 1).
  - reflexivity.
  - reflexivity.
Defined.

(* ===================================================================== *)
(** ** Trending: what a reader finds after [computeTileScore] *)
(* ===================================================================== *)

(** The sum of the scores of the events of an article, in the order of the
    events. *)
Definition total (now : Z) (id : string) (events : list repo.GetRecentEventsByGeohashRow) : R :=
  fold_left (fun acc e => if String.eqb (repo.ArticleID e) id
                          then (acc + trending.calculateEventScore now e)%R else acc)
            events 0%R.

(** The articles of the events, each once. *)
Definition articles_of (events : list repo.GetRecentEventsByGeohashRow) : list string :=
  nodup string_dec (map repo.ArticleID events).

Section StringOrder.








End StringOrder.

(** A score as the sorted set holds it, and back. *)
Definition entry_of (t : trending.TrendingScore) : string * R :=
  (trending.ArticleID t, trending.Score t).

Definition scored (p : string * R) : trending.TrendingScore :=
  {| trending.ArticleID := fst p; trending.Score := snd p |}.

Section TileScores.
Context `{GoLibrary}.
Variable now : Z.

Let add_event (id : string) (acc : R) (e : repo.GetRecentEventsByGeohashRow) : R :=
  if String.eqb (repo.ArticleID e) id then (acc + trending.calculateEventScore now e)%R else acc.

Lemma fold_no_event (id : string) (events : list repo.GetRecentEventsByGeohashRow) (x : R) :
  existsb (fun e => String.eqb (repo.ArticleID e) id) events = false ->
  fold_left (add_event id) events x = x.
Proof.
  revert x. induction events as [|e events IH]; intros x Hno; [reflexivity|].
  cbn [existsb] in Hno. apply orb_false_elim in Hno as [He Hno].
  cbn [fold_left]. unfold add_event at 2. rewrite He. now apply IH.
Qed.

Lemma fold_accumulate (events : list repo.GetRecentEventsByGeohashRow) :
  forall (m : gmap string R) (id : string),
  fold_left (trending.accumulate now) events m !! id
  = if existsb (fun e => String.eqb (repo.ArticleID e) id) events
    then Some (fold_left (add_event id) events (default 0%R (m !! id)))
    else m !! id.
Proof.
  induction events as [|e events IH]; intros m id; [reflexivity|].
  cbn [fold_left existsb]. rewrite IH.
  assert (Hstep : trending.accumulate now m e !! id
                  = if String.eqb (repo.ArticleID e) id
                    then Some (default 0%R (m !! id) + trending.calculateEventScore now e)%R
                    else m !! id).
  { unfold trending.accumulate.
    destruct (String.eqb_spec (repo.ArticleID e) id) as [<-|Hne];
      [now rewrite lookup_insert_eq | now rewrite lookup_insert_ne]. }
  rewrite Hstep. unfold add_event.
  destruct (String.eqb (repo.ArticleID e) id); cbn [orb default]; [|reflexivity].
  destruct (existsb _ events) eqn:Hrest; [reflexivity|].
  now rewrite (fold_no_event id).
Qed.

Lemma accumulated (events : list repo.GetRecentEventsByGeohashRow) (id : string) :
  fold_left (trending.accumulate now) events ∅ !! id
  = if existsb (fun e => String.eqb (repo.ArticleID e) id) events
    then Some (total now id events) else None.
Proof. rewrite fold_accumulate, lookup_empty. reflexivity. Qed.

Lemma event_of_article (events : list repo.GetRecentEventsByGeohashRow) (id : string) :
  existsb (fun e => String.eqb (repo.ArticleID e) id) events = true <-> In id (articles_of events).
Proof.
  unfold articles_of. rewrite nodup_In, existsb_exists, in_map_iff. split.
  - intros (e & He & Heq). apply String.eqb_eq in Heq. now exists e.
  - intros (e & Heq & He). exists e. split; [exact He | now apply String.eqb_eq].
Qed.

(** The scores of the articles, as [computeTileScore] lists them before it
    sorts them. *)
Definition listed_scores (events : list repo.GetRecentEventsByGeohashRow) : list (string * R) :=
  map_to_list (fold_left (trending.accumulate now) events ∅).

Lemma listed_scores_In (events : list repo.GetRecentEventsByGeohashRow) (p : string * R) :
  In p (listed_scores events) <->
  In (fst p) (articles_of events) /\ snd p = total now (fst p) events.
Proof.
  unfold listed_scores. rewrite <- list_elem_of_In. destruct p as [id x]. cbn [fst snd].
  rewrite elem_of_map_to_list, accumulated, <- event_of_article.
  destruct (existsb _ events); split.
  - intros [= <-]. now split.
  - intros [_ ->]. reflexivity.
  - discriminate.
  - intros [[=] _].
Qed.

Lemma listed_scores_NoDup (events : list repo.GetRecentEventsByGeohashRow) :
  List.NoDup (map fst (listed_scores events)).
Proof. apply NoDup_ListNoDup. apply (NoDup_fst_map_to_list (M := gmap string)). Qed.

Lemma listed_scores_length (events : list repo.GetRecentEventsByGeohashRow) :
  length (listed_scores events) = length (articles_of events).
Proof.
  rewrite <- (length_map fst). apply Permutation_length.
  apply Permutation.NoDup_Permutation; [apply listed_scores_NoDup | apply List.NoDup_nodup|].
  intros id. rewrite in_map_iff. split.
  - intros (p & <- & Hp). now apply listed_scores_In in Hp.
  - intros Hid. exists (id, total now id events). split; [reflexivity|].
    apply listed_scores_In. now split.
Qed.

Lemma zset_put_fresh (z : list (string * R)) (member : string) (sc : R) :
  ~ In member (map fst z) -> cache.zset_put z member sc = z ++ [(member, sc)].
Proof.
  induction z as [|[m x] z IH]; intros Hfresh; [reflexivity|].
  cbn [cache.zset_put]. cbn [map fst] in Hfresh.
  destruct (String.eqb_spec m member) as [->|_]; [exfalso; apply Hfresh; now left|].
  cbn [app]. f_equal. apply IH. intros Hin. apply Hfresh. now right.
Qed.

Lemma fold_ZAdd_fresh (key : string) (ts : list trending.TrendingScore) :
  forall (z0 : list (string * R)) (t : option Z) (s0 : trending_store),
  s0 !! key = Some {| cache.val := cache.VZSet z0; cache.ttl := t |} ->
  List.NoDup (map fst z0 ++ map trending.ArticleID ts) ->
  fold_left (fun s t => cache.ZAdd s key (trending.ArticleID t) (trending.Score t)) ts s0 !! key
  = Some {| cache.val := cache.VZSet (z0 ++ map entry_of ts); cache.ttl := t |}.
Proof.
  induction ts as [|a ts IH]; intros z0 t s0 Hs0 Hnd.
  - cbn [fold_left map]. now rewrite app_nil_r.
  - cbn [fold_left map] in *.
    rewrite (IH (z0 ++ [entry_of a]) t).
    + now rewrite <- app_assoc.
    + unfold cache.ZAdd. rewrite Hs0. rewrite lookup_insert_eq.
      rewrite zset_put_fresh; [reflexivity|].
      apply NoDup_remove_2 in Hnd. intros Hin. apply Hnd. apply in_or_app. now left.
    + rewrite map_app, <- app_assoc. exact Hnd.
Qed.

Lemma tile_written (s : trending_store) (key : string) (ts : list trending.TrendingScore) :
  ts <> [] -> List.NoDup (map trending.ArticleID ts) ->
  cache.Expire
    (fold_left (fun s t => cache.ZAdd s key (trending.ArticleID t) (trending.Score t)) ts
               (cache.Del s key))
    key cache.TrendingTTL !! key
  = Some {| cache.val := cache.VZSet (map entry_of ts); cache.ttl := Some cache.TrendingTTL |}.
Proof.
  intros Hne Hnd. destruct ts as [|a ts]; [contradiction|].
  cbn [fold_left].
  assert (Hfold : fold_left (fun s t => cache.ZAdd s key (trending.ArticleID t) (trending.Score t))
                    ts (cache.ZAdd (cache.Del s key) key (trending.ArticleID a) (trending.Score a))
                  !! key
                  = Some {| cache.val := cache.VZSet ([entry_of a] ++ map entry_of ts);
                            cache.ttl := None |}).
  { apply fold_ZAdd_fresh; [|exact Hnd].
    unfold cache.ZAdd, cache.Del. rewrite lookup_delete_eq. now rewrite lookup_insert_eq. }
  unfold cache.Expire. rewrite Hfold. now rewrite lookup_insert_eq.
Qed.






Lemma computeTileScore_key (s : trending_store) (geohash : string)
  (events : list repo.GetRecentEventsByGeohashRow) :
  events <> [] ->
  trending.computeTileScore now s geohash events !! cache.TrendingKey geohash 50
  = Some {| cache.val :=
              cache.VZSet
                (map entry_of
                     (sort.Slice (fun x y => trending.Rltb (trending.Score y) (trending.Score x))
                                 (map scored (listed_scores events))));
            cache.ttl := Some cache.TrendingTTL |}.
Proof.
  intros Hne. unfold trending.computeTileScore.
  destruct events as [|e events]; [contradiction|].
  cbv zeta. fold (listed_scores (e :: events)).
  change (map (fun p : string * R => {| trending.ArticleID := fst p; trending.Score := snd p |})
              (listed_scores (e :: events)))
    with (map scored (listed_scores (e :: events))).
  set (ts := sort.Slice _ (map scored (listed_scores (e :: events)))).
  assert (Hperm : Permutation ts (map scored (listed_scores (e :: events))))
    by apply Slice_perm.
  apply tile_written.
  - intros Hts. rewrite Hts in Hperm. apply Permutation_nil in Hperm.
    apply map_eq_nil in Hperm.
    pose proof (listed_scores_length (e :: events)) as Hlen. rewrite Hperm in Hlen.
    assert (Hin : In (repo.ArticleID e) (articles_of (e :: events))).
    { unfold articles_of. apply nodup_In. now left. }
    destruct (articles_of (e :: events)); [contradiction | discriminate].
  - apply (Permutation_NoDup (Permutation_map trending.ArticleID (Permutation_sym Hperm))).
    rewrite map_map. cbn [scored trending.ArticleID]. apply listed_scores_NoDup.
Qed.









End TileScores.


(* ===================================================================== *)
(** ** Trending: the tiles of a cycle *)
(* ===================================================================== *)

(** Whether the user of an event stands in the tile [geohash]. *)
Definition in_tile (geohash : string) (e : repo.GetRecentEventsByGeohashRow) : bool :=
  match repo.UserLat e, repo.UserLon e with
  | Some lat, Some lon =>
      match cache.GenerateGeohash lat lon 5 with
      | Some g => String.eqb g geohash
      | None => false
      end
  | _, _ => false
  end.

Section Tiling.
Context `{GoLibrary} `{repo.Repository}.

Lemma groupEventsByTile_lookup (events : list repo.GetRecentEventsByGeohashRow) :
  forall (m tiles : gmap string (list repo.GetRecentEventsByGeohashRow)) (geohash : string),
  trending.groupEventsByTile events m = Some tiles ->
  tiles !! geohash
  = match m !! geohash, List.filter (in_tile geohash) events with
    | None, [] => None
    | l0, l => Some (default [] l0 ++ l)
    end.
Proof.
  induction events as [|e events IH]; intros m tiles geohash Hgroup.
  - cbn [trending.groupEventsByTile] in Hgroup. injection Hgroup as <-.
    cbn [List.filter]. destruct (m !! geohash); cbn [default]; [now rewrite app_nil_r | reflexivity].
  - cbn [trending.groupEventsByTile List.filter] in *.
    destruct (repo.UserLat e) as [lat|] eqn:Hlat; [destruct (repo.UserLon e) as [lon|] eqn:Hlon|].
    + destruct (cache.GenerateGeohash lat lon 5) as [g|] eqn:Hg; [|discriminate].
      assert (Htile : in_tile geohash e = String.eqb g geohash)
        by (unfold in_tile; now rewrite Hlat, Hlon, Hg).
      rewrite Htile, (IH _ _ geohash Hgroup).
      destruct (String.eqb_spec g geohash) as [->|Hne].
      * rewrite lookup_insert_eq.
        destruct (m !! geohash); cbn; rewrite <- ?app_assoc; reflexivity.
      * now rewrite lookup_insert_ne.
    + assert (Htile : in_tile geohash e = false) by (unfold in_tile; now rewrite Hlat, Hlon).
      rewrite Htile. now apply IH.
    + assert (Htile : in_tile geohash e = false) by (unfold in_tile; now rewrite Hlat).
      rewrite Htile. now apply IH.
Qed.

(** [groupEventsByTile] returns, without a panic, when [GenerateGeohash]
    does for every event that has the coordinates of its user.  A tile then
    holds the events whose user stands in it, in the order in which they
    came, and there is no tile without an event; the events that lack a
    coordinate of the user are in no tile. *)
Theorem groupEventsByTile_tiles (events : list repo.GetRecentEventsByGeohashRow) :
  ((forall e lat lon,
      In e events -> repo.UserLat e = Some lat -> repo.UserLon e = Some lon ->
      cache.GenerateGeohash lat lon 5 <> None) ->
   exists tiles, trending.groupEventsByTile events ∅ = Some tiles) /\
  (forall tiles geohash,
     trending.groupEventsByTile events ∅ = Some tiles ->
     tiles !! geohash
     = match List.filter (in_tile geohash) events with
       | [] => None
       | l => Some l
       end).
Proof.
  split.
  - generalize (∅ : gmap string (list repo.GetRecentEventsByGeohashRow)).
    induction events as [|e events IH]; intros m Hsafe; [now exists m|].
    cbn [trending.groupEventsByTile].
    assert (Hrest : forall e' lat lon,
               In e' events -> repo.UserLat e' = Some lat -> repo.UserLon e' = Some lon ->
               cache.GenerateGeohash lat lon 5 <> None).
    { intros e' lat lon He'. apply Hsafe. now right. }
    destruct (repo.UserLat e) as [lat|] eqn:Hlat; [destruct (repo.UserLon e) as [lon|] eqn:Hlon|];
      try (now apply IH).
    destruct (cache.GenerateGeohash lat lon 5) as [g|] eqn:Hg; [now apply IH|].
    exfalso. exact (Hsafe e lat lon (or_introl eq_refl) Hlat Hlon Hg).
  - intros tiles geohash Hgroup.
    rewrite (groupEventsByTile_lookup events ∅ tiles geohash Hgroup), lookup_empty.
    now destruct (List.filter (in_tile geohash) events).
Qed.

End Tiling.

Section Cycle.
Context `{GoLibrary} `{repo.Repository}.
Variable now : Z.

Lemma string_app_inv_tail (c : string) :
  forall a b : string, (a ++ c = b ++ c)%string -> a = b.
Proof.
  assert (Hlen : forall a b : string, (a ++ c = b ++ c)%string -> String.length a = String.length b).
  { intros a b Heq. apply (f_equal String.length) in Heq.
    rewrite !string_length_app in Heq. lia. }
  induction a as [|x a IH]; intros [|y b] Heq; try reflexivity;
    try (apply Hlen in Heq; discriminate).
  unfold String.append in Heq. fold String.append in Heq.
  injection Heq as -> Heq. f_equal. now apply IH.
Qed.

Lemma TrendingKey_inj (g g' : string) (limit : Z) :
  cache.TrendingKey g limit = cache.TrendingKey g' limit -> g = g'.
Proof.
  unfold cache.TrendingKey. intros Heq. apply string_app_inv_head in Heq.
  now apply string_app_inv_tail in Heq.
Qed.

Lemma computeTileScore_frame (s : trending_store) (geohash : string)
  (events : list repo.GetRecentEventsByGeohashRow) (k : string) :
  k <> cache.TrendingKey geohash 50 ->
  trending.computeTileScore now s geohash events !! k = s !! k.
Proof.
  intros Hk. unfold trending.computeTileScore. destruct events as [|ev events]; [reflexivity|].
  cbv zeta. unfold cache.Expire.
  set (scores := sort.Slice _ _).
  assert (Hfold : forall s0 : trending_store,
             fold_left (fun s1 t => cache.ZAdd s1 (cache.TrendingKey geohash 50)
                                     (trending.ArticleID t) (trending.Score t)) scores s0 !! k
             = s0 !! k).
  { generalize scores. intros l. induction l as [|t l IH]; intros s0; [reflexivity|].
    cbn [fold_left]. rewrite IH. now apply ZAdd_frame. }
  destruct (_ !! cache.TrendingKey geohash 50).
  - rewrite lookup_insert_ne by congruence. rewrite Hfold.
    unfold cache.Del. now rewrite lookup_delete_ne by congruence.
  - rewrite Hfold. unfold cache.Del. now rewrite lookup_delete_ne by congruence.
Qed.

Lemma fold_tiles (tiles : list (string * list repo.GetRecentEventsByGeohashRow)) :
  forall (s0 : trending_store) (n0 : Z),
  List.NoDup (map fst tiles) ->
  (forall g l, In (g, l) tiles -> l <> []) ->
  let st := fold_left
              (fun st tile =>
                 (trending.computeTileScore now (fst st) (fst tile) (snd tile), snd st + 1))
              tiles (s0, n0) in
  snd st = n0 + Z.of_nat (length tiles) /\
  (forall g l, In (g, l) tiles ->
     fst st !! cache.TrendingKey g 50
     = trending.computeTileScore now s0 g l !! cache.TrendingKey g 50) /\
  (forall k, (forall g, In g (map fst tiles) -> k <> cache.TrendingKey g 50) ->
     fst st !! k = s0 !! k).
Proof.
  induction tiles as [|[g0 l0] tiles IH]; intros s0 n0 Hnd Hfull st.
  - subst st. cbn. split; [lia|]. split; [intros g l []|reflexivity].
  - subst st. cbn [fold_left fst snd map length] in *.
    inversion Hnd as [|? ? Hg0 Hnd']; subst.
    destruct (IH (trending.computeTileScore now s0 g0 l0) (n0 + 1) Hnd'
                 (fun g l Hin => Hfull g l (or_intror Hin))) as (Hcount & Htiles & Hother).
    split; [rewrite Hcount; lia|]. split.
    + intros g l [[= <- <-]|Hin].
      * apply Hother. intros g Hg Heq. apply TrendingKey_inj in Heq. congruence.
      * rewrite (Htiles g l Hin).
        assert (Hl : l <> []) by (apply (Hfull g l); now right).
        now rewrite !(computeTileScore_key now _ g l Hl).
    + intros k Hk. rewrite Hother by (intros g Hg; apply Hk; now right).
      apply computeTileScore_frame. apply Hk. now left.
Qed.

(** A cycle of [computeAllTiles] over events that group into tiles: it
    returns no error; reading a tile with limit 50 afterwards gives what
    [computeTileScore] alone gives for the events of that tile; the global
    metadata holds the time of the cycle, the number of events and the
    number of tiles; every other key of the store is left as it was. *)
Theorem computeAllTiles_then_GetTrendingScores (s : trending_store)
  (events : list repo.GetRecentEventsByGeohashRow)
  (tiles : gmap string (list repo.GetRecentEventsByGeohashRow)) :
  repo.GetRecentEventsByGeohash (now - 24 * cache.Hour) = Ok events ->
  events <> [] ->
  trending.groupEventsByTile events ∅ = Some tiles ->
  exists s',
    trending.computeAllTiles now s = trending.Returned s' None /\
    (forall g l, tiles !! g = Some l ->
       trending.GetTrendingScores s' g 50
       = trending.GetTrendingScores (trending.computeTileScore now s g l) g 50) /\
    cache.Get s' "news:trending:global:meta"
    = Ok (trending.MetaJSON {| trending.LastComputedAt := now;
                               trending.EventCount := Z.of_nat (length events);
                               trending.TileCount := Z.of_nat (length (map_to_list tiles)) |}) /\
    (forall k, k <> "news:trending:global:meta" ->
               (forall g, is_Some (tiles !! g) -> k <> cache.TrendingKey g 50) ->
               s' !! k = s !! k).
Proof.
  intros Hevents Hne Hgroup. unfold trending.computeAllTiles. cbv zeta.
  rewrite Hevents. destruct events as [|e events]; [contradiction|]. rewrite Hgroup.
  destruct (fold_tiles (map_to_list tiles) s 0) as (Hcount & Htiles & Hother).
  { apply NoDup_ListNoDup. apply (NoDup_fst_map_to_list (M := gmap string)). }
  { intros g l Hin. apply list_elem_of_In, elem_of_map_to_list in Hin.
    rewrite (groupEventsByTile_lookup _ _ _ g Hgroup), lookup_empty in Hin.
    destruct (List.filter (in_tile g) (e :: events)); [discriminate|].
    injection Hin as <-. discriminate. }
  cbv zeta in Hcount, Htiles, Hother.
  destruct (fold_left _ (map_to_list tiles) (s, 0)) as [s1 tileCount].
  cbn [fst snd] in *.
  eexists. split; [reflexivity|]. split; [|split].
  - intros g l Hg. unfold trending.GetTrendingScores, cache.ZRevRangeWithScores, cache.Set_.
    rewrite lookup_insert_ne by (unfold cache.TrendingKey; cbn; intros [=]).
    rewrite (Htiles g l); [reflexivity|].
    now apply list_elem_of_In, elem_of_map_to_list.
  - unfold cache.Get, cache.Set_. rewrite lookup_insert_eq. rewrite Hcount. reflexivity.
  - intros k Hmeta Hk. unfold cache.Set_. rewrite lookup_insert_ne by congruence.
    apply Hother. intros g Hg. apply Hk.
    apply in_map_iff in Hg as ([g' l] & <- & Hin). exists l.
    now apply list_elem_of_In, elem_of_map_to_list in Hin.
Qed.

End Cycle.

(** A store of events for the examples: it answers the same events for
    every instant, and no article. *)
Definition store_of_events (events : list repo.GetRecentEventsByGeohashRow) : repo.Repository := {|
  repo.GetArticlesByCategory := fun _ => Ok [];
  repo.GetArticlesBySource := fun _ => Ok [];
  repo.GetArticlesByScore := fun _ => Ok [];
  repo.SearchArticles := fun _ => Ok [];
  repo.GetNearbyArticles := fun _ => Ok [];
  repo.GetRecentEventsByGeohash := fun _ => Ok events
|}.

Definition click_in_town : repo.GetRecentEventsByGeohashRow :=
  event "click" 1000 (Some (news.defaultLat, news.defaultLon)) None.

Lemma groupEventsByTile_tiles_witness :
  exists tiles, trending.groupEventsByTile [click_in_town] ∅ = Some tiles.
Proof.
  apply (proj1 (groupEventsByTile_tiles [click_in_town])).
  intros e lat lon [<-|[]] [= <-] [= <-]. vm_compute. discriminate.
Defined.

Lemma computeAllTiles_then_GetTrendingScores_witness :
  exists s',
    @trending.computeAllTiles example_library (store_of_events [click_in_town]) 1000 ∅
    = trending.Returned s' None /\
    exists count,
      cache.Get s' "news:trending:global:meta"
      = Ok (trending.MetaJSON {| trending.LastComputedAt := 1000;
                                 trending.EventCount := 1;
                                 trending.TileCount := count |}).
Proof.
  destruct (trending.groupEventsByTile [click_in_town] ∅) as [tiles|] eqn:Hgroup.
  - destruct (@computeAllTiles_then_GetTrendingScores example_library
                (store_of_events [click_in_town]) 1000 ∅ [click_in_town] tiles)
      as (s' & Hcycle & _ & Hmeta & _).
    + reflexivity.
    + discriminate.
    + exact Hgroup.
    + exists s'. split; [exact Hcycle|]. eexists. exact Hmeta.
  - vm_compute in Hgroup. discriminate.
Defined.

(* ===================================================================== *)
(** ** The loader: what a file leaves in the repository *)
(* ===================================================================== *)

(** The article that the loader stores for an article of a file. *)
Definition loaded_article (id : string) (dto : news.ArticleDTO) : repo.Article := {|
  repo.ID := id;
  repo.Title := news.Title dto;
  repo.Description := news.Description dto;
  repo.URL := news.URL dto;
  repo.PublicationDate := news.PublicationDate dto;
  repo.SourceName := news.SourceName dto;
  repo.Category := news.Category dto;
  repo.RelevanceScore := news.RelevanceScore dto;
  repo.Latitude := news.Latitude dto;
  repo.Longitude := news.Longitude dto
|}.

(** The value of a hexadecimal digit. *)
Definition unhex (c : ascii) : N :=
  let n := N_of_ascii c in
  if (n <? 58)%N then (n - 48)%N else (n - 87)%N.

Section Loading.
Context `{cache.Placement} `{repo.GoJSON}.

Lemma unhex_hex_digit (n : N) : (n < 16)%N -> unhex (ingest.hex_digit n) = n.
Proof.
  intros Hn. destruct n as [|p]; [reflexivity|].
  do 4 (destruct p as [p|p|]; try reflexivity); lia.
Qed.

Lemma EncodeToString_inj (a : list ascii) :
  forall b, ingest.EncodeToString a = ingest.EncodeToString b -> a = b.
Proof.
  induction a as [|x a IH]; intros [|y b] Heq; try reflexivity; try discriminate.
  cbn [ingest.EncodeToString] in Heq. injection Heq as Hhigh Hlow Hrest.
  pose proof (N_ascii_bounded x) as Hx. pose proof (N_ascii_bounded y) as Hy.
  apply (f_equal unhex) in Hhigh, Hlow.
  rewrite !unhex_hex_digit in Hhigh, Hlow
    by (first [apply N.mod_lt; lia | apply N.Div0.div_lt_upper_bound; lia]).
  f_equal; [|now apply IH].
  rewrite <- (ascii_N_embedding x), <- (ascii_N_embedding y). f_equal.
  rewrite (N.div_mod (N_of_ascii x) 16), (N.div_mod (N_of_ascii y) 16) by lia.
  now rewrite Hhigh, Hlow.
Qed.

Lemma generateID_not_empty (bytes : list ascii) :
  length bytes = 8%nat -> String.eqb (ingest.generateID bytes) "" = false.
Proof. destruct bytes; [discriminate | reflexivity]. Qed.

Lemma CreateArticle_with_id (r : repo.repository) (arg : repo.CreateArticleParams) :
  String.eqb (repo.Create_ID arg) "" = false ->
  repo.nextID (fst (repo.CreateArticle r arg)) = repo.nextID r /\
  repo.ID (created r arg) = repo.Create_ID arg.
Proof.
  intros Hid. unfold repo.CreateArticle, created. rewrite Hid. cbv zeta.
  destruct (repo.rcache r); [destruct (repo.json_Marshal _)|]; split; reflexivity.
Qed.

Lemma LoadArticle_memory (r : repo.repository) (bytes : list ascii) (dto : news.ArticleDTO) :
  repo.rcache r = None -> keyed r -> length bytes = 8%nat ->
  let r' := fst (ingest.LoadArticle r bytes dto) in
  repo.rcache r' = None /\ keyed r' /\ repo.nextID r' = repo.nextID r /\
  repo.GetArticleByID r' (ingest.generateID bytes)
  = Ok (loaded_article (ingest.generateID bytes) dto) /\
  (forall id, id <> ingest.generateID bytes ->
              repo.GetArticleByID r' id = repo.GetArticleByID r id).
Proof.
  intros Hc Hkeyed Hbytes r'. subst r'. unfold ingest.LoadArticle. cbv zeta.
  set (arg := {| repo.Create_ID := ingest.generateID bytes |}).
  assert (Hfst : forall p : repo.repository * result repo.Article,
             fst (let (r', y) := p in
                  match y with
                  | Ok _ => (r', None)
                  | Err err => (r', Some ("failed to create article: " ++ err)%string)
                  end) = fst p).
  { intros [r' [a|e]]; reflexivity. }
  rewrite Hfst.
  destruct (CreateArticle_with_id r arg (generateID_not_empty bytes Hbytes)) as [Hnext Hid].
  destruct (CreateArticle_memory r arg Hc) as [Hc' Hm'].
  pose proof (keyed_map r Hkeyed) as Hnd.
  assert (Hcreated : created r arg = loaded_article (ingest.generateID bytes) dto).
  { unfold created, loaded_article. cbn [arg repo.Create_ID repo.Create_Title
      repo.Create_Description repo.Create_URL repo.Create_PublicationDate repo.Create_SourceName
      repo.Create_Category repo.Create_RelevanceScore repo.Create_Latitude repo.Create_Longitude].
    now rewrite (generateID_not_empty bytes Hbytes). }
  split; [exact Hc'|]. split; [|split; [exact Hnext|split]].
  - unfold keyed. rewrite Hm'. now apply assign_NoDup.
  - unfold repo.GetArticleByID, repo.lookup_memory. rewrite Hc', Hm', Hcreated.
    change (ingest.generateID bytes)
      with (repo.ID (loaded_article (ingest.generateID bytes) dto)) at 1.
    now rewrite assign_find_same.
  - intros id Hne. apply GetArticleByID_depends; [now rewrite Hc, Hc'|].
    unfold repo.lookup_memory. rewrite Hm', Hcreated.
    rewrite (assign_find_other id _ _ Hnd) by exact Hne.
    destruct (repo.articles r); reflexivity.
Qed.

Lemma load_loop_memory (draws : nat -> list ascii) (articles : list news.ArticleDTO) :
  forall (r : repo.repository) (i0 : nat),
  repo.rcache r = None -> keyed r ->
  (forall i, length (draws i) = 8%nat) ->
  (forall k k', (k < length articles)%nat -> (k' < length articles)%nat ->
                draws (i0 + k)%nat = draws (i0 + k')%nat -> k = k') ->
  let r' := ingest.load_loop r draws i0 articles in
  repo.rcache r' = None /\ keyed r' /\ repo.nextID r' = repo.nextID r /\
  (forall id, (forall k, (k < length articles)%nat -> ingest.generateID (draws (i0 + k)%nat) <> id) ->
              repo.GetArticleByID r' id = repo.GetArticleByID r id) /\
  (forall k dto, nth_error articles k = Some dto ->
                 repo.GetArticleByID r' (ingest.generateID (draws (i0 + k)%nat))
                 = Ok (loaded_article (ingest.generateID (draws (i0 + k)%nat)) dto)).
Proof.
  induction articles as [|a articles IH]; intros r i0 Hc Hkeyed Hlen Hdistinct r'; subst r'.
  - cbn [ingest.load_loop]. repeat split; try assumption. intros [|k] dto [=].
  - cbn [ingest.load_loop length] in *.
    destruct (LoadArticle_memory r (draws i0) a Hc Hkeyed (Hlen i0))
      as (Hc1 & Hkeyed1 & Hnext1 & Hread1 & Hother1).
    destruct (IH (fst (ingest.LoadArticle r (draws i0) a)) (S i0) Hc1 Hkeyed1 Hlen)
      as (Hc' & Hkeyed' & Hnext' & Hother' & Hread').
    { intros k k' Hk Hk' Heq.
      assert (S k = S k') as [= ->]; [|reflexivity].
      apply Hdistinct; [lia | lia|]. now rewrite <- !Nat.add_succ_comm. }
    split; [exact Hc'|]. split; [exact Hkeyed'|]. split; [congruence|]. split.
    + intros id Hid. rewrite Hother'.
      * apply Hother1. intros Heq. apply (Hid 0%nat); [lia|]. now rewrite Nat.add_0_r.
      * intros k Hk. rewrite Nat.add_succ_comm. apply Hid. lia.
    + intros [|k] dto Hdto.
      * cbn [nth_error] in Hdto. injection Hdto as <-. rewrite Nat.add_0_r.
        rewrite Hother'; [exact Hread1|].
        intros k Hk Heq. apply EncodeToString_inj in Heq.
        rewrite Nat.add_succ_comm in Heq.
        assert (S k = 0%nat) as [=].
        apply Hdistinct; [lia | lia|]. now rewrite Nat.add_0_r.
      * cbn [nth_error] in Hdto. rewrite <- Nat.add_succ_comm. now apply Hread'.
Qed.

(** Loading a decoded file into the in-memory repository, when the ids
    drawn for its articles are buffers of 8 bytes that differ from one
    another: no error is returned, the counter of the repository is not
    used, and every article of the file is then read under the id drawn for
    it, which is the 16 hexadecimal digits of its buffer, with the fields it
    had in the file. *)
Theorem LoadFromFile_then_GetArticleByID (r : repo.repository) (filePath : string)
  (articles : list news.ArticleDTO) (draws : nat -> list ascii) :
  repo.rcache r = None -> keyed r ->
  (forall i, length (draws i) = 8%nat) ->
  (forall i j, (i < length articles)%nat -> (j < length articles)%nat ->
               draws i = draws j -> i = j) ->
  let loaded := ingest.LoadFromFile r filePath (ingest.Decoded articles) draws in
  snd loaded = None /\
  repo.nextID (fst loaded) = repo.nextID r /\
  (forall i dto, nth_error articles i = Some dto ->
     String.length (ingest.generateID (draws i)) = 16%nat /\
     repo.GetArticleByID (fst loaded) (ingest.generateID (draws i))
     = Ok (loaded_article (ingest.generateID (draws i)) dto)).
Proof.
  intros Hc Hkeyed Hlen Hdistinct loaded. subst loaded. cbn [ingest.LoadFromFile fst snd].
  destruct (load_loop_memory draws articles r 0 Hc Hkeyed Hlen Hdistinct)
    as (_ & _ & Hnext & _ & Hread).
  split; [reflexivity|]. split; [exact Hnext|].
  intros i dto Hdto. split; [|exact (Hread i dto Hdto)].
  specialize (Hlen i). destruct (draws i) as [|b1 [|b2 [|b3 [|b4 [|b5 [|b6 [|b7 [|b8 [|]]]]]]]]];
    try discriminate. reflexivity.
Qed.

End Loading.

Definition two_in_a_file : list news.ArticleDTO :=
  [ dto "x" 10 (F64.dec 5 1) None None; dto "y" 20 (F64.dec 9 1) None None ].

(** Buffers for the example: the index of the article, eight times. *)
Definition counting_draws (i : nat) : list ascii := repeat (ascii_of_nat i) 8.

Lemma LoadFromFile_then_GetArticleByID_witness :
  repo.GetArticleByID
    (fst (@ingest.LoadFromFile cache.by_arrival finite_scores memory_repository "news.json"
            (ingest.Decoded two_in_a_file) counting_draws))
    "0101010101010101"
  = Ok (loaded_article "0101010101010101" (dto "y" 20 (F64.dec 9 1) None None)).
Proof.
  refine (proj2 (proj2 (proj2 (@LoadFromFile_then_GetArticleByID cache.by_arrival finite_scores
            memory_repository "news.json" two_in_a_file counting_draws _ _ _ _)) 1%nat _ _)).
  - reflexivity.
  - exact memory_repository_keyed.
  - intros i. apply repeat_length.
  - intros [|[|i]] [|[|j]] Hi Hj Heq; cbn [two_in_a_file length] in *; try lia; discriminate.
  - reflexivity.
Defined.

(* ===================================================================== *)
(** ** The repository: an index is never pruned *)
(* ===================================================================== *)

Section StaleIndex.
Context `{GoLibrary} `{cache.Placement} `{repo.GoJSON}.

Lemma Set_listed {score : Type} (s : gmap string (@cache.entry score repo.document))
  (k key id : string) (d : repo.document) (t : Z) (bound : nat) :
  k <> key -> listed s key id bound -> listed (cache.Set_ s k d t) key id bound.
Proof.
  intros Hne (members & Hms & Hin & Hlen). exists members. split; [|split; assumption].
  rewrite <- Hms. apply SMembers_frame. unfold cache.Set_. apply lookup_insert_ne. exact Hne.
Qed.

(** What the calls of [CreateArticle] on the cache do to the set of a
    category of the article, and to a set that lists the article
    already. *)
Lemma indexes_listed (c : gmap string (@cache.entry float64 repo.document))
  (id source category : string) (categories : list string) (sc : float64)
  (d : repo.document) (bound : nat) :
  (In category categories /\
   exists members,
     cache.SMembers c ("articles:category:" ++ Strings.ToLower category) = Ok members /\
     bound = S (length members)) \/
  listed c ("articles:category:" ++ Strings.ToLower category) id bound ->
  listed
    (cache.ZAdd
       (cache.SAdd
          (fold_left (fun c category =>
                        cache.SAdd c ("articles:category:" ++ Strings.ToLower category) id)
                     categories
                     (cache.SAdd (cache.Set_ c ("article:" ++ id) d (24 * cache.Hour))
                                 "articles:all" id))
          ("articles:source:" ++ Strings.ToLower source) id)
       "articles:by_score" id sc)
    ("articles:category:" ++ Strings.ToLower category) id bound.
Proof.
  intros Hbefore.
  apply ZAdd_listed; [cbn; intros [=]|]. apply SAdd_listed.
  destruct Hbefore as [(Hin & members & Hms & ->)|Hlisted].
  - apply fold_SAdd_lists; [|exact Hin].
    rewrite <- Hms. apply SMembers_frame.
    rewrite SAdd_other by (cbn; intros [=]).
    unfold cache.Set_. apply lookup_insert_ne. cbn. intros [=].
  - apply fold_SAdd_listed. apply SAdd_listed. apply Set_listed; [cbn; intros [=] | exact Hlisted].
Qed.

(** With a cache, an article that is created again under its id with other
    categories stays in the sets of the categories it had: asked for one of
    these, [GetArticlesByCategory] still answers the article, as it now is,
    whether it has the category or not. *)
Theorem category_index_is_never_pruned (r : repo.repository)
  (first again : repo.CreateArticleParams)
  (c : gmap string (@cache.entry float64 repo.document)) (stored stored' : repo.Article)
  (category : string) (members : list string) (limit : Z) :
  let r1 := fst (repo.CreateArticle r first) in
  let r2 := fst (repo.CreateArticle r1 again) in
  repo.rcache r = Some c ->
  repo.ID (created r1 again) = repo.ID (created r first) ->
  repo.json_Marshal (created r first) = Ok (repo.ArticleJSON stored) ->
  repo.json_Marshal (created r1 again) = Ok (repo.ArticleJSON stored') ->
  In category (repo.Create_Category first) ->
  cache.SMembers c ("articles:category:" ++ Strings.ToLower category) = Ok members ->
  Z.of_nat (length members) < limit ->
  exists answer,
    repo.GetArticlesByCategory_ r2
      {| repo.Category_Name := category; repo.Category_Limit := limit |} = Ok answer /\
    In stored' answer.
Proof.
  intros r1 r2 Hc Hid Hjson Hjson' Hin Hms Hlimit. subst r1 r2.
  pose proof (created_cache r first c stored Hc Hjson) as Hc1. cbv zeta in Hc1.
  pose proof (created_cache _ again _ stored' Hc1 Hjson') as Hc2. cbv zeta in Hc2.
  unfold repo.GetArticlesByCategory_. cbn [repo.Category_Name repo.Category_Limit].
  rewrite Hc2. cbv zeta.
  apply (listed_answer _ _ _ (repo.ID (created r first)) (S (length members))); [|lia|].
  - rewrite Hid. apply indexes_listed. right. apply indexes_listed. left.
    split; [exact Hin|]. now exists members.
  - rewrite <- Hid. now apply (created_read_back _ again _ stored' Hc1).
Qed.

End StaleIndex.

Definition science_params : repo.CreateArticleParams := {|
  repo.Create_ID := "a7";
  repo.Create_Title := "Rover lands";
  repo.Create_Description := None;
  repo.Create_URL := "https://example.org/7";
  repo.Create_PublicationDate := 0;
  repo.Create_SourceName := "SpaceNews";
  repo.Create_Category := ["Science"];
  repo.Create_RelevanceScore := F64.dec 9 1;
  repo.Create_Latitude := None;
  repo.Create_Longitude := None
|}.

Definition sports_params : repo.CreateArticleParams := {|
  repo.Create_ID := "a7";
  repo.Create_Title := "Cup final";
  repo.Create_Description := None;
  repo.Create_URL := "https://example.org/7";
  repo.Create_PublicationDate := 0;
  repo.Create_SourceName := "SportsCentral";
  repo.Create_Category := ["Sports"];
  repo.Create_RelevanceScore := F64.dec 8 1;
  repo.Create_Latitude := None;
  repo.Create_Longitude := None
|}.

Lemma category_index_is_never_pruned_witness :
  exists answer,
    repo.GetArticlesByCategory_
      (fst (@repo.CreateArticle cache.by_arrival finite_scores
              (fst (@repo.CreateArticle cache.by_arrival finite_scores cache_repository
                      science_params))
              sports_params))
      {| repo.Category_Name := "Science"; repo.Category_Limit := 5 |} = Ok answer /\
    In (created cache_repository sports_params) answer.
Proof.
  apply (@category_index_is_never_pruned cache.by_arrival finite_scores cache_repository
           science_params sports_params ∅ (created cache_repository science_params)
           (created cache_repository sports_params) "Science" []).
  - reflexivity.
  - reflexivity.
  - reflexivity.
  - reflexivity.
  - cbn. tauto.
  - unfold cache.SMembers. now rewrite lookup_empty.
  - cbn. lia.
Defined.
